(** * Recipe API: the faceted search controller

    A shallow embedding of [backend/controllers/recipeController.js]
    ([parseComparisonQuery], [getRecipes], [searchRecipes]) together with
    the parts of its collaborators that decide its behaviour:

    - the JavaScript primitives the controller calls ([parseFloat],
      [parseInt], numeric coercion, truthiness, [Math.ceil],
      [new RegExp (s, 'i')]);
    - the record store (a MongoDB collection behind Mongoose): query
      predicates, [find]/[countDocuments], and the aggregation stages the
      controller assembles.

    Two further parts follow the controller: the sanitising and batching
    of the bulk loader ([backend/scripts/importData.js]), and the logic of
    three components of the front end ([Pagination], [SearchFilters],
    [StarRating]).

    Conventions of the model.
    - Strings are sequences of ASCII characters.
    - A JavaScript number is [NaN], an infinity, or an exact rational; the
      rounding of a decimal literal to the nearest double and the range of
      doubles are not modelled (rounding is monotone, so the order
      comparisons made here are unaffected), and the sign of zero is not
      tracked.
    - Where a statement depends on the exact value of a large number it
      carries a hypothesis that keeps the number within the integers a
      double holds exactly ([MAX_SAFE_INTEGER]).
    - Regular expressions are modelled on a fragment of the pattern syntax;
      a pattern outside it is reported as [Unsupported] and the controller
      model then yields no answer ([None]).  The same holds for the few
      store inputs marked [Unmodelled]. *)

From Stdlib Require Import ZArith QArith Qround List String Ascii Bool Lia.
From Stdlib Require Import Permutation Sorted.
Import ListNotations.

Local Open Scope char_scope.
Local Open Scope list_scope.

(** Characters of a string, and back. *)
Definition chars : string -> list ascii := list_ascii_of_string.
Definition text : list ascii -> string := string_of_list_ascii.

(* ================================================================== *)
(** ** JavaScript primitives *)
(* ================================================================== *)

Module JS.

(** A JavaScript number. [Fin] always carries a reduced fraction, so that
    equal numbers are equal terms. *)
Inductive number : Type :=
| NaN
| PosInf
| NegInf
| Fin (q : Q).

Definition fin (q : Q) : number := Fin (Qred q).
Definition of_Z (z : Z) : number := Fin (inject_Z z).
Definition of_nat (n : nat) : number := of_Z (Z.of_nat n).

(** A value as the controller sees one: a query-string parameter is a
    string or absent; destructuring defaults are numbers. *)
Inductive value : Type :=
| VUndef
| VStr (s : string)
| VNum (n : number).

(** *** Character classes of the numeric grammars *)

Definition code (c : ascii) : Z := Z.of_nat (nat_of_ascii c).

(** StrWhiteSpaceChar, ASCII range: TAB, LF, VT, FF, CR, SP. *)
Definition is_ws (c : ascii) : bool :=
  let n := code c in
  ((9 <=? n) && (n <=? 13) || (n =? 32))%Z.

(** Value of [c] as a digit in [radix] (2..36), if it is one. *)
Definition digit_in (radix : Z) (c : ascii) : option Z :=
  let n := code c in
  let v := (if (48 <=? n) && (n <=? 57) then n - 48
            else if (97 <=? n) && (n <=? 122) then n - 87
            else if (65 <=? n) && (n <=? 90) then n - 55
            else 36)%Z in
  if (v <? radix)%Z then Some v else None.

(** Longest run of digits: accumulated value, number of digits, rest. *)
Fixpoint digits (radix acc : Z) (cnt : nat) (s : list ascii)
  : Z * nat * list ascii :=
  match s with
  | c :: rest =>
      match digit_in radix c with
      | Some d => digits radix (radix * acc + d)%Z (S cnt) rest
      | None => (acc, cnt, s)
      end
  | [] => (acc, cnt, s)
  end.

Fixpoint skip_ws (s : list ascii) : list ascii :=
  match s with
  | c :: rest => if is_ws c then skip_ws rest else s
  | [] => []
  end.

Definition trim_ws (s : list ascii) : list ascii :=
  rev (skip_ws (rev (skip_ws s))).

Fixpoint starts_with (p s : list ascii) : option (list ascii) :=
  match p, s with
  | [], _ => Some s
  | a :: p', b :: s' => if Ascii.eqb a b then starts_with p' s' else None
  | _ :: _, [] => None
  end.

(** [m * 10^k] as a reduced fraction. *)
Definition scale10 (m k : Z) : Q :=
  Qred (if (0 <=? k)%Z then inject_Z (m * 10 ^ k)
        else Qmake m (Z.to_pos (10 ^ (- k)))).

(** Optional ExponentPart: [e] or [E], an optional sign, at least one
    digit.  When the part is malformed nothing is consumed. *)
Definition exponent (s : list ascii) : Z * list ascii :=
  match s with
  | c :: r =>
      if Ascii.eqb c "e" || Ascii.eqb c "E" then
        let '(neg, r1) :=
          match r with
          | "-" :: r' => (true, r')
          | "+" :: r' => (false, r')
          | _ => (false, r)
          end in
        match digits 10 0 0 r1 with
        | (_, O, _) => (0%Z, s)
        | (x, _, r2) => ((if neg then - x else x)%Z, r2)
        end
      else (0%Z, s)
  | [] => (0%Z, s)
  end.

(** StrUnsignedDecimalLiteral: longest prefix of [s] that is one, with its
    value and the rest of the input. *)
Definition unsigned_literal (s : list ascii) : option (number * list ascii) :=
  match starts_with (chars "Infinity") s with
  | Some r => Some (PosInf, r)
  | None =>
      let '(ip, ni, r1) := digits 10 0 0 s in
      let '(m, nf, r2) :=
        match r1 with
        | "." :: r => digits 10 ip 0 r
        | _ => (ip, O, r1)
        end in
      match ni, nf with
      | O, O => None
      | _, _ =>
          let '(x, r3) := exponent r2 in
          Some (Fin (scale10 m (x - Z.of_nat nf)), r3)
      end
  end.

Definition neg (n : number) : number :=
  match n with
  | NaN => NaN
  | PosInf => NegInf
  | NegInf => PosInf
  | Fin q => fin (- q)
  end.

(** StrDecimalLiteral: an optional sign and an unsigned literal. *)
Definition signed_literal (s : list ascii) : option (number * list ascii) :=
  match s with
  | "-" :: r =>
      match unsigned_literal r with
      | Some (n, r') => Some (neg n, r')
      | None => None
      end
  | "+" :: r => unsigned_literal r
  | _ => unsigned_literal s
  end.

(** [parseFloat(string)]: leading white space is skipped, the longest
    prefix that is a decimal literal is converted, anything after it is
    ignored; [NaN] when there is no such prefix. *)
Definition parseFloat (s : string) : number :=
  match signed_literal (skip_ws (chars s)) with
  | Some (n, _) => n
  | None => NaN
  end.

(** [parseInt(string)] with no radix argument: leading white space, a
    sign, an optional [0x]/[0X] prefix selecting radix 16 (otherwise 10),
    then the longest run of digits; [NaN] when that run is empty. *)
Definition parseInt (s : string) : number :=
  let s0 := skip_ws (chars s) in
  let '(sign, s1) :=
    match s0 with
    | "-" :: r => ((-1)%Z, r)
    | "+" :: r => (1%Z, r)
    | _ => (1%Z, s0)
    end in
  let '(radix, s2) :=
    match s1 with
    | "0" :: "x" :: r => (16%Z, r)
    | "0" :: "X" :: r => (16%Z, r)
    | _ => (10%Z, s1)
    end in
  match digits radix 0 0 s2 with
  | (_, O, _) => NaN
  | (v, _, _) => of_Z (sign * v)
  end.

(** Numeric coercion of a string (StringToNumber): the whole trimmed
    string must be a numeric literal; the empty string is [0]. *)
Definition string_to_number (s : string) : number :=
  let t := trim_ws (chars s) in
  let based (radix : Z) (r : list ascii) :=
    match digits radix 0 0 r with
    | (_, O, _) => NaN
    | (v, _, []) => of_Z v
    | _ => NaN
    end in
  match t with
  | [] => of_Z 0
  | "0" :: "x" :: r | "0" :: "X" :: r => based 16%Z r
  | "0" :: "o" :: r | "0" :: "O" :: r => based 8%Z r
  | "0" :: "b" :: r | "0" :: "B" :: r => based 2%Z r
  | _ =>
      match signed_literal t with
      | Some (n, []) => n
      | _ => NaN
      end
  end.

Definition to_number (v : value) : number :=
  match v with
  | VUndef => NaN
  | VStr s => string_to_number s
  | VNum n => n
  end.

(** Truncation toward zero. *)
Definition trunc (q : Q) : Z :=
  if Qle_bool 0 q then Qfloor q else Qceiling q.

(** [parseInt] applied to a value: a string is parsed; a number is first
    printed and then parsed, which for the integers the controller passes
    (the defaults [1] and [15]) is the number itself and, for any finite
    number printed in positional notation, its integer part. *)
Definition parseInt_value (v : value) : number :=
  match v with
  | VUndef => NaN
  | VStr s => parseInt s
  | VNum (Fin q) => of_Z (trunc q)
  | VNum _ => NaN
  end.

(** *** Truthiness *)

Definition is_zero (q : Q) : bool := Qeq_bool q 0.

Definition truthy_number (n : number) : bool :=
  match n with
  | NaN => false
  | Fin q => negb (is_zero q)
  | PosInf | NegInf => true
  end.

Definition truthy_string (s : string) : bool :=
  match s with
  | EmptyString => false
  | String _ _ => true
  end.

(** A query parameter in a condition: absent and empty are falsy. *)
Definition truthy_param (p : option string) : bool :=
  match p with
  | Some s => truthy_string s
  | None => false
  end.

(** [n || d] on numbers. *)
Definition or_default (n d : number) : number :=
  if truthy_number n then n else d.

(** *** Arithmetic *)

Definition sign_pos (q : Q) : bool := Qle_bool 0 q && negb (is_zero q).

Definition sub (a b : number) : number :=
  match a, b with
  | NaN, _ | _, NaN => NaN
  | PosInf, PosInf | NegInf, NegInf => NaN
  | PosInf, _ | _, NegInf => PosInf
  | NegInf, _ | _, PosInf => NegInf
  | Fin x, Fin y => fin (x - y)
  end.

(** Product of an infinity of sign [pos] with the finite [q]. *)
Definition inf_times (pos : bool) (q : Q) : number :=
  if is_zero q then NaN
  else if Bool.eqb pos (sign_pos q) then PosInf else NegInf.

Definition mul (a b : number) : number :=
  match a, b with
  | NaN, _ | _, NaN => NaN
  | PosInf, PosInf | NegInf, NegInf => PosInf
  | PosInf, NegInf | NegInf, PosInf => NegInf
  | PosInf, Fin q | Fin q, PosInf => inf_times true q
  | NegInf, Fin q | Fin q, NegInf => inf_times false q
  | Fin x, Fin y => fin (x * y)
  end.

Definition div (a b : number) : number :=
  match a, b with
  | NaN, _ | _, NaN => NaN
  | (PosInf | NegInf), (PosInf | NegInf) => NaN
  | PosInf, Fin q => if is_zero q || sign_pos q then PosInf else NegInf
  | NegInf, Fin q => if is_zero q || sign_pos q then NegInf else PosInf
  | Fin _, (PosInf | NegInf) => of_Z 0
  | Fin x, Fin y =>
      if is_zero y then
        if is_zero x then NaN
        else if sign_pos x then PosInf else NegInf
      else fin (x / y)
  end.

(** [Math.ceil]. *)
Definition ceil (a : number) : number :=
  match a with
  | Fin q => of_Z (Qceiling q)
  | _ => a
  end.

(** *** Comparison of numbers *)

Definition eqb (a b : number) : bool :=
  match a, b with
  | Fin x, Fin y => Qeq_bool x y
  | PosInf, PosInf | NegInf, NegInf => true
  | _, _ => false
  end.

Definition leb (a b : number) : bool :=
  match a, b with
  | NaN, _ | _, NaN => false
  | NegInf, _ | _, PosInf => true
  | Fin x, Fin y => Qle_bool x y
  | _, _ => false
  end.

Definition ltb (a b : number) : bool := leb a b && negb (eqb a b).

End JS.

(* ================================================================== *)
(** ** Regular expressions *)
(* ================================================================== *)

(** [new RegExp (s, 'i')] checks the syntax of [s] in the controller (a
    malformed pattern throws a SyntaxError there); the store then matches
    the pattern, unanchored and ignoring case, against the field.

    Modelled fragment: pattern characters, [.], [^], [$], alternation,
    groups [( )] and [(?: )], the quantifiers [* + ?] (greedy or lazy),
    escaped syntax characters, the control escapes [\t \n \f \r] and the
    class escapes [\d \w \s] with their complements.  Character classes
    [[...]], braced quantifiers, look-around, named groups,
    back-references and the other escapes are [Unsupported].  Within the
    fragment the store's matcher reads [$] as the end of the subject or
    the position before a final line feed, and [.] as any character but
    the line feed. *)

Module Regex.

Inductive class : Type := Digit | Word | Space.

Inductive re : Type :=
| Empty
| Chr (c : ascii)
| Dot
| Class (negated : bool) (k : class)
| Bol
| Eol
| Cat (a b : re)
| Alt (a b : re)
| Star (a : re)
| Plus (a : re)
| Opt (a : re).

Inductive compiled : Type :=
| Rx (r : re)
| SyntaxError (reason : string)
| Unsupported.

(** *** Syntax *)

Inductive token : Type :=
| TOpen | TClose | TBar | TStar | TPlus | TQuest | TCaret | TDollar
| TDot | TBackslash | TBracket | TBrace | TLit.

Definition classify (c : ascii) : token :=
  match c with
  | "(" => TOpen
  | ")" => TClose
  | "|" => TBar
  | "*" => TStar
  | "+" => TPlus
  | "?" => TQuest
  | "^" => TCaret
  | "$" => TDollar
  | "." => TDot
  | "\" => TBackslash
  | "[" => TBracket
  | "{" => TBrace
  | _ => TLit
  end.

(** The term an escape [\e] stands for, inside the fragment. *)
Definition escape (e : ascii) : option re :=
  match e with
  | "d" => Some (Class false Digit)
  | "D" => Some (Class true Digit)
  | "w" => Some (Class false Word)
  | "W" => Some (Class true Word)
  | "s" => Some (Class false Space)
  | "S" => Some (Class true Space)
  | "t" => Some (Chr "009")
  | "n" => Some (Chr "010")
  | "f" => Some (Chr "012")
  | "r" => Some (Chr "013")
  | "^" | "$" | "\" | "." | "*" | "+" | "?" | "(" | ")"
  | "[" | "]" | "{" | "}" | "|" | "/" => Some (Chr e)
  | _ => None
  end.

(** A group being read: the alternatives already closed and the terms of
    the current one, both most recent first. *)
Record frame : Type := { alts : list re; terms : list re }.

Definition empty_frame : frame := {| alts := []; terms := [] |}.

Definition push (t : re) (f : frame) : frame :=
  {| alts := alts f; terms := t :: terms f |}.

Definition seq_re (ts : list re) : re :=
  fold_left (fun acc t => Cat t acc) ts Empty.

Definition close (f : frame) : re :=
  fold_left (fun acc a => Alt a acc) (alts f) (seq_re (terms f)).

Definition next_alt (f : frame) : frame :=
  {| alts := seq_re (terms f) :: alts f; terms := [] |}.

Definition quantify (k : token) (t : re) : re :=
  match k with
  | TStar => Star t
  | TPlus => Plus t
  | _ => Opt t
  end.

(** One pass over the pattern.  [cur] is the innermost open group,
    [stack] the enclosing ones, [rep] tells whether the last term may
    take a quantifier. *)
Fixpoint parse (cur : frame) (stack : list frame) (rep : bool)
  (s : list ascii) : compiled :=
  match s with
  | [] =>
      match stack with
      | [] => Rx (close cur)
      | _ :: _ => SyntaxError "Unterminated group"
      end
  | c :: rest =>
      match classify c with
      | TOpen =>
          match rest with
          | "?" :: ":" :: rest' => parse empty_frame (cur :: stack) false rest'
          | "?" :: _ => Unsupported
          | _ => parse empty_frame (cur :: stack) false rest
          end
      | TClose =>
          match stack with
          | [] => SyntaxError "Unmatched ')'"
          | parent :: stack' => parse (push (close cur) parent) stack' true rest
          end
      | TBar => parse (next_alt cur) stack false rest
      | (TStar | TPlus | TQuest) as k =>
          match rep, terms cur with
          | true, t :: ts =>
              let cur' := {| alts := alts cur; terms := quantify k t :: ts |} in
              match rest with
              | "?" :: rest' => parse cur' stack false rest'
              | _ => parse cur' stack false rest
              end
          | _, _ => SyntaxError "Nothing to repeat"
          end
      | TCaret => parse (push Bol cur) stack false rest
      | TDollar => parse (push Eol cur) stack false rest
      | TDot => parse (push Dot cur) stack true rest
      | TBackslash =>
          match rest with
          | [] => SyntaxError "\ at end of pattern"
          | e :: rest' =>
              match escape e with
              | Some t => parse (push t cur) stack true rest'
              | None => Unsupported
              end
          end
      | TBracket | TBrace => Unsupported
      | TLit => parse (push (Chr c) cur) stack true rest
      end
  end.

Definition compile (pattern : string) : compiled :=
  parse empty_frame [] false (chars pattern).

(** *** Matching *)

Definition upper (c : ascii) : ascii :=
  let n := nat_of_ascii c in
  if (97 <=? n)%nat && (n <=? 122)%nat then ascii_of_nat (n - 32) else c.

(** Equality of characters under the [i] flag. *)
Definition same_char (a b : ascii) : bool := Ascii.eqb (upper a) (upper b).

Definition in_class (k : class) (c : ascii) : bool :=
  let n := nat_of_ascii c in
  match k with
  | Digit => (48 <=? n)%nat && (n <=? 57)%nat
  | Word =>
      (48 <=? n)%nat && (n <=? 57)%nat || (65 <=? n)%nat && (n <=? 90)%nat
      || (97 <=? n)%nat && (n <=? 122)%nat || (n =? 95)%nat
  | Space => (9 <=? n)%nat && (n <=? 13)%nat || (n =? 32)%nat
  end.

Definition newline : ascii := "010".

(** A single-character term against the head of the input. *)
Definition one (p : ascii -> bool) (suf : list ascii) : list (list ascii) :=
  match suf with
  | h :: t => if p h then [t] else []
  | [] => []
  end.

(** Zero or more rounds of [step], each consuming at least one character
    (a round that consumes nothing adds no new position). *)
Fixpoint star_from (step : list ascii -> list (list ascii)) (fuel : nat)
  (suf : list ascii) : list (list ascii) :=
  suf ::
  match fuel with
  | O => []
  | S k =>
      flat_map (star_from step k)
        (filter (fun t => (List.length t <? List.length suf)%nat) (step suf))
  end.

(** [ends r n suf]: every way [r] can match a prefix of [suf], given as
    what is left of the input after the match; [n] is the length of the
    whole subject, so that [suf] is at its start iff [length suf = n]. *)
Fixpoint ends (r : re) (n : nat) (suf : list ascii) : list (list ascii) :=
  match r with
  | Empty => [suf]
  | Chr c => one (same_char c) suf
  | Dot => one (fun h => negb (Ascii.eqb h newline)) suf
  | Class negated k => one (fun h => xorb negated (in_class k h)) suf
  | Bol => if (List.length suf =? n)%nat then [suf] else []
  | Eol =>
      match suf with
      | [] => [suf]
      | [h] => if Ascii.eqb h newline then [suf] else []
      | _ => []
      end
  | Cat a b => flat_map (ends b n) (ends a n suf)
  | Alt a b => ends a n suf ++ ends b n suf
  | Star a => star_from (ends a n) (List.length suf) suf
  | Plus a =>
      flat_map (fun t => star_from (ends a n) (List.length t) t) (ends a n suf)
  | Opt a => suf :: ends a n suf
  end.

Fixpoint suffixes (s : list ascii) : list (list ascii) :=
  s :: match s with
       | [] => []
       | _ :: t => suffixes t
       end.

Definition nonempty {A : Type} (l : list A) : bool :=
  match l with
  | [] => false
  | _ :: _ => true
  end.

(** Unanchored search: the pattern matches somewhere in the subject. *)
Definition search (r : re) (subject : string) : bool :=
  let l := chars subject in
  existsb (fun suf => nonempty (ends r (List.length l) suf)) (suffixes l).

End Regex.

(* ================================================================== *)
(** ** The record store *)
(* ================================================================== *)

(** The collection of recipes behind [models/Recipe.js], with the query
    operators, cursor options and aggregation stages the controller uses.

    A store operation either fails as a whole or is answered from the
    documents of the collection, enumerated in an order of the store's
    choosing ([scan]); sorting is on the requested key only, so documents
    with equal keys come out in scan order. *)

Module Mongo.

(** [recipeSchema]: every attribute may be absent ([null]); a numeric
    attribute is a finite number or absent. *)
Record Recipe : Type := {
  cuisine : option string;
  title : option string;
  rating : option Q;
  prep_time : option Q;
  cook_time : option Q;
  total_time : option Q;
  description : option string;
  nutrients : option (list (string * string));
  serves : option string;
  Contient : option string;
  Country_State : option string;
  URL : option string;
  ingredients : list string;
  instructions : list string
}.

(** A field value. *)
Inductive bson : Type :=
| Missing
| Str (s : string)
| Num (q : Q).

(** A document flowing through a query: a recipe, possibly carrying the
    derived field [caloriesValue], or the output [{ total: n }] of a
    [$count] stage. *)
Inductive doc : Type :=
| Doc (r : Recipe) (caloriesValue : bson)
| Total (total : nat).

Definition plain (r : Recipe) : doc := Doc r Missing.

Inductive field : Type :=
| Fcuisine | Ftitle | Ftotal_time | Frating | FcaloriesValue.

Definition of_str (o : option string) : bson :=
  match o with
  | Some s => Str s
  | None => Missing
  end.

Definition of_num (o : option Q) : bson :=
  match o with
  | Some q => Num q
  | None => Missing
  end.

Definition get (f : field) (d : doc) : bson :=
  match d with
  | Doc r cv =>
      match f with
      | Fcuisine => of_str (cuisine r)
      | Ftitle => of_str (title r)
      | Ftotal_time => of_num (total_time r)
      | Frating => of_num (rating r)
      | FcaloriesValue => cv
      end
  | Total _ => Missing
  end.

(** *** Query predicates *)

Inductive cmp : Type := Gte | Lte | Gt | Lt.

(** What can be stored under a field name: [{ $regex: /r/i }],
    [{ $op: x }], a bare number [x] (equality), or [null]. *)
Inductive cond : Type :=
| Regex_i (r : Regex.re)
| Op (op : cmp) (x : JS.number)
| Equals (x : JS.number)
| IsNull.

Definition compare (op : cmp) (v x : JS.number) : bool :=
  match op with
  | Gte => JS.leb x v
  | Lte => JS.leb v x
  | Gt => JS.ltb x v
  | Lt => JS.ltb v x
  end.

(** A regular expression only matches strings, a numeric operand only
    numbers, [null] only a missing field. *)
Definition holds (c : cond) (v : bson) : bool :=
  match c, v with
  | Regex_i r, Str s => Regex.search r s
  | Op op x, Num q => compare op (JS.Fin q) x
  | Equals x, Num q => JS.eqb (JS.Fin q) x
  | IsNull, Missing => true
  | _, _ => false
  end.

(** The composite filter: the conditions set on the query object, each
    under its field name; a document matches when it satisfies all. *)
Definition query : Type := list (field * cond).

Definition matches (q : query) (d : doc) : bool :=
  forallb (fun fc => holds (snd fc) (get (fst fc) d)) q.

(** *** Failures *)

(** [Thrown msg]: an exception with message [msg] reaches the caller.
    [Unmodelled]: the input left the modelled fragment. *)
Inductive fault : Type :=
| Thrown (msg : string)
| Unmodelled.

Definition result (A : Type) : Type := (fault + A)%type.

(** *** Sorting on [{ rating: -1 }] *)

Definition rating_key (d : doc) : option Q :=
  match get Frating d with
  | Num q => Some q
  | _ => None
  end.

(** Order of sort keys: a missing rating is below every number. *)
Definition key_ltb (a b : option Q) : bool :=
  match a, b with
  | None, Some _ => true
  | Some x, Some y => Qle_bool x y && negb (Qeq_bool x y)
  | _, None => false
  end.

(** Descending insertion; [d] goes before the first document whose key
    is not above its own. *)
Fixpoint insert_desc (d : doc) (l : list doc) : list doc :=
  match l with
  | [] => [d]
  | h :: t =>
      if key_ltb (rating_key d) (rating_key h) then h :: insert_desc d t
      else d :: l
  end.

Definition sort_rating_desc (l : list doc) : list doc :=
  fold_right insert_desc [] l.

(** *** Cursor and stage arguments *)

Definition is_integer (q : Q) : bool := Qeq_bool q (inject_Z (Qfloor q)).

(** [find().skip(n)]: a non-negative integer; a negative one is rejected.
    What becomes of a value that is not an integer (NaN included) depends
    on the version of the store and is left unmodelled. *)
Definition find_skip_arg (n : JS.number) : result nat :=
  match n with
  | JS.Fin q =>
      if is_integer q then
        if Qle_bool 0 q then inr (Z.to_nat (Qfloor q))
        else inl (Thrown "skip value must be non-negative")
      else inl Unmodelled
  | _ => inl Unmodelled
  end.

(** [find().limit(n)]: an integer; [0] means no limit ([None]) and a
    negative [n] asks for [-n] documents.  Other values are unmodelled,
    as for the skip. *)
Definition find_limit_arg (n : JS.number) : result (option nat) :=
  match n with
  | JS.Fin q =>
      if is_integer q then
        inr (if JS.is_zero q then None else Some (Z.abs_nat (Qfloor q)))
      else inl Unmodelled
  | _ => inl Unmodelled
  end.

(** [$skip]: a non-negative integer, anything else is rejected. *)
Definition skip_stage_arg (n : JS.number) : result nat :=
  match n with
  | JS.Fin q =>
      if is_integer q && Qle_bool 0 q then inr (Z.to_nat (Qfloor q))
      else inl (Thrown "invalid argument to $skip stage")
  | _ => inl (Thrown "invalid argument to $skip stage")
  end.

(** [$limit]: a positive integer, anything else is rejected. *)
Definition limit_stage_arg (n : JS.number) : result nat :=
  match n with
  | JS.Fin q =>
      if is_integer q && JS.sign_pos q then inr (Z.to_nat (Qfloor q))
      else inl (Thrown "invalid argument to $limit stage")
  | _ => inl (Thrown "invalid argument to $limit stage")
  end.

Definition take (o : option nat) (l : list doc) : list doc :=
  match o with
  | Some n => firstn n l
  | None => l
  end.

(** *** [countDocuments] and [find] *)

(** Mongoose casts the filter of [find] and [countDocuments] to the
    schema before sending it: on the Number paths a NaN operand fails the
    cast, and the operation is rejected with a CastError.  (The stages of
    [aggregate] are not cast.) *)
Definition cast_cond (f : field) (c : cond) : option fault :=
  match f, c with
  | (Ftotal_time | Frating), (Op _ JS.NaN | Equals JS.NaN) =>
      Some (Thrown "Cast to Number failed for value 'NaN'")
  | _, _ => None
  end.

Fixpoint cast_error (q : query) : option fault :=
  match q with
  | [] => None
  | (f, c) :: q' =>
      match cast_cond f c with
      | Some e => Some e
      | None => cast_error q'
      end
  end.

Definition countDocuments (q : query) (scan : list Recipe) : result nat :=
  match cast_error q with
  | Some e => inl e
  | None => inr (List.length (filter (matches q) (map plain scan)))
  end.

(** [find(q).sort({ rating: -1 }).skip(s).limit(l).lean()]. *)
Definition find_sorted (q : query) (s l : JS.number) (scan : list Recipe)
  : result (list doc) :=
  match cast_error q with
  | Some e => inl e
  | None =>
      match find_skip_arg s with
      | inl e => inl e
      | inr sk =>
          match find_limit_arg l with
          | inl e => inl e
          | inr lim =>
              inr (take lim
                     (skipn sk
                        (sort_rating_desc (filter (matches q) (map plain scan)))))
          end
      end
  end.

(** *** Aggregation expressions *)

Inductive expr : Type :=
| Literal (s : string)
| Nutrient (key : string)
| IfNull (e fallback : expr)
| ReplaceAll (input : expr) (find replacement : string)
| Trim (input : expr)
| ToDouble (input : expr).

Fixpoint assoc (k : string) (m : list (string * string)) : option string :=
  match m with
  | [] => None
  | (k', v) :: m' => if String.eqb k k' then Some v else assoc k m'
  end.

(** The field path [$nutrients.key]. *)
Definition nutrient (key : string) (d : doc) : bson :=
  match d with
  | Doc r _ =>
      match nutrients r with
      | Some m => of_str (assoc key m)
      | None => Missing
      end
  | Total _ => Missing
  end.

(** [$replaceAll]: every occurrence of [pat], leftmost first and without
    overlap, is replaced.  [pending] counts the characters of the current
    occurrence still to be dropped.  The pattern is not empty (the
    controller passes [' kcal']). *)
Fixpoint replace_from (pat repl : list ascii) (pending : nat)
  (s : list ascii) : list ascii :=
  match s with
  | [] => []
  | c :: rest =>
      match pending with
      | S k => replace_from pat repl k rest
      | O =>
          match JS.starts_with pat s with
          | Some _ => repl ++ replace_from pat repl (List.length pat - 1) rest
          | None => c :: replace_from pat repl 0 rest
          end
      end
  end.

Definition replace_all (s pat repl : string) : string :=
  match pat with
  | EmptyString => s
  | String _ _ => text (replace_from (chars pat) (chars repl) 0 (chars s))
  end.

(** [$trim] with the default character set, ASCII range: NUL and the
    white space characters. *)
Definition trim_char (c : ascii) : bool :=
  JS.is_ws c || (JS.code c =? 0)%Z.

Fixpoint drop_while (p : ascii -> bool) (s : list ascii) : list ascii :=
  match s with
  | c :: rest => if p c then drop_while p rest else s
  | [] => []
  end.

Definition trim (s : string) : string :=
  text (rev (drop_while trim_char (rev (drop_while trim_char (chars s))))).

(** [p] is a prefix of [s], ignoring case. *)
Fixpoint starts_ci (p s : list ascii) : bool :=
  match p, s with
  | [], _ => true
  | a :: p', b :: s' => Regex.same_char a b && starts_ci p' s'
  | _ :: _, [] => false
  end.

(** [$toDouble] of a string.  A decimal numeral (sign, digits, fraction,
    exponent) spanning the whole string converts; the spellings of
    infinities, of NaN and of hexadecimal numerals, and a string that
    starts with white space, are left unmodelled; anything else is a
    conversion failure, which aborts the pipeline. *)
Definition to_double (s : string) : result Q :=
  let l := chars s in
  let unsigned := match l with
                  | "-" :: r | "+" :: r => r
                  | _ => l
                  end in
  if starts_ci (chars "inf") unsigned || starts_ci (chars "nan") unsigned
     || starts_ci (chars "0x") unsigned
     || match l with
        | c :: _ => JS.is_ws c
        | [] => false
        end
  then inl Unmodelled
  else
    match JS.signed_literal l with
    | Some (JS.Fin q, []) => inr q
    | _ => inl (Thrown ("Failed to parse number '" ++ s ++ "' in $convert"))
    end.

Definition type_error (op : string) : fault :=
  Thrown (op ++ " requires a string input").

Fixpoint eval (e : expr) (d : doc) : result bson :=
  match e with
  | Literal s => inr (Str s)
  | Nutrient key => inr (nutrient key d)
  | IfNull e1 e2 =>
      match eval e1 d with
      | inr Missing => eval e2 d
      | other => other
      end
  | ReplaceAll input pat repl =>
      match eval input d with
      | inr (Str s) => inr (Str (replace_all s pat repl))
      | inr Missing => inr Missing
      | inr (Num _) => inl (type_error "$replaceAll")
      | inl f => inl f
      end
  | Trim input =>
      match eval input d with
      | inr (Str s) => inr (Str (trim s))
      | inr Missing => inr Missing
      | inr (Num _) => inl (type_error "$trim")
      | inl f => inl f
      end
  | ToDouble input =>
      match eval input d with
      | inr (Str s) =>
          match to_double s with
          | inr q => inr (Num q)
          | inl f => inl f
          end
      | other => other
      end
  end.

(** *** Aggregation stages *)

Inductive stage : Type :=
| Match_ (q : query)
| AddFields_caloriesValue (e : expr)
| Project_caloriesValue_0
| Count_total
| Sort_rating_desc
| Skip_ (n : JS.number)
| Limit_ (n : JS.number).

Definition set_caloriesValue (e : expr) (d : doc) : result doc :=
  match d with
  | Doc r _ =>
      match eval e d with
      | inr v => inr (Doc r v)
      | inl f => inl f
      end
  | Total n =>
      match eval e d with
      | inr _ => inr (Total n)
      | inl f => inl f
      end
  end.

Definition unset_caloriesValue (d : doc) : doc :=
  match d with
  | Doc r _ => Doc r Missing
  | Total n => Total n
  end.

(** All-or-nothing map: the first failure aborts. *)
Fixpoint map_result {A B : Type} (f : A -> result B) (l : list A)
  : result (list B) :=
  match l with
  | [] => inr []
  | a :: l' =>
      match f a with
      | inl e => inl e
      | inr b =>
          match map_result f l' with
          | inl e => inl e
          | inr bs => inr (b :: bs)
          end
      end
  end.

Definition run_stage (s : stage) (docs : list doc) : result (list doc) :=
  match s with
  | Match_ q => inr (filter (matches q) docs)
  | AddFields_caloriesValue e => map_result (set_caloriesValue e) docs
  | Project_caloriesValue_0 => inr (map unset_caloriesValue docs)
  | Count_total =>
      inr (match docs with
           | [] => []
           | _ :: _ => [Total (List.length docs)]
           end)
  | Sort_rating_desc => inr (sort_rating_desc docs)
  | Skip_ n =>
      match skip_stage_arg n with
      | inl e => inl e
      | inr k => inr (skipn k docs)
      end
  | Limit_ n =>
      match limit_stage_arg n with
      | inl e => inl e
      | inr k => inr (firstn k docs)
      end
  end.

Fixpoint run_pipeline (p : list stage) (docs : list doc) : result (list doc) :=
  match p with
  | [] => inr docs
  | s :: p' =>
      match run_stage s docs with
      | inl e => inl e
      | inr docs' => run_pipeline p' docs'
      end
  end.

Definition aggregate (p : list stage) (scan : list Recipe) : result (list doc) :=
  run_pipeline p (map plain scan).

(** *** Round trips *)

(** What the store does with the [n]-th operation of a request: serve it
    from its documents in the order [scan], or fail with an error. *)
Inductive outcome : Type :=
| Served (scan : list Recipe)
| Down (msg : string).

Definition world : Type := nat -> outcome.

(** The operations a request issued, for reference. *)
Inductive operation : Type :=
| OpFind (q : query) (skip limit : JS.number)
| OpCountDocuments (q : query)
| OpAggregate (p : list stage).

(** Computations that issue store operations and may fail: the log of
    operations issued so far is threaded through. *)
Definition M (A : Type) : Type := list operation -> result A * list operation.

Definition ret {A : Type} (a : A) : M A := fun log => (inr a, log).

Definition bind {A B : Type} (m : M A) (k : A -> M B) : M B :=
  fun log =>
    match m log with
    | (inr a, log') => k a log'
    | (inl e, log') => (inl e, log')
    end.

Definition throw {A : Type} (e : fault) : M A := fun log => (inl e, log).

Definition lift {A : Type} (r : result A) : M A := fun log => (r, log).

(** The store answering one operation. *)
Definition serve {A : Type} (o : outcome) (run : list Recipe -> result A)
  : result A :=
  match o with
  | Down msg => inl (Thrown msg)
  | Served scan => run scan
  end.

(** [await] of a store operation. *)
Definition await {A : Type} (w : world) (o : operation)
  (run : list Recipe -> result A) : M A :=
  fun log => (serve (w (List.length log)) run, log ++ [o]).

End Mongo.

(* ================================================================== *)
(** ** The controller *)
(* ================================================================== *)

Module Controller.

Import Mongo.

(** [req.query]: each parameter is a string or absent. *)
Module Req.
Record query : Type := {
  calories : option string;
  title : option string;
  cuisine : option string;
  total_time : option string;
  rating : option string;
  page : option string;
  limit : option string
}.
End Req.

(** The JSON body of a success response. *)
Record body : Type := {
  count : nat;
  total : nat;
  page : JS.number;
  totalPages : JS.number;
  data : list doc
}.

(** [res.json ({ success: true, ... })], or
    [res.status (500).json ({ success: false, message, error })]. *)
Inductive response : Type :=
| Ok200 (b : body)
| Err500 (message error : string).


Definition success (r : response) : bool :=
  match r with
  | Ok200 _ => true
  | Err500 _ _ => false
  end.

(** *** [parseComparisonQuery] *)

(** Its result: [null], an operator object, or a bare number. *)
Inductive comparison : Type :=
| Null
| Object (op : cmp) (x : JS.number)
| Number (x : JS.number).

Fixpoint substring (start : nat) (s : string) : string :=
  match start, s with
  | O, _ => s
  | S k, String _ rest => substring k rest
  | S _, EmptyString => EmptyString
  end.

Fixpoint startsWith (s p : string) {struct p} : bool :=
  match p with
  | EmptyString => true
  | String a p' =>
      match s with
      | String b s' => Ascii.eqb a b && startsWith s' p'
      | EmptyString => false
      end
  end.

Definition parseComparisonQuery (value : option string) : comparison :=
  match value with
  | None => Null
  | Some value =>
      if negb (JS.truthy_string value) then Null
      else if startsWith value ">=" then
        Object Gte (JS.parseFloat (substring 2 value))
      else if startsWith value "<=" then
        Object Lte (JS.parseFloat (substring 2 value))
      else if startsWith value ">" then
        Object Gt (JS.parseFloat (substring 1 value))
      else if startsWith value "<" then
        Object Lt (JS.parseFloat (substring 1 value))
      else if startsWith value "==" then
        Number (JS.parseFloat (substring 2 value))
      else
        Number (JS.parseFloat value)
  end.

(** Truthiness of a result, as tested by [if (timeQuery)] and the like. *)
Definition truthy (c : comparison) : bool :=
  match c with
  | Null => false
  | Object _ _ => true
  | Number x => JS.truthy_number x
  end.

(** The result as a condition once assigned into a filter. *)
Definition as_cond (c : comparison) : cond :=
  match c with
  | Null => IsNull
  | Object op x => Op op x
  | Number x => Equals x
  end.

(** *** Building the composite filter *)

(** [new RegExp (s, 'i')]. *)
Definition new_RegExp_i (s : string) : M Regex.re :=
  match Regex.compile s with
  | Regex.Rx r => ret r
  | Regex.SyntaxError reason =>
      throw (Thrown ("Invalid regular expression: /" ++ s ++ "/: " ++ reason))
  | Regex.Unsupported => throw Unmodelled
  end.

Notation "x <- m ;; k" := (bind m (fun x => k))
  (at level 61, m at next level, right associativity).

(** [if (p) { query.f = { $regex: new RegExp (p, 'i') }; }] *)
Definition text_filter (f : field) (p : option string) (q : query) : M query :=
  match p with
  | Some s =>
      if JS.truthy_string s then
        r <- new_RegExp_i s ;;
        ret (q ++ [(f, Regex_i r)])
      else ret q
  | None => ret q
  end.

(** [if (p) { const c = parseComparisonQuery (p); if (c) { query.f = c; } }] *)
Definition comparison_filter (f : field) (p : option string) (q : query) : query :=
  if JS.truthy_param p then
    let c := parseComparisonQuery p in
    if truthy c then q ++ [(f, as_cond c)] else q
  else q.

(** Lines 42-68 of [searchRecipes]. *)
Definition build_query (req : Req.query) : M query :=
  query <- text_filter Fcuisine (Req.cuisine req) [] ;;
  query <- text_filter Ftitle (Req.title req) query ;;
  let query := comparison_filter Ftotal_time (Req.total_time req) query in
  let query := comparison_filter Frating (Req.rating req) query in
  ret query.

(** *** Store calls *)

Definition Recipe_find (w : world) (q : query) (skip limit : JS.number)
  : M (list doc) :=
  await w (OpFind q skip limit) (find_sorted q skip limit).

Definition Recipe_countDocuments (w : world) (q : query) : M nat :=
  await w (OpCountDocuments q) (countDocuments q).

Definition Recipe_aggregate (w : world) (p : list stage) : M (list doc) :=
  await w (OpAggregate p) (aggregate p).

(** *** [getRecipes] *)

(** [req.query.p], possibly [undefined]. *)
Definition param (p : option string) : JS.value :=
  match p with
  | Some s => JS.VStr s
  | None => JS.VUndef
  end.

Definition getRecipes_try (w : world) (req : Req.query) : M body :=
  let page := JS.or_default (JS.parseInt_value (param (Req.page req))) (JS.of_Z 1) in
  let limit := JS.or_default (JS.parseInt_value (param (Req.limit req))) (JS.of_Z 10) in
  let skip := JS.mul (JS.sub page (JS.of_Z 1)) limit in
  recipes <- Recipe_find w [] skip limit ;;
  total <- Recipe_countDocuments w [] ;;
  ret {| count := List.length recipes;
         total := total;
         page := page;
         totalPages := JS.ceil (JS.div (JS.of_nat total) limit);
         data := recipes |}.

(** *** [searchRecipes] *)

(** The derivation of [caloriesValue] (lines 82-94). *)
Definition caloriesValue_expr : expr :=
  ToDouble (Trim (ReplaceAll (IfNull (Nutrient "calories") (Literal "0"))
                             " kcal" "")).

Definition aggregationPipeline (query : query) (caloriesQuery : comparison)
  : list stage :=
  [ Match_ query;
    AddFields_caloriesValue caloriesValue_expr;
    Match_ [(FcaloriesValue, as_cond caloriesQuery)];
    Project_caloriesValue_0 ].

(** [countResult.length > 0 ? countResult[0].total : 0]; the pipeline ends
    in [$count], so a first document is a [Total]. *)
Definition count_of (countResult : list doc) : nat :=
  match countResult with
  | Total n :: _ => n
  | _ => 0
  end.

(** A destructuring default, [{ p = d } = req.query]: it applies when the
    parameter is absent. *)
Definition param_or (p : option string) (d : Z) : JS.value :=
  match p with
  | Some s => JS.VStr s
  | None => JS.VNum (JS.of_Z d)
  end.

Definition searchRecipes_try (w : world) (req : Req.query) : M body :=
  let page := param_or (Req.page req) 1 in
  let limit := param_or (Req.limit req) 15 in
  query <- build_query req ;;
  let skip :=
    JS.mul (JS.sub (JS.to_number page) (JS.of_Z 1)) (JS.to_number limit) in
  let caloriesQuery := parseComparisonQuery (Req.calories req) in
  if JS.truthy_param (Req.calories req) && truthy caloriesQuery then
    let pipeline := aggregationPipeline query caloriesQuery in
    countResult <- Recipe_aggregate w (pipeline ++ [Count_total]) ;;
    let total := count_of countResult in
    recipes <- Recipe_aggregate w
                 (pipeline ++ [Sort_rating_desc; Skip_ skip;
                               Limit_ (JS.parseInt_value limit)]) ;;
    ret {| count := List.length recipes;
           total := total;
           page := JS.parseInt_value page;
           totalPages := JS.ceil (JS.div (JS.of_nat total) (JS.to_number limit));
           data := recipes |}
  else
    total <- Recipe_countDocuments w query ;;
    recipes <- Recipe_find w query skip (JS.parseInt_value limit) ;;
    ret {| count := List.length recipes;
           total := total;
           page := JS.parseInt_value page;
           totalPages := JS.ceil (JS.div (JS.of_nat total) (JS.to_number limit));
           data := recipes |}.

(** *** The request boundary: [try { ... } catch (error) { ... }] *)

Definition answer (r : result body) : option response :=
  match r with
  | inr b => Some (Ok200 b)
  | inl (Thrown msg) => Some (Err500 "Server Error" msg)
  | inl Unmodelled => None
  end.

Definition respond (m : M body) : option response * list operation :=
  let '(r, log) := m [] in (answer r, log).

Definition getRecipes (w : world) (req : Req.query) : option response :=
  fst (respond (getRecipes_try w req)).

Definition searchRecipes (w : world) (req : Req.query) : option response :=
  fst (respond (searchRecipes_try w req)).

(** The store operations a request issues, in order. *)
Definition getRecipes_log (w : world) (req : Req.query) : list operation :=
  snd (respond (getRecipes_try w req)).

Definition searchRecipes_log (w : world) (req : Req.query) : list operation :=
  snd (respond (searchRecipes_try w req)).

End Controller.

(* ================================================================== *)
(** ** Vocabulary of the properties *)
(* ================================================================== *)

Module Props.

Import Mongo Controller.

Local Open Scope string_scope.

(** The two execution paths of a search, read off the store operations:
    Path A issues [countDocuments]/[find], Path B issues [aggregate]. *)
Inductive path : Type := PathA | PathB.

Definition path_of (o : operation) : path :=
  match o with
  | OpAggregate _ => PathB
  | OpFind _ _ _ | OpCountDocuments _ => PathA
  end.

(** The path a log of operations belongs to, if it has operations and
    they all belong to the same one. *)
Definition path_taken (log : list operation) : option path :=
  match log with
  | [] => None
  | o :: rest =>
      if forallb (fun o' => match path_of o, path_of o' with
                            | PathA, PathA | PathB, PathB => true
                            | _, _ => false
                            end) rest
      then Some (path_of o) else None
  end.

(** The store holds exactly [docs]: whenever it serves an operation, it
    enumerates these documents, in some order. *)
Definition holding (w : world) (docs : list Recipe) : Prop :=
  forall n scan, w n = Served scan -> Permutation scan docs.

(** A store that serves every operation from [docs], in this order. *)
Definition serving (docs : list Recipe) : world := fun _ => Served docs.

(** Containment of [needle] in [hay] as a substring, ignoring the case of
    letters. *)
Definition contains_ci (needle hay : string) : Prop :=
  exists pre post,
    map Regex.upper (chars hay)
    = (pre ++ map Regex.upper (chars needle) ++ post)%list.

(** Text without regular-expression syntax: every character stands for
    itself in a pattern. *)
Definition literal_char (c : ascii) : bool :=
  match Regex.classify c with
  | Regex.TLit => true
  | _ => false
  end.

Definition literal_text (s : string) : bool := forallb literal_char (chars s).

(** The pattern a literal text stands for: its characters in sequence. *)
Definition lit_re (p : list ascii) : Regex.re :=
  fold_right (fun c r => Regex.Cat (Regex.Chr c) r) Regex.Empty p.

(** [p] is a prefix of [s] up to case: what follows it in [s]. *)
Fixpoint strip_ci (p s : list ascii) {struct p} : option (list ascii) :=
  match p with
  | [] => Some s
  | a :: p' =>
      match s with
      | b :: s' => if Regex.same_char a b then strip_ci p' s' else None
      | [] => None
      end
  end.

(** The parser produced something to compare with: an operator predicate
    or a bare number, as opposed to [null] or a bare [NaN]. *)
Definition usable (c : comparison) : bool :=
  match c with
  | Null => false
  | Object _ _ => true
  | Number JS.NaN => false
  | Number _ => true
  end.

(** The parser produced the bare number zero. *)
Definition bare_zero (c : comparison) : bool :=
  match c with
  | Number (JS.Fin q) => JS.is_zero q
  | _ => false
  end.

(** Sort keys are equal: both missing, or equal numbers. *)
Definition same_key (a b : option Q) : bool :=
  negb (key_ltb a b) && negb (key_ltb b a).

(** No two of the keys are equal. *)
Fixpoint distinct_keys (l : list (option Q)) : bool :=
  match l with
  | [] => true
  | k :: l' =>
      forallb (fun k' => negb (same_key k k')) l' && distinct_keys l'
  end.

(** No two of the recipes have the same rating (two missing ratings count
    as the same). *)
Definition distinct_ratings (l : list Recipe) : bool :=
  distinct_keys (map rating l).

(** The document a successful [$addFields] turns [d] into. *)
Definition with_caloriesValue (e : expr) (d : doc) : doc :=
  match set_caloriesValue e d with
  | inr d' => d'
  | inl _ => d
  end.

(** A request with no parameter at all. *)
Definition no_params : Req.query :=
  {| Req.calories := None; Req.title := None; Req.cuisine := None;
     Req.total_time := None; Req.rating := None;
     Req.page := None; Req.limit := None |}.

Definition with_title (s : string) : Req.query :=
  {| Req.calories := None; Req.title := Some s; Req.cuisine := None;
     Req.total_time := None; Req.rating := None;
     Req.page := None; Req.limit := None |}.

Definition with_cuisine (s : string) : Req.query :=
  {| Req.calories := None; Req.title := None; Req.cuisine := Some s;
     Req.total_time := None; Req.rating := None;
     Req.page := None; Req.limit := None |}.

Definition with_rating (s : string) : Req.query :=
  {| Req.calories := None; Req.title := None; Req.cuisine := None;
     Req.total_time := None; Req.rating := Some s;
     Req.page := None; Req.limit := None |}.

Definition with_calories (s : string) : Req.query :=
  {| Req.calories := Some s; Req.title := None; Req.cuisine := None;
     Req.total_time := None; Req.rating := None;
     Req.page := None; Req.limit := None |}.

Definition with_page_limit (p l : option string) : Req.query :=
  {| Req.calories := None; Req.title := None; Req.cuisine := None;
     Req.total_time := None; Req.rating := None;
     Req.page := p; Req.limit := l |}.

(** The request without its title (respectively cuisine) parameter. *)
Definition without_title (req : Req.query) : Req.query :=
  {| Req.calories := Req.calories req; Req.title := None;
     Req.cuisine := Req.cuisine req;
     Req.total_time := Req.total_time req; Req.rating := Req.rating req;
     Req.page := Req.page req; Req.limit := Req.limit req |}.

Definition without_cuisine (req : Req.query) : Req.query :=
  {| Req.calories := Req.calories req; Req.title := Req.title req;
     Req.cuisine := None;
     Req.total_time := Req.total_time req; Req.rating := Req.rating req;
     Req.page := Req.page req; Req.limit := Req.limit req |}.



(** [title=pie&rating=>=4.5] *)
Definition pie_rated_request : Req.query :=
  {| Req.calories := None; Req.title := Some "pie"; Req.cuisine := None;
     Req.total_time := None; Req.rating := Some ">=4.5";
     Req.page := None; Req.limit := None |}.

(** A recipe with the attributes the filters look at. *)
Definition recipe (t : option string) (r tt : option Q)
  (n : option (list (string * string))) : Recipe :=
  {| cuisine := None; title := t; rating := r;
     prep_time := None; cook_time := None; total_time := tt;
     description := None; nutrients := n; serves := None;
     Contient := None; Country_State := None; URL := None;
     ingredients := []; instructions := [] |}.

(** The records of the combined-filter scenario. *)
Definition recipe_A : Recipe :=
  recipe (Some "A") (Some (48 # 10)) (Some 35%Q) (Some [("calories", "380 kcal")]).
Definition recipe_B : Recipe :=
  recipe (Some "B") (Some (42 # 10)) (Some 50%Q) (Some [("calories", "600 kcal")]).
Definition recipe_C : Recipe :=
  recipe (Some "C") (Some (49 # 10)) (Some 20%Q) None.
Definition recipe_C_none : Recipe :=
  recipe (Some "C") (Some (49 # 10)) (Some 20%Q) (Some [("calories", "none")]).

(** [rating=>=4.5&total_time=<=40&calories=<=400] *)
Definition combined_request : Req.query :=
  {| Req.calories := Some "<=400"; Req.title := None; Req.cuisine := None;
     Req.total_time := Some "<=40"; Req.rating := Some ">=4.5";
     Req.page := None; Req.limit := None |}.

Definition titled (t : string) : Recipe := recipe (Some t) None None None.
Definition untitled : Recipe := recipe None None None None.
Definition rated (t : string) (r : Q) : Recipe :=
  recipe (Some t) (Some r) None None.

(** What a search keeps of the documents it is served, before sorting and
    paging: on the aggregation path the output of the four stages of
    [aggregationPipeline], otherwise the documents matching the filter. *)
Definition reduced (q : query) (c : comparison) (docs : list doc) : list doc :=
  map unset_caloriesValue
    (filter (matches [(FcaloriesValue, as_cond c)])
       (map (with_caloriesValue caloriesValue_expr)
          (filter (matches q) docs))).

Definition selected (q : query) (c : comparison) (scan : list Recipe)
  : list doc :=
  if truthy c then reduced q c (map plain scan)
  else filter (matches q) (map plain scan).

(** The offset and the page size a search asks the store for, as the
    store reads them on the path taken. *)
Definition page_skip (c : comparison) (s : JS.number) : result nat :=
  if truthy c then skip_stage_arg s else find_skip_arg s.

Definition page_limit (c : comparison) (l : JS.number) : result (option nat) :=
  if truthy c then
    match limit_stage_arg l with
    | inr k => inr (Some k)
    | inl e => inl e
    end
  else find_limit_arg l.

(** [(page - 1) * limit] in [searchRecipes]. *)
Definition search_skip (req : Req.query) : JS.number :=
  JS.mul (JS.sub (JS.to_number (param_or (Req.page req) 1)) (JS.of_Z 1))
         (JS.to_number (param_or (Req.limit req) 15)).

(** [page] and [limit] in [getRecipes]. *)
Definition listing_page (req : Req.query) : JS.number :=
  JS.or_default (JS.parseInt_value (param (Req.page req))) (JS.of_Z 1).

Definition listing_limit (req : Req.query) : JS.number :=
  JS.or_default (JS.parseInt_value (param (Req.limit req))) (JS.of_Z 10).


(** Two records with the same rating, and a request for one record. *)
Definition tie_X : Recipe := rated "X" 5.
Definition tie_Y : Recipe := rated "Y" 5.
Definition first_of_one : Req.query := with_page_limit None (Some "1").


End Props.

(* ================================================================== *)
(** ** The bulk loader *)
(* ================================================================== *)

(** [scripts/importData.js]: the sanitising of the records read from the
    JSON file and their grouping into the batches handed to
    [Recipe.insertMany]. *)

Module Importer.

Local Open Scope string_scope.

#[local] Set Warnings "-register-all".

(** A value as [JSON.parse] yields one (with [undefined] for a missing
    property, and [NaN] and the infinities among the numbers, which
    [isNaNValue] provides for).  The members of an object are its
    properties, one per key. *)
Inductive json : Type :=
| JUndefined
| JNull
| JBool (b : bool)
| JNum (n : JS.number)
| JStr (s : string)
| JArr (items : list json)
| JObj (members : list (string * json)).

Definition isNaN (n : JS.number) : bool :=
  match n with
  | JS.NaN => true
  | _ => false
  end.

(** Whether converting [v] to a primitive throws a TypeError.  An object
    is converted through [valueOf], which for an object read from JSON
    returns the object itself, and through [toString]: the inherited
    method gives ["[object Object]"], but an own property [toString] (from
    JSON, so never a function) hides it, and no conversion is left.  An
    array is converted through the join of its elements, which converts
    each element other than [null] to a string in the same way. *)
Fixpoint throws (v : json) : bool :=
  match v with
  | JObj members => existsb (fun kv => String.eqb (fst kv) "toString") members
  | JArr items => existsb throws items
  | _ => false
  end.

(** The value of [Number (value)] when the conversion completes.  An
    object converts through its string ["[object Object]"], an array
    through the join of its elements: no element gives [0], two or more
    give a string with a comma, one gives what that element reads as
    ([null] and [undefined] as the empty string, a number as its own
    value, since printing and reading back a number returns it). *)
Fixpoint ToNumber (v : json) : JS.number :=
  match v with
  | JUndefined => JS.NaN
  | JNull => JS.of_Z 0
  | JBool b => JS.of_Z (if b then 1 else 0)
  | JNum n => n
  | JStr s => JS.string_to_number s
  | JArr [] => JS.of_Z 0
  | JArr [e] =>
      match e with
      | JUndefined | JNull => JS.of_Z 0
      | JBool _ | JObj _ => JS.NaN
      | JNum _ | JStr _ | JArr _ => ToNumber e
      end
  | JArr (_ :: _ :: _) => JS.NaN
  | JObj _ => JS.NaN
  end.

(** [Number (value)]; [None] when it throws. *)
Definition Number (v : json) : option JS.number :=
  if throws v then None else Some (ToNumber v).

(** [value === 'NaN' || (typeof value === 'number' && isNaN (value))
     || value === null || value === undefined] *)
Definition isNaNValue (value : json) : bool :=
  match value with
  | JStr s => String.eqb s "NaN"
  | JNum n => isNaN n
  | JNull | JUndefined => true
  | _ => false
  end.

(** [sanitizeNumericField]; [None] when [Number] throws. *)
Definition sanitizeNumericField (value : json) : option json :=
  if isNaNValue value then Some JNull
  else
    match Number value with
    | Some num => Some (if isNaN num then JNull else JNum num)
    | None => None
    end.

Definition truthy (v : json) : bool :=
  match v with
  | JUndefined | JNull => false
  | JBool b => b
  | JNum n => JS.truthy_number n
  | JStr s => JS.truthy_string s
  | JArr _ | JObj _ => true
  end.

(** [v || null] *)
Definition or_null (v : json) : json := if truthy v then v else JNull.

Definition isArray (v : json) : bool :=
  match v with
  | JArr _ => true
  | _ => false
  end.

Fixpoint lookup (name : string) (members : list (string * json)) : json :=
  match members with
  | [] => JUndefined
  | (k, v) :: rest => if String.eqb name k then v else lookup name rest
  end.

(** [recipe.name] for one of the names read by [processRecipeData]: a
    property of an object, [undefined] on an array or a primitive, and a
    TypeError on [null] and [undefined]. *)
Definition prop (recipe : json) (name : string) : option json :=
  match recipe with
  | JObj members => Some (lookup name members)
  | JNull | JUndefined => None
  | _ => Some JUndefined
  end.

(** The object built by [processRecipeData]. *)
Record processed : Type := {
  Contient : json;
  Country_State : json;
  cuisine : json;
  title : json;
  URL : json;
  rating : json;
  total_time : json;
  prep_time : json;
  cook_time : json;
  description : json;
  ingredients : json;
  instructions : json;
  nutrients : json;
  serves : json
}.

(** [processRecipeData]; [None] when it throws: reading a property of
    [null], or converting a numeric field. *)
Definition processRecipeData (recipe : json) : option processed :=
  match recipe with
  | JNull | JUndefined => None
  | _ =>
      let get name := match prop recipe name with
                      | Some v => v
                      | None => JUndefined
                      end in
      match sanitizeNumericField (get "rating"),
            sanitizeNumericField (get "total_time"),
            sanitizeNumericField (get "prep_time"),
            sanitizeNumericField (get "cook_time") with
      | Some rating, Some total_time, Some prep_time, Some cook_time =>
          Some {| Contient := or_null (get "Contient");
                  Country_State := or_null (get "Country_State");
                  cuisine := or_null (get "cuisine");
                  title := or_null (get "title");
                  URL := or_null (get "URL");
                  rating := rating;
                  total_time := total_time;
                  prep_time := prep_time;
                  cook_time := cook_time;
                  description := or_null (get "description");
                  ingredients := if isArray (get "ingredients")
                                 then get "ingredients" else JArr [];
                  instructions := if isArray (get "instructions")
                                  then get "instructions" else JArr [];
                  nutrients := or_null (get "nutrients");
                  serves := or_null (get "serves") |}
      | _, _, _, _ => None
      end
  end.

Definition is_null (v : json) : bool :=
  match v with
  | JNull => true
  | _ => false
  end.

Definition batchSize : nat := 100.

(** [for (let i = 0; i < validRecipes.length; i += batchSize)
       batch = validRecipes.slice (i, i + batchSize)]:
    the batches, in the order they are inserted.  [fuel] bounds the number
    of rounds. *)
Fixpoint batches_from {A : Type} (fuel i : nat) (validRecipes : list A)
  : list (list A) :=
  match fuel with
  | O => []
  | S fuel' =>
      if (i <? List.length validRecipes)%nat then
        firstn batchSize (skipn i validRecipes)
        :: batches_from fuel' (i + batchSize) validRecipes
      else []
  end.

Definition batches {A : Type} (validRecipes : list A) : list (list A) :=
  batches_from (List.length validRecipes) 0 validRecipes.

(** All-or-nothing map: the first exception aborts. *)
Fixpoint map_option {A B : Type} (f : A -> option B) (l : list A)
  : option (list B) :=
  match l with
  | [] => Some []
  | a :: l' =>
      match f a with
      | None => None
      | Some b =>
          match map_option f l' with
          | None => None
          | Some bs => Some (b :: bs)
          end
      end
  end.

(** The array index a property key denotes, if it is one: the decimal
    form, without leading zeros, of an integer below [2^32 - 1]. *)
Definition array_index (key : string) : option Z :=
  match JS.digits 10 0 0 (chars key) with
  | (n, S _, []) =>
      if (match chars key with
          | "0"%char :: _ :: _ => false
          | _ => true
          end) && (n <? 2 ^ 32 - 1)%Z
      then Some n else None
  | _ => None
  end.

Definition is_index (key : string) : bool :=
  match array_index key with
  | Some _ => true
  | None => false
  end.

Definition index (key : string) : Z :=
  match array_index key with
  | Some n => n
  | None => 0
  end.

Fixpoint insert_key (key : string) (keys : list string) : list string :=
  match keys with
  | [] => [key]
  | k :: rest =>
      if (index key <? index k)%Z then key :: keys
      else k :: insert_key key rest
  end.

(** [Object.keys (o)] for the object [o] with these properties, listed as
    the file has them: first the array indices, in ascending order, then
    the other keys, in the order of the file. *)
Definition Object_keys (members : list (string * json)) : list string :=
  fold_right insert_key [] (filter is_index (map fst members))
  ++ filter (fun key => negb (is_index key)) (map fst members).

(** [Object.keys (recipesData).map (key => recipesData[key])] before the
    processing (lines 62-63): the entries of an array, the values of an
    object in the order of its keys, the characters of a string, nothing
    for a number or a boolean; [None] for [null], on which [Object.keys]
    throws. *)
Definition entries_of (recipesData : json) : option (list json) :=
  match recipesData with
  | JObj members =>
      Some (map (fun key => lookup key members) (Object_keys members))
  | JArr items => Some items
  | JStr s => Some (map (fun c => JStr (String c "")) (chars s))
  | JNum _ | JBool _ => Some []
  | JNull | JUndefined => None
  end.

(** Lines 64-68 and 72-76 of [importData], from the entries: the recipes
    processed, those without a title dropped, the rest in batches. *)
Definition validRecipes (entries : list json) : option (list processed) :=
  match map_option processRecipeData entries with
  | None => None
  | Some recipes => Some (filter (fun recipe => negb (is_null (title recipe))) recipes)
  end.

Definition inserted (entries : list json) : option (list (list processed)) :=
  match validRecipes entries with
  | None => None
  | Some valid => Some (batches valid)
  end.

(** [importData] from the parsed file on: the batches handed to
    [insertMany], or [None] when the run is aborted by an exception. *)
Definition importData (recipesData : json) : option (list (list processed)) :=
  match entries_of recipesData with
  | None => None
  | Some entries => inserted entries
  end.

End Importer.

(* ================================================================== *)
(** ** The user interface *)
(* ================================================================== *)

(** The logic of three components of the React front end.  Page numbers
    and counts are integers there (the page starts at [1] and is only set
    from the values passed by the controls below, [totalPages] comes from
    the API) and are integers here. *)

Module Pagination.

Local Open Scope Z_scope.

Definition maxVisiblePages : Z := 5.

(** Lines 8-13 of [Pagination.jsx]: the first and the last page number
    shown. *)
Definition window (currentPage totalPages : Z) : Z * Z :=
  let startPage := Z.max 1 (currentPage - maxVisiblePages / 2) in
  let endPage := Z.min totalPages (startPage + maxVisiblePages - 1) in
  let startPage :=
    if endPage - startPage + 1 <? maxVisiblePages
    then Z.max 1 (endPage - maxVisiblePages + 1)
    else startPage in
  (startPage, endPage).

(** [for (let i = startPage; i <= endPage; i++) pages.push (i)], with
    [fuel] bounding the number of rounds. *)
Fixpoint count_up (fuel : nat) (i endPage : Z) : list Z :=
  match fuel with
  | O => []
  | S fuel' =>
      if i <=? endPage then i :: count_up fuel' (i + 1) endPage else []
  end.

Definition pages (currentPage totalPages : Z) : list Z :=
  let '(startPage, endPage) := window currentPage totalPages in
  count_up (Z.to_nat (endPage - startPage + 1)) startPage endPage.

(** The controls rendered, left to right. *)
Inductive control : Type :=
| Previous (disabled : bool)
| PageButton (page : Z) (current : bool)
| Ellipsis
| Next (disabled : bool).

(** The component: [None] when it renders nothing. *)
Definition render (currentPage totalPages : Z) : option (list control) :=
  let '(startPage, endPage) := window currentPage totalPages in
  if totalPages <=? 1 then None
  else
    Some
      ([Previous (currentPage =? 1)]
       ++ (if 1 <? startPage
           then PageButton 1 false :: (if 2 <? startPage then [Ellipsis] else [])
           else [])
       ++ map (fun page => PageButton page (page =? currentPage))
              (pages currentPage totalPages)
       ++ (if endPage <? totalPages
           then (if endPage <? totalPages - 1 then [Ellipsis] else [])
                ++ [PageButton totalPages false]
           else [])
       ++ [Next (currentPage =? totalPages)])%list.

(** What a click on a control passes to [onPageChange], if anything
    ([handlePrevious], [handleNext] and the page buttons). *)
Definition click (currentPage totalPages : Z) (c : control) : option Z :=
  match c with
  | Previous _ => if 1 <? currentPage then Some (currentPage - 1) else None
  | Next _ => if currentPage <? totalPages then Some (currentPage + 1) else None
  | PageButton page _ => Some page
  | Ellipsis => None
  end.

End Pagination.

Module SearchFilters.

Local Open Scope string_scope.

(** The state of the form: one text per filter. *)
Record filters : Type := {
  title : string;
  cuisine : string;
  rating : string;
  total_time : string;
  calories : string
}.

(** [Object.entries (filters)] *)
Definition entries (f : filters) : list (string * string) :=
  [("title", title f); ("cuisine", cuisine f); ("rating", rating f);
   ("total_time", total_time f); ("calories", calories f)].

(** [value.trim ()] *)
Definition trim (value : string) : string := text (JS.trim_ws (chars value)).

(** [handleSubmit]: the object passed to [onSearch], as the list of its
    properties in the order they are set. *)
Definition handleSubmit (f : filters) : list (string * string) :=
  fold_left
    (fun acc '(key, value) =>
       if negb (String.eqb (trim value) "")
       then (acc ++ [(key, trim value)])%list
       else acc)
    (entries f) [].

(** [Object.values (filters).some (value => value.trim () !== '')] *)
Definition hasActiveFilters (f : filters) : bool :=
  existsb (fun value => negb (String.eqb (trim value) ""))
    (map snd (entries f)).

End SearchFilters.

Module StarRating.

Inductive star : Type := Full | Half | Hollow.

(** [rating % 1]: the remainder has the sign of the rating. *)
Definition mod1 (rating : Q) : Q := rating - inject_Z (JS.trunc rating).

(** The row of stars of [StarRating], [None] when it shows [N/A]; the
    rating arrives as a JSON number or [null]. *)
Definition stars (rating : option Q) : option (list star) :=
  match rating with
  | None => None
  | Some rating =>
      if JS.is_zero rating then None
      else
        let fullStars := Qfloor rating in
        let hasHalfStar := Qle_bool (1 # 2) (mod1 rating) in
        Some (map (fun i =>
                     if (i <? fullStars)%Z then Full
                     else if (i =? fullStars)%Z && hasHalfStar then Half
                     else Hollow)
                  [0; 1; 2; 3; 4]%Z)
  end.

End StarRating.

(* ================================================================== *)
(** ** Vocabulary of the further properties *)
(* ================================================================== *)

Module Terms.

Import Mongo Controller Props.

Local Open Scope string_scope.

(** [b] does not sort before [a]: the rating of [a] is not below that of
    [b], a missing rating being the lowest. *)
Definition not_below (a b : doc) : Prop :=
  key_ltb (rating_key a) (rating_key b) = false.

(** Every document is followed only by documents that do not sort before
    it. *)
Definition sorted_desc (l : list doc) : Prop := StronglySorted not_below l.

(** The calorie test of a search on a record: the derived value
    satisfies the comparison; a derivation that fails does not. *)
Definition calories_ok (c : comparison) (r : Recipe) : bool :=
  match eval caloriesValue_expr (plain r) with
  | inr v => holds (as_cond c) v
  | inl _ => false
  end.

(** The record passes the filter [q] and, when there is one, the calorie
    comparison [c]. *)
Definition qualifies (q : query) (c : comparison) (r : Recipe) : bool :=
  matches q (plain r) && (if truthy c then calories_ok c r else true).

(** The records of an answer; none when the request fails. *)
Definition page_data (r : option response) : list doc :=
  match r with
  | Some (Ok200 b) => data b
  | _ => []
  end.

Definition is_digit (c : ascii) : bool :=
  ((48 <=? JS.code c) && (JS.code c <=? 57))%Z.

(** The number a string of decimal digits denotes. *)
Definition numeral (ds : list ascii) : Z :=
  fold_left (fun acc c => (10 * acc + (JS.code c - 48))%Z) ds 0%Z.

(** [Number.MAX_SAFE_INTEGER].  Every integer up to it is a double, and
    sums and products of integers that stay below it are exact: within
    this range the exact arithmetic of the model is that of the
    program. *)
Definition MAX_SAFE_INTEGER : Z := 2 ^ 53 - 1.

(** White space only. *)
Fixpoint blank (s : string) : bool :=
  match s with
  | EmptyString => true
  | String c rest => JS.is_ws c && blank rest
  end.

(** A numeric field as stored: [null] or a number other than NaN. *)
Definition clean_number (v : Importer.json) : bool :=
  match v with
  | Importer.JNull => true
  | Importer.JNum n => negb (Importer.isNaN n)
  | _ => false
  end.

(** The entry is an object whose [title] is truthy. *)
Definition has_title (e : Importer.json) : bool :=
  match e with
  | Importer.JObj members => Importer.truthy (Importer.lookup "title" members)
  | _ => false
  end.

(** [n] consecutive integers from [s]. *)
Definition run (s : Z) (n : nat) : list Z :=
  map (fun k => (s + Z.of_nat k)%Z) (seq 0 n).

(** *** Sample data *)

Definition three : list Recipe := [recipe_A; recipe_B; recipe_C].

(** The whole of [three], best rating first. *)
Definition listing_three : body :=
  {| count := 3; total := 3; page := JS.Fin 1; totalPages := JS.Fin 1;
     data := [plain recipe_C; plain recipe_A; plain recipe_B] |}.


(** Page [i + 1] of size two. *)
Definition page_of_two (i : nat) : Req.query :=
  with_page_limit (Some (match i with O => "1" | _ => "2" end)) (Some "2").

(** The third page of size two of [three]: past the end. *)
Definition past_the_end : body :=
  {| count := 0; total := 3; page := JS.Fin 3; totalPages := JS.Fin 2;
     data := [] |}.

(** A rating that is an operator without a number, on the aggregation
    path, and the answer to it. *)
Definition numberless_request : Req.query :=
  {| Req.calories := Some "<=400"; Req.title := None; Req.cuisine := None;
     Req.total_time := None; Req.rating := Some ">=abc";
     Req.page := None; Req.limit := None |}.

Definition empty_answer : body :=
  {| count := 0; total := 0; page := JS.Fin 1; totalPages := JS.Fin 0;
     data := [] |}.

Definition pie_entry : Importer.json :=
  Importer.JObj [("title", Importer.JStr "Pie");
                 ("rating", Importer.JStr "NaN");
                 ("total_time", Importer.JNum (JS.of_Z 45))].

Definition gallery_entry : Importer.json :=
  Importer.JObj [("rating", Importer.JNum (JS.of_Z 4))].

Definition cake_entry : Importer.json :=
  Importer.JObj [("title", Importer.JStr "Cake")].

(** A file whose keys are array indices out of order. *)
Definition swapped_file : Importer.json :=
  Importer.JObj [("1", cake_entry); ("0", pie_entry)].

(** The fields converted by [sanitizeNumericField]. *)
Definition numeric_fields : list string :=
  ["rating"; "total_time"; "prep_time"; "cook_time"].

Definition le_index (a b : string) : Prop :=
  (Importer.index a <= Importer.index b)%Z.

Definition pie_record : Importer.processed :=
  {| Importer.Contient := Importer.JNull;
     Importer.Country_State := Importer.JNull;
     Importer.cuisine := Importer.JNull;
     Importer.title := Importer.JStr "Pie";
     Importer.URL := Importer.JNull;
     Importer.rating := Importer.JNull;
     Importer.total_time := Importer.JNum (JS.of_Z 45);
     Importer.prep_time := Importer.JNull;
     Importer.cook_time := Importer.JNull;
     Importer.description := Importer.JNull;
     Importer.ingredients := Importer.JArr [];
     Importer.instructions := Importer.JArr [];
     Importer.nutrients := Importer.JNull;
     Importer.serves := Importer.JNull |}.

Definition cake_record : Importer.processed :=
  {| Importer.Contient := Importer.JNull;
     Importer.Country_State := Importer.JNull;
     Importer.cuisine := Importer.JNull;
     Importer.title := Importer.JStr "Cake";
     Importer.URL := Importer.JNull;
     Importer.rating := Importer.JNull;
     Importer.total_time := Importer.JNull;
     Importer.prep_time := Importer.JNull;
     Importer.cook_time := Importer.JNull;
     Importer.description := Importer.JNull;
     Importer.ingredients := Importer.JArr [];
     Importer.instructions := Importer.JArr [];
     Importer.nutrients := Importer.JNull;
     Importer.serves := Importer.JNull |}.

Definition pie_form : SearchFilters.filters :=
  {| SearchFilters.title := "  pie ";
     SearchFilters.cuisine := "";
     SearchFilters.rating := " ";
     SearchFilters.total_time := "";
     SearchFilters.calories := "<=400" |}.

End Terms.

(* ================================================================== *)
(** ** Properties of the comparison parser *)
(* ================================================================== *)

Section ComparisonParser.

Import Mongo Controller.
Local Open Scope string_scope.

(** C1. [parseComparisonQuery] on the documented inputs, and the order of
    the prefix tests: a string that starts with [>=] (respectively [<=])
    always yields the greater-or-equal (less-or-equal) predicate on the
    rest of the string, never the strict one. *)
Theorem parseComparisonQuery_spec :
  parseComparisonQuery (Some ">=4.5") = Object Gte (JS.Fin (9 # 2))
  /\ (9 # 2 == 4.5)%Q
  /\ parseComparisonQuery (Some "<=60") = Object Lte (JS.Fin 60)
  /\ parseComparisonQuery (Some "==5") = Number (JS.Fin 5)
  /\ parseComparisonQuery (Some "30") = Number (JS.Fin 30)
  /\ parseComparisonQuery (Some "") = Null
  /\ parseComparisonQuery None = Null
  /\ (forall s, parseComparisonQuery (Some (">=" ++ s))
                = Object Gte (JS.parseFloat s))
  /\ (forall s, parseComparisonQuery (Some ("<=" ++ s))
                = Object Lte (JS.parseFloat s)).
Proof.
  repeat split; intros; reflexivity.
Qed.

End ComparisonParser.

(* ================================================================== *)
(** ** Lists *)
(* ================================================================== *)

Section Lists.

Context {A : Type}.

Lemma perm2_cases (a b : A) (l : list A) :
  Permutation l [a; b] -> l = [a; b] \/ l = [b; a].
Proof.
  intro P. apply Permutation_sym in P.
  exact (Permutation_length_2_inv P).
Qed.

Lemma perm3_cases (a b c : A) (l : list A) :
  Permutation l [a; b; c] ->
  l = [a; b; c] \/ l = [a; c; b] \/ l = [b; a; c] \/ l = [b; c; a]
  \/ l = [c; a; b] \/ l = [c; b; a].
Proof.
  intro P.
  assert (L := Permutation_length P).
  destruct l as [|x [|y [|z [|]]]]; try discriminate L.
  assert (I : In x [a; b; c])
    by (apply (Permutation_in _ P); left; reflexivity).
  destruct I as [E|[E|[E|[]]]]; subst x.
  - apply Permutation_cons_inv in P.
    destruct (perm2_cases _ _ _ P) as [E|E]; injection E as -> ->; auto.
  - assert (P' : Permutation (b :: [y; z]) (b :: [a; c])).
    { apply (Permutation_trans P). apply perm_swap. }
    apply Permutation_cons_inv in P'.
    destruct (perm2_cases _ _ _ P') as [E|E]; injection E as -> ->; auto 6.
  - assert (P' : Permutation (c :: [y; z]) (c :: [a; b])).
    { apply (Permutation_trans P).
      apply (Permutation_trans (l' := [a; c; b])).
      - apply perm_skip, perm_swap.
      - apply perm_swap. }
    apply Permutation_cons_inv in P'.
    destruct (perm2_cases _ _ _ P') as [E|E]; injection E as -> ->; auto 7.
Qed.

End Lists.

(** Unfolds a search down to the store operations it awaits. *)
Ltac unfold_search :=
  unfold Controller.searchRecipes, Controller.searchRecipes_log,
    Controller.respond, Controller.searchRecipes_try;
  cbv [Mongo.bind Controller.build_query Controller.text_filter Mongo.ret
       Controller.comparison_filter Controller.Recipe_aggregate
       Controller.Recipe_find Controller.Recipe_countDocuments Mongo.await].

(* ================================================================== *)
(** ** The derived calories value and the combined scenario *)
(* ================================================================== *)

Section Calories.

Import Mongo Controller Props.
Local Open Scope string_scope.

Lemma filter_plain (p : doc -> bool) (records : list Recipe) :
  filter p (map plain records)
  = map plain (filter (fun r => p (plain r)) records).
Proof.
  induction records as [|r l IH]; cbn [map filter]; [reflexivity|].
  destruct (p (plain r)); cbn [map]; rewrite IH; reflexivity.
Qed.

(** [$addFields] over records whose derivation succeeds. *)
Lemma addFields_values (e : expr) (value : Recipe -> bson) (l : list Recipe) :
  (forall r, In r l -> eval e (plain r) = inr (value r)) ->
  map_result (set_caloriesValue e) (map plain l)
  = inr (map (fun r => Doc r (value r)) l).
Proof.
  induction l as [|r l IH]; intro H; cbn [map map_result]; [reflexivity|].
  unfold set_caloriesValue at 1, plain at 1. fold (plain r).
  rewrite (H r (or_introl eq_refl)), IH by (intros; apply H; now right).
  reflexivity.
Qed.

(** [$addFields] stops at the first record whose derivation fails. *)
Lemma addFields_fails (e : expr) (l : list Recipe) (r : Recipe) (f : fault) :
  In r l -> eval e (plain r) = inl f ->
  exists f', map_result (set_caloriesValue e) (map plain l) = inl f'.
Proof.
  induction l as [|x l IH]; intros Hin He; [destruct Hin|].
  cbn [map map_result]. unfold set_caloriesValue at 1, plain at 1.
  fold (plain x). destruct Hin as [-> | Hin].
  - rewrite He. eauto.
  - destruct (eval e (plain x)); [eauto|].
    destruct (IH Hin He) as [f' ->]. eauto.
Qed.

Lemma filter_computed (c : cond) (value : Recipe -> bson) (l : list Recipe) :
  map unset_caloriesValue
    (filter (matches [(FcaloriesValue, c)])
            (map (fun r => Doc r (value r)) l))
  = map plain (filter (fun r => holds c (value r)) l).
Proof.
  induction l as [|r l IH]; cbn [map filter]; [reflexivity|].
  unfold matches at 1. cbn [forallb fst snd get]. rewrite andb_true_r.
  destruct (holds c (value r)); cbn [map unset_caloriesValue];
    rewrite IH; reflexivity.
Qed.

(** C4. The derivation of [caloriesValue], and its application to each
    record on the computed-field path.  An entry ["450 kcal"] derives to
    the number 450 and an absent entry to 0; in general an entry [s]
    derives to the decimal value of [s] with every [" kcal"] removed and
    the ends trimmed.  The [$addFields] stage of [aggregationPipeline]
    stores that value in each record that passed the filter, and the
    pipeline keeps the records whose stored value satisfies the calories
    comparison; a record whose entry does not derive makes the pipeline
    fail. *)
Theorem caloriesValue_derivation (q : query) (c : comparison)
    (records : list Recipe) :
  (forall d,
     (nutrient "calories" d = Str "450 kcal" ->
      eval caloriesValue_expr d = inr (Num 450))
     /\ (nutrient "calories" d = Missing ->
         eval caloriesValue_expr d = inr (Num 0))
     /\ (forall s x, nutrient "calories" d = Str s ->
           to_double (trim (replace_all s " kcal" "")) = inr x ->
           eval caloriesValue_expr d = inr (Num x)))
  /\ (forall r, matches q (plain r) = true ->
        (nutrient "calories" (plain r) = Str "450 kcal" ->
         run_pipeline (firstn 2 (aggregationPipeline q c)) [plain r]
         = inr [Doc r (Num 450)])
        /\ (nutrient "calories" (plain r) = Missing ->
            run_pipeline (firstn 2 (aggregationPipeline q c)) [plain r]
            = inr [Doc r (Num 0)]))
  /\ (forall value : Recipe -> bson,
        (forall r, In r records -> matches q (plain r) = true ->
                   eval caloriesValue_expr (plain r) = inr (value r)) ->
        run_pipeline (aggregationPipeline q c) (map plain records)
        = inr (map plain
                 (filter (fun r => holds (as_cond c) (value r))
                    (filter (fun r => matches q (plain r)) records))))
  /\ (forall r f, In r records -> matches q (plain r) = true ->
        eval caloriesValue_expr (plain r) = inl f ->
        exists f',
          run_pipeline (aggregationPipeline q c) (map plain records) = inl f').
Proof.
  assert (D : forall d,
     (nutrient "calories" d = Str "450 kcal" ->
      eval caloriesValue_expr d = inr (Num 450))
     /\ (nutrient "calories" d = Missing ->
         eval caloriesValue_expr d = inr (Num 0))
     /\ (forall s x, nutrient "calories" d = Str s ->
           to_double (trim (replace_all s " kcal" "")) = inr x ->
           eval caloriesValue_expr d = inr (Num x))).
  { intro d. repeat split.
    - intro H. cbn. rewrite H. reflexivity.
    - intro H. cbn. rewrite H. reflexivity.
    - intros s x H E. unfold caloriesValue_expr. cbn [eval].
      rewrite H. cbv iota beta. rewrite E. reflexivity. }
  split; [exact D|]. split; [|split].
  - intros r Hm. destruct (D (plain r)) as (D1 & D2 & _).
    unfold aggregationPipeline. cbn [firstn run_pipeline run_stage filter].
    rewrite Hm. cbn [map_result].
    unfold set_caloriesValue, plain. fold (plain r).
    split; intro H; [rewrite (D1 H) | rewrite (D2 H)]; reflexivity.
  - intros value H.
    unfold aggregationPipeline. cbn [run_pipeline run_stage].
    rewrite filter_plain, (addFields_values _ value).
    + rewrite filter_computed. reflexivity.
    + intros r Hr. apply filter_In in Hr as [Hr Hm]. exact (H r Hr Hm).
  - intros r f Hr Hm He.
    unfold aggregationPipeline. cbn [run_pipeline run_stage].
    rewrite filter_plain.
    destruct (addFields_fails caloriesValue_expr
                (filter (fun r => matches q (plain r)) records) r f)
      as [f' ->]; [apply filter_In; auto | exact He | eauto].
Qed.

Lemma caloriesValue_derivation_witness :
  (eval caloriesValue_expr
     (plain (recipe None None None (Some [("calories", "450 kcal")])))
   = inr (Num 450)
   /\ eval caloriesValue_expr (plain (recipe None None None None))
      = inr (Num 0)
   /\ eval caloriesValue_expr
        (plain (recipe None None None (Some [("protein", "12 g")])))
      = inr (Num 0)
   /\ eval caloriesValue_expr
        (plain (recipe None None None (Some [("calories", " 12.5 kcal ")])))
      = inr (Num (25 # 2)))
  /\ run_pipeline (aggregationPipeline [] (Object Lte (JS.Fin 400)))
       (map plain [recipe_A; recipe_B; recipe_C])
     = inr [plain recipe_A; plain recipe_C].
Proof.
  destruct (caloriesValue_derivation [] (Object Lte (JS.Fin 400))
              [recipe_A; recipe_B; recipe_C]) as (D & _ & P & _).
  split; [split; [|split; [|split]]|].
  - destruct (D (plain (recipe None None None
                          (Some [("calories", "450 kcal")])))) as (H & _ & _).
    apply H. reflexivity.
  - destruct (D (plain (recipe None None None None))) as (_ & H & _).
    apply H. reflexivity.
  - destruct (D (plain (recipe None None None (Some [("protein", "12 g")]))))
      as (_ & H & _).
    apply H. reflexivity.
  - destruct (D (plain (recipe None None None
                          (Some [("calories", " 12.5 kcal ")])))) as (_ & _ & H).
    apply (H " 12.5 kcal "); reflexivity.
  - apply (P (fun r => match eval caloriesValue_expr (plain r) with
                       | inr v => v
                       | inl _ => Missing
                       end)).
    intros r [<- | [<- | [<- | []]]] _; reflexivity.
Defined.

(** C5, as stated, fails: with C's calories absent the search succeeds
    with C and A (C derives to 0, which is at most 400), and with C's
    calories ["none"] it does not succeed at all. *)
Lemma combined_scenario_counterexample :
  ~ (exists b,
        searchRecipes (serving [recipe_A; recipe_B; recipe_C]) combined_request
        = Some (Ok200 b)
        /\ data b = [plain recipe_A] /\ total b = 1%nat)
  /\ ~ (exists b,
        searchRecipes (serving [recipe_A; recipe_B; recipe_C_none])
          combined_request
        = Some (Ok200 b)).
Proof.
  split.
  - intros (b & H & _ & T). vm_compute in H. injection H as <-.
    discriminate T.
  - intros (b & H). vm_compute in H. discriminate H.
Qed.

(** C5, amended.  Against a store holding exactly A, B and C that serves
    both round trips (in whatever order it enumerates them): when C has no
    calories entry the search returns C then A, with total 2; when C's
    entry is ["none"] the derivation fails and the answer is the 500
    error. *)
Theorem combined_scenario (w : world) (s0 s1 : list Recipe) :
  w 0%nat = Served s0 -> w 1%nat = Served s1 ->
  (Permutation s0 [recipe_A; recipe_B; recipe_C] ->
   Permutation s1 [recipe_A; recipe_B; recipe_C] ->
   searchRecipes w combined_request
   = Some (Ok200 {| count := 2; total := 2;
                    page := JS.Fin 1; totalPages := JS.Fin 1;
                    data := [plain recipe_C; plain recipe_A] |}))
  /\ (Permutation s0 [recipe_A; recipe_B; recipe_C_none] ->
      searchRecipes w combined_request
      = Some (Err500 "Server Error"
                "Failed to parse number 'none' in $convert")).
Proof.
  intros H0 H1. split.
  - intros P0 P1.
    unfold_search. cbn -[aggregate]. rewrite H0, H1.
    destruct (perm3_cases _ _ _ _ P0) as [E|[E|[E|[E|[E|E]]]]]; rewrite E;
      destruct (perm3_cases _ _ _ _ P1) as [F|[F|[F|[F|[F|F]]]]]; rewrite F;
      vm_compute; reflexivity.
  - intros P0. unfold_search. cbn -[aggregate]. rewrite H0.
    destruct (perm3_cases _ _ _ _ P0) as [E|[E|[E|[E|[E|E]]]]]; rewrite E;
      vm_compute; reflexivity.
Qed.

Lemma combined_scenario_witness :
  searchRecipes (serving [recipe_B; recipe_C; recipe_A]) combined_request
  = Some (Ok200 {| count := 2; total := 2;
                   page := JS.Fin 1; totalPages := JS.Fin 1;
                   data := [plain recipe_C; plain recipe_A] |})
  /\ searchRecipes (serving [recipe_C_none; recipe_A; recipe_B]) combined_request
     = Some (Err500 "Server Error" "Failed to parse number 'none' in $convert").
Proof.
  split.
  - apply (combined_scenario (serving [recipe_B; recipe_C; recipe_A])
             [recipe_B; recipe_C; recipe_A] [recipe_B; recipe_C; recipe_A]
             eq_refl eq_refl).
    + apply (Permutation_trans (l' := [recipe_B; recipe_A; recipe_C])).
      * apply perm_skip, perm_swap.
      * apply perm_swap.
    + apply (Permutation_trans (l' := [recipe_B; recipe_A; recipe_C])).
      * apply perm_skip, perm_swap.
      * apply perm_swap.
  - apply (combined_scenario (serving [recipe_C_none; recipe_A; recipe_B])
             [recipe_C_none; recipe_A; recipe_B]
             [recipe_C_none; recipe_A; recipe_B] eq_refl eq_refl).
    apply (Permutation_trans (l' := [recipe_A; recipe_C_none; recipe_B])).
    + apply perm_swap.
    + apply perm_skip, perm_swap.
Defined.

End Calories.

(* ================================================================== *)
(** ** Text filters *)
(* ================================================================== *)

Section TextFilters.

Import Mongo Controller Props.
Import Regex.
Local Open Scope string_scope.
Local Open Scope list_scope.

Lemma parse_literal_char cur stack rep c rest :
  literal_char c = true ->
  parse cur stack rep (c :: rest) = parse (push (Chr c) cur) stack true rest.
Proof.
  unfold literal_char. intro H. cbn [parse].
  destruct (classify c); try discriminate H. reflexivity.
Qed.

Lemma parse_literal p : forall ts rep,
  forallb literal_char p = true ->
  parse {| alts := []; terms := ts |} [] rep p
  = Rx (seq_re (rev (map Chr p) ++ ts)).
Proof.
  induction p as [|c p IH]; intros ts rep H.
  - reflexivity.
  - cbn [forallb] in H. apply andb_prop in H as [Hc Hp].
    rewrite parse_literal_char by exact Hc.
    unfold push. cbn [alts terms]. rewrite IH by exact Hp.
    cbn [map rev]. rewrite <- app_assoc. reflexivity.
Qed.

Lemma seq_re_rev l : seq_re (rev l) = fold_right (fun t acc => Cat t acc) Empty l.
Proof.
  unfold seq_re. rewrite <- (rev_involutive l) at 2.
  rewrite fold_left_rev_right. reflexivity.
Qed.

Lemma compile_literal s :
  literal_text s = true -> compile s = Rx (lit_re (chars s)).
Proof.
  intro H. unfold compile, empty_frame. rewrite parse_literal by exact H.
  rewrite app_nil_r, seq_re_rev. unfold lit_re.
  induction (chars s) as [|c l IH]; cbn; [reflexivity|]. f_equal. 
  injection IH. intros ->. reflexivity.
Qed.

Lemma ends_lit p : forall n suf,
  ends (lit_re p) n suf
  = match strip_ci p suf with Some rest => [rest] | None => [] end.
Proof.
  induction p as [|c p IH]; intros n suf; cbn [lit_re fold_right ends strip_ci].
  - reflexivity.
  - destruct suf as [|h t]; cbn [one flat_map]; [reflexivity|].
    destruct (same_char c h); cbn [flat_map]; [|reflexivity].
    fold (lit_re p). rewrite IH, app_nil_r. reflexivity.
Qed.

Lemma same_char_upper a b : same_char a b = true <-> upper a = upper b.
Proof. unfold same_char. apply Ascii.eqb_eq. Qed.

Lemma strip_ci_spec p : forall s rest,
  strip_ci p s = Some rest <->
  exists p', s = p' ++ rest /\ map upper p' = map upper p.
Proof.
  induction p as [|a p IH]; intros s rest; cbn [strip_ci].
  - split.
    + intros [= ->]. exists []. split; reflexivity.
    + intros (p' & -> & E). destruct p'; [reflexivity|discriminate E].
  - destruct s as [|b s].
    + split; [discriminate|].
      intros (p' & E & M). destruct p'; discriminate.
    + destruct (same_char a b) eqn:Eab.
      * rewrite IH. apply same_char_upper in Eab. split.
        -- intros (p' & -> & M). exists (b :: p'). split; [reflexivity|].
           cbn. rewrite M, Eab. reflexivity.
        -- intros (p' & E & M). destruct p' as [|b' p']; [discriminate M|].
           injection E as <- ->. injection M as _ M. exists p'. auto.
      * split; [discriminate|].
        intros (p' & E & M). destruct p' as [|b' p']; [discriminate M|].
        injection E as <- ->. injection M as M1 _.
        symmetry in M1. apply same_char_upper in M1. congruence.
Qed.

Lemma in_suffixes (l suf : list ascii) :
  In suf (suffixes l) <-> exists pre, l = pre ++ suf.
Proof.
  induction l as [|c l IH]; cbn [suffixes In].
  - split.
    + intros [<-|[]]. exists []. reflexivity.
    + intros (pre & E). left. symmetry in E. apply app_eq_nil in E as [_ ->]. reflexivity.
  - rewrite IH. split.
    + intros [<-|(pre & ->)]; [exists []; reflexivity|].
      exists (c :: pre). reflexivity.
    + intros ([|c' pre] & E).
      * left. exact E.
      * right. injection E as _ ->. exists pre. reflexivity.
Qed.

Lemma search_literal (needle hay : string) :
  search (lit_re (chars needle)) hay = true <-> contains_ci needle hay.
Proof.
  unfold search, contains_ci. rewrite existsb_exists. split.
  - intros (suf & I & N). apply in_suffixes in I as (pre & E).
    rewrite ends_lit in N. destruct (strip_ci _ suf) as [rest|] eqn:S; [|discriminate N].
    apply strip_ci_spec in S as (p' & -> & M).
    exists (map upper pre), (map upper rest).
    rewrite E, !map_app, M. reflexivity.
  - intros (pre & post & E).
    apply map_eq_app in E as (l1 & l23 & E1 & M1 & E).
    apply map_eq_app in E as (l2 & l3 & E2 & M2 & M3).
    exists (l2 ++ l3). split.
    + apply in_suffixes. exists l1. congruence.
    + rewrite ends_lit.
      assert (S : strip_ci (chars needle) (l2 ++ l3) = Some l3)
        by (apply strip_ci_spec; exists l2; auto).
      rewrite S. reflexivity.
Qed.


Lemma text_filter_compiled f s q r log :
  s <> "" -> compile s = Rx r ->
  text_filter f (Some s) q log = (inr (q ++ [(f, Regex_i r)]), log).
Proof.
  intros Hs Hc. unfold text_filter.
  destruct s as [|c s]; [contradiction|]. cbn [JS.truthy_string].
  unfold bind, new_RegExp_i. rewrite Hc. reflexivity.
Qed.

Lemma text_filter_rejected f s q reason log :
  s <> "" -> compile s = SyntaxError reason ->
  text_filter f (Some s) q log
  = (inl (Thrown ("Invalid regular expression: /" ++ s ++ "/: " ++ reason)%string), log).
Proof.
  intros Hs Hc. unfold text_filter.
  destruct s as [|c s]; [contradiction|]. cbn [JS.truthy_string].
  unfold bind, new_RegExp_i. rewrite Hc. reflexivity.
Qed.

Lemma build_with_title s r :
  s <> "" -> compile s = Rx r ->
  build_query (with_title s) [] = (inr [(Ftitle, Regex_i r)], []).
Proof.
  intros Hs Hc. destruct s as [|c s]; [contradiction|].
  unfold build_query, text_filter, bind, new_RegExp_i.
  cbn [with_title Req.cuisine Req.title JS.truthy_string ret].
  rewrite Hc. reflexivity.
Qed.

Lemma build_with_cuisine s r :
  s <> "" -> compile s = Rx r ->
  build_query (with_cuisine s) [] = (inr [(Fcuisine, Regex_i r)], []).
Proof.
  intros Hs Hc. destruct s as [|c s]; [contradiction|].
  unfold build_query, text_filter, bind, new_RegExp_i.
  cbn [with_cuisine Req.cuisine Req.title JS.truthy_string ret].
  rewrite Hc. reflexivity.
Qed.

Lemma matches_single f c d : matches [(f, c)] d = holds c (get f d).
Proof. unfold matches. cbn. apply andb_true_r. Qed.

Lemma text_filter_pure f p q :
  exists r, forall log, text_filter f p q log = (r, log).
Proof.
  unfold text_filter. destruct p as [s|]; [|eexists; reflexivity].
  destruct (JS.truthy_string s); [|eexists; reflexivity].
  unfold bind, new_RegExp_i. destruct (Regex.compile s); eexists; reflexivity.
Qed.

Lemma matches_app q1 q2 d : matches (q1 ++ q2) d = matches q1 d && matches q2 d.
Proof. unfold matches. apply forallb_app. Qed.

Lemma comparison_filter_app f p q :
  comparison_filter f p q = q ++ comparison_filter f p [].
Proof.
  unfold comparison_filter. destruct (JS.truthy_param p); cbv zeta;
    [destruct (truthy (parseComparisonQuery p))|];
    cbn [app]; rewrite ?app_nil_r; reflexivity.
Qed.

Lemma text_filter_app f p q log :
  text_filter f p q log
  = match text_filter f p [] log with
    | (inr t, l) => (inr (q ++ t), l)
    | (inl e, l) => (inl e, l)
    end.
Proof.
  unfold text_filter. destruct p as [s|]; [destruct (JS.truthy_string s)|];
    unfold bind, new_RegExp_i, ret, throw;
    try destruct (compile s); cbn [app]; rewrite ?app_nil_r; reflexivity.
Qed.

(** The composite filter is the concatenation of what each parameter
    contributes, in the order cuisine, title, total time, rating. *)
Lemma build_query_parts req q :
  build_query req [] = (inr q, []) <->
  exists qc qt,
    text_filter Fcuisine (Req.cuisine req) [] [] = (inr qc, [])
    /\ text_filter Ftitle (Req.title req) [] [] = (inr qt, [])
    /\ q = qc ++ qt
           ++ comparison_filter Ftotal_time (Req.total_time req) []
           ++ comparison_filter Frating (Req.rating req) [].
Proof.
  unfold build_query, bind.
  destruct (text_filter_pure Fcuisine (Req.cuisine req) []) as [rc Hc].
  rewrite Hc.
  destruct (text_filter_pure Ftitle (Req.title req) []) as [rt Ht].
  destruct rc as [e|qc]; cbv beta iota.
  - split; [discriminate|]. intros (qc & qt & E & _). discriminate E.
  - rewrite (text_filter_app Ftitle (Req.title req) qc), Ht.
    destruct rt as [e|qt]; cbv beta iota.
    + split; [discriminate|]. intros (qc' & qt' & _ & E & _). discriminate E.
    + unfold ret.
      rewrite (comparison_filter_app Frating),
        (comparison_filter_app Ftotal_time), <- !app_assoc.
      split.
      * intros [= <-]. exists qc, qt. auto.
      * intros (qc' & qt' & [= <-] & [= <-] & ->). reflexivity.
Qed.

Lemma text_filter_none f : text_filter f None [] [] = (inr [], []).
Proof. reflexivity. Qed.

(** C6, amended.  For a title (respectively cuisine) that is not empty
    and has no regular-expression syntax character, the composite filter
    of any request with that title (cuisine) matches exactly the records
    that contain the text in their title (cuisine) as a substring,
    ignoring case, and pass the filter of the other parameters of the
    request; an empty parameter adds no predicate, and the filter of a
    request without parameters matches every document. *)
Theorem literal_text_filter (req : Req.query) (s : string) :
  s <> "" -> literal_text s = true ->
  (Req.title req = Some s ->
   forall q', build_query (without_title req) [] = (inr q', []) ->
   exists q, build_query req [] = (inr q, [])
     /\ forall r, matches q (plain r) = true
                  <-> (exists t, Mongo.title r = Some t /\ contains_ci s t)
                      /\ matches q' (plain r) = true)
  /\ (Req.cuisine req = Some s ->
      forall q', build_query (without_cuisine req) [] = (inr q', []) ->
      exists q, build_query req [] = (inr q, [])
        /\ forall r, matches q (plain r) = true
                     <-> (exists t, Mongo.cuisine r = Some t /\ contains_ci s t)
                         /\ matches q' (plain r) = true)
  /\ (Req.title req = Some "" ->
      build_query req [] = build_query (without_title req) [])
  /\ (Req.cuisine req = Some "" ->
      build_query req [] = build_query (without_cuisine req) [])
  /\ build_query no_params [] = (inr [], [])
  /\ (forall d, matches [] d = true).
Proof.
  intros Hs Hl. pose proof (compile_literal s Hl) as Hc.
  assert (Hlit : forall v,
            holds (Regex_i (lit_re (chars s))) (of_str v) = true
            <-> exists t, v = Some t /\ contains_ci s t).
  { intros [t|]; cbn [of_str holds].
    - rewrite search_literal. split.
      + intro H. exists t. auto.
      + intros (t' & [= <-] & H). exact H.
    - split; [discriminate|]. intros (t & E & _). discriminate E. }
  split; [|split; [|split; [|split; [|split]]]].
  - intros Ht q' Hq'.
    apply build_query_parts in Hq' as (qc & qt & Ec & Et & ->).
    cbn [without_title Req.cuisine Req.title Req.total_time Req.rating] in *.
    rewrite text_filter_none in Et. injection Et as <-.
    eexists. split.
    + apply build_query_parts. exists qc, [(Ftitle, Regex_i (lit_re (chars s)))].
      split; [exact Ec|]. split; [|reflexivity].
      rewrite Ht. apply (text_filter_compiled Ftitle s [] _ [] Hs Hc).
    + intro r. rewrite !matches_app, matches_single. cbn [get plain app].
      rewrite <- Hlit.
      destruct (matches qc _), (holds _ _), (matches (comparison_filter Ftotal_time _ _) _),
        (matches (comparison_filter Frating _ _) _); cbn; intuition discriminate.
  - intros Ht q' Hq'.
    apply build_query_parts in Hq' as (qc & qt & Ec & Et & ->).
    cbn [without_cuisine Req.cuisine Req.title Req.total_time Req.rating] in *.
    rewrite text_filter_none in Ec. injection Ec as <-.
    eexists. split.
    + apply build_query_parts. exists [(Fcuisine, Regex_i (lit_re (chars s)))], qt.
      split; [|split; [exact Et | reflexivity]].
      rewrite Ht. apply (text_filter_compiled Fcuisine s [] _ [] Hs Hc).
    + intro r. rewrite !matches_app, matches_single. cbn [get plain app].
      rewrite <- Hlit.
      destruct (holds _ _), (matches qt _), (matches (comparison_filter Ftotal_time _ _) _),
        (matches (comparison_filter Frating _ _) _); cbn; intuition discriminate.
  - intro Ht. unfold build_query.
    cbn [without_title Req.cuisine Req.title Req.total_time Req.rating].
    rewrite Ht. reflexivity.
  - intro Ht. unfold build_query.
    cbn [without_cuisine Req.cuisine Req.title Req.total_time Req.rating].
    rewrite Ht. reflexivity.
  - reflexivity.
  - reflexivity.
Qed.

(** Refutes a decomposition [E : hay = pre ++ needle ++ post] of concrete
    texts by trying every length of [pre]. *)
Ltac no_occurrence E pre :=
  cbn in E;
  repeat (destruct pre as [|? pre]; cbn in E;
          [discriminate E | injection E as _ E]);
  destruct pre; discriminate E.

Lemma not_contains_pie_cake : ~ contains_ci "pie" "Cake".
Proof. intros (pre & post & E). no_occurrence E pre. Qed.

Lemma literal_text_filter_witness :
  (exists q, build_query (with_title "pie") [] = (inr q, [])
     /\ matches q (plain (titled "Apple Pie")) = true
     /\ matches q (plain (titled "PIE night")) = true
     /\ matches q (plain (titled "shepherd's pie")) = true
     /\ matches q (plain (titled "Cake")) = false
     /\ matches q (plain untitled) = false)
  /\ (exists q, build_query pie_rated_request [] = (inr q, [])
        /\ matches q (plain (rated "Apple Pie" 5)) = true
        /\ matches q (plain (rated "Apple Pie" 3)) = false
        /\ matches q (plain (rated "Cake" 5)) = false).
Proof.
  split.
  - destruct (literal_text_filter (with_title "pie") "pie") as (H & _);
      [discriminate | reflexivity |].
    destruct (H eq_refl [] eq_refl) as (q & Hq & Hm).
    exists q. split; [exact Hq|].
    split; [|split; [|split; [|split]]].
    + apply Hm. split; [|reflexivity].
      exists "Apple Pie". split; [reflexivity|].
      exists (chars "APPLE "), []. reflexivity.
    + apply Hm. split; [|reflexivity].
      exists "PIE night". split; [reflexivity|].
      exists [], (chars " NIGHT"). reflexivity.
    + apply Hm. split; [|reflexivity].
      exists "shepherd's pie". split; [reflexivity|].
      exists (chars "SHEPHERD'S "), []. reflexivity.
    + destruct (matches q (plain (titled "Cake"))) eqn:E; [|reflexivity].
      apply Hm in E as ((t & [= <-] & H') & _).
      destruct (not_contains_pie_cake H').
    + destruct (matches q (plain untitled)) eqn:E; [|reflexivity].
      apply Hm in E as ((t & E & _) & _). discriminate E.
  - destruct (literal_text_filter pie_rated_request "pie") as (H & _);
      [discriminate | reflexivity |].
    destruct (H eq_refl _ eq_refl) as (q & Hq & Hm).
    exists q. split; [exact Hq|]. split; [|split].
    + apply Hm. split; [|reflexivity].
      exists "Apple Pie". split; [reflexivity|].
      exists (chars "APPLE "), []. reflexivity.
    + destruct (matches q (plain (rated "Apple Pie" 3))) eqn:E; [|reflexivity].
      apply Hm in E as (_ & E). discriminate E.
    + destruct (matches q (plain (rated "Cake" 5))) eqn:E; [|reflexivity].
      apply Hm in E as ((t & [= <-] & H') & _).
      destruct (not_contains_pie_cake H').
Defined.

(** C6, as stated, fails: the title [a.c] matches a record titled [abc],
    which does not contain the text [a.c]; and with a second parameter
    the filter does not match every record that contains the title text:
    [title=pie&rating=>=4.5] excludes an [Apple Pie] rated 3. *)
Lemma title_substring_counterexample :
  (exists q, build_query (with_title "a.c") [] = (inr q, [])
     /\ matches q (plain (titled "abc")) = true
     /\ ~ contains_ci "a.c" "abc")
  /\ (exists q, build_query pie_rated_request [] = (inr q, [])
        /\ matches q (plain (rated "Apple Pie" 3)) = false
        /\ contains_ci "pie" "Apple Pie").
Proof.
  split.
  - eexists. split; [reflexivity|]. split; [reflexivity|].
    intros (pre & post & E). no_occurrence E pre.
  - eexists. split; [reflexivity|]. split; [reflexivity|].
    exists (chars "APPLE "), []. reflexivity.
Qed.









End TextFilters.

(* ================================================================== *)
(** ** Requests and the operations they issue *)
(* ================================================================== *)

Section Purity.

Import Mongo Controller Props.
Local Open Scope string_scope.
Local Open Scope list_scope.

Lemma build_query_pure req :
  exists r, forall log, build_query req log = (r, log).
Proof.
  unfold build_query, bind.
  destruct (text_filter_pure Fcuisine (Req.cuisine req) []) as [[e|q0] H0].
  - exists (inl e). intro log. rewrite H0. reflexivity.
  - destruct (text_filter_pure Ftitle (Req.title req) q0) as [[e|q1] H1].
    + exists (inl e). intro log. rewrite H0, H1. reflexivity.
    + eexists. intro log. rewrite H0, H1. reflexivity.
Qed.

Lemma truthy_usable c : bare_zero c = false -> truthy c = usable c.
Proof.
  destruct c as [|op x|[| | |q]]; simpl; try reflexivity.
  intros ->. reflexivity.
Qed.

Lemma truthy_param_parse p :
  JS.truthy_param p && truthy (parseComparisonQuery p)
  = truthy (parseComparisonQuery p).
Proof. destruct p as [[|c s]|]; reflexivity. Qed.

End Purity.

(** Splits a search whose filter was built into the outcomes of its two
    store operations, on either path; likewise for a listing. *)
Ltac search_cases Hb :=
  unfold Controller.searchRecipes, Controller.searchRecipes_log,
    Controller.respond, Controller.searchRecipes_try, Mongo.bind;
  rewrite Hb; rewrite truthy_param_parse;
  destruct (Controller.truthy (Controller.parseComparisonQuery _)) eqn:Et;
  unfold Controller.Recipe_aggregate, Controller.Recipe_countDocuments,
    Controller.Recipe_find, Mongo.await;
  cbn [List.length app];
  (destruct (Mongo.serve (_ 0%nat) _) as [e0|r0] eqn:E0;
   [|cbn [List.length app]; destruct (Mongo.serve (_ 1%nat) _) as [e1|r1] eqn:E1]).

Ltac listing_cases :=
  unfold Controller.getRecipes, Controller.getRecipes_log,
    Controller.respond, Controller.getRecipes_try, Mongo.bind;
  unfold Controller.Recipe_countDocuments, Controller.Recipe_find, Mongo.await;
  cbn [List.length app];
  (destruct (Mongo.serve (_ 0%nat) _) as [e0|r0] eqn:E0;
   [|cbn [List.length app]; destruct (Mongo.serve (_ 1%nat) _) as [e1|r1] eqn:E1]).


Section Paths.

Import Mongo Controller Props.
Local Open Scope string_scope.
Local Open Scope list_scope.

Lemma path_of_search w req q :
  build_query req [] = (inr q, []) ->
  path_taken (searchRecipes_log w req)
  = Some (if truthy (parseComparisonQuery (Req.calories req)) then PathB else PathA).
Proof. intro Hb. search_cases Hb; reflexivity. Qed.

Lemma first_of_search w req q :
  build_query req [] = (inr q, []) ->
  hd_error (searchRecipes_log w req)
  = Some (let c := parseComparisonQuery (Req.calories req) in
          if truthy c then OpAggregate (aggregationPipeline q c ++ [Count_total])
          else OpCountDocuments q).
Proof. intro Hb. search_cases Hb; reflexivity. Qed.

(** C3, amended.  For a search whose text filters compile and whose
    calories parameter does not parse to the bare number zero: the
    aggregation path is taken, with the parsed calories predicate as the
    computed-field predicate, exactly when the parser yields an operator
    predicate or a bare number other than NaN; otherwise (parameter absent
    or empty, or no number in it) the direct path is taken.  All the
    operations of a request belong to one path, and the path depends on
    the calories parameter only. *)
Theorem path_selection (w : world) (req : Req.query) (q : query) :
  build_query req [] = (inr q, []) ->
  bare_zero (parseComparisonQuery (Req.calories req)) = false ->
  let c := parseComparisonQuery (Req.calories req) in
  let log := searchRecipes_log w req in
  (if usable c
   then path_taken log = Some PathB
        /\ hd_error log
           = Some (OpAggregate (aggregationPipeline q c ++ [Count_total]))
   else path_taken log = Some PathA
        /\ hd_error log = Some (OpCountDocuments q))
  /\ (forall w' req' q',
        build_query req' [] = (inr q', []) ->
        Req.calories req' = Req.calories req ->
        path_taken (searchRecipes_log w' req') = path_taken log).
Proof.
  intros Hb Hz c log. subst log. split.
  - rewrite (path_of_search w req q Hb), (first_of_search w req q Hb).
    cbv zeta. fold c. rewrite (truthy_usable c Hz).
    destruct (usable c); split; reflexivity.
  - intros w' req' q' Hb' Hc.
    rewrite (path_of_search w req q Hb), (path_of_search w' req' q' Hb'), Hc.
    reflexivity.
Qed.

Lemma path_selection_witness :
  (path_taken (searchRecipes_log (serving [recipe_A]) (with_calories "<=400"))
   = Some PathB
   /\ hd_error (searchRecipes_log (serving [recipe_A]) (with_calories "<=400"))
      = Some (OpAggregate
                (aggregationPipeline [] (Object Lte (JS.Fin 400)) ++ [Count_total])))
  /\ (path_taken (searchRecipes_log (serving [recipe_A]) (with_calories "abc"))
      = Some PathA)
  /\ (path_taken (searchRecipes_log (serving [recipe_A]) no_params) = Some PathA)
  /\ (path_taken (searchRecipes_log (serving [recipe_A]) (with_calories "380"))
      = Some PathB).
Proof.
  split; [|split; [|split]].
  - exact (proj1 (path_selection (serving [recipe_A]) (with_calories "<=400") []
                    eq_refl eq_refl)).
  - exact (proj1 (proj1 (path_selection (serving [recipe_A]) (with_calories "abc") []
                    eq_refl eq_refl))).
  - exact (proj1 (proj1 (path_selection (serving [recipe_A]) no_params []
                    eq_refl eq_refl))).
  - exact (proj1 (proj1 (path_selection (serving [recipe_A]) (with_calories "380") []
                    eq_refl eq_refl))).
Defined.

(** C3, as stated, fails: with [calories=abc] the parameter is present and
    the direct path is taken. *)
Lemma calories_present_counterexample :
  ~ (forall w req,
       Req.calories req <> None ->
       path_taken (searchRecipes_log w req) = Some PathB).
Proof.
  intro H.
  specialize (H (serving []) (with_calories "abc")).
  discriminate H. discriminate.
Qed.

(** C2, at the failing input.  The parser yields the bare number 0 for
    [rating=0]; the builder attaches nothing for it (nor for [==0]),
    whereas it attaches the exact-match predicate for [5] and the operator
    predicate for [>=0]; the search then returns records of any rating. *)
Theorem bare_zero_filter_dropped :
  parseComparisonQuery (Some "0") = Number (JS.Fin 0)
  /\ build_query (with_rating "0") [] = (inr [], [])
  /\ build_query (with_rating "==0") [] = (inr [], [])
  /\ build_query (with_rating "5") [] = (inr [(Frating, Equals (JS.Fin 5))], [])
  /\ build_query (with_rating ">=0") [] = (inr [(Frating, Op Gte (JS.Fin 0))], [])
  /\ searchRecipes (serving [rated "Toast" 0; rated "Pie" 4.8]) (with_rating "0")
     = Some (Ok200 {| count := 2; total := 2;
                      page := JS.Fin 1; totalPages := JS.Fin 1;
                      data := [plain (rated "Pie" 4.8); plain (rated "Toast" 0)] |}).
Proof. repeat split. Qed.

End Paths.

(* ================================================================== *)
(** ** Paging metadata and failures *)
(* ================================================================== *)

Section Responses.

Import Mongo Controller Props.
Local Open Scope string_scope.
Local Open Scope list_scope.

Lemma answer_fault_not_ok e b : answer (inl e) <> Some (Ok200 b).
Proof. destruct e; discriminate. Qed.

Lemma run_pipeline_app p1 : forall p2 docs,
  run_pipeline (p1 ++ p2) docs
  = match run_pipeline p1 docs with
    | inl e => inl e
    | inr mid => run_pipeline p2 mid
    end.
Proof.
  induction p1 as [|s p1 IH]; intros p2 docs; cbn [app run_pipeline].
  - reflexivity.
  - destruct (run_stage s docs); [reflexivity|]. apply IH.
Qed.

Lemma serve_inr {A} (o : outcome) (run : list Recipe -> result A) a :
  serve o run = inr a -> exists scan, o = Served scan /\ run scan = inr a.
Proof.
  destruct o as [scan|msg]; cbn [serve]; [|discriminate].
  intro H. exists scan. auto.
Qed.

Lemma take_length lim l n : take (Some n) l = lim -> (List.length lim <= n)%nat.
Proof. intros <-. cbn [take]. apply firstn_le_length. Qed.





Lemma or_default_NaN d : JS.or_default JS.NaN d = d.
Proof. reflexivity. Qed.

Lemma log_bound_search w req : (List.length (searchRecipes_log w req) <= 2)%nat.
Proof.
  destruct (build_query_pure req) as [[e|q] Hb]; specialize (Hb []).
  - unfold searchRecipes_log, respond, searchRecipes_try, bind. rewrite Hb.
    cbn. lia.
  - search_cases Hb; cbn; lia.
Qed.






End Responses.

(* ================================================================== *)
(** ** Ordering and repeated requests *)
(* ================================================================== *)

Section Ordering.

Import Mongo Controller Props.
Local Open Scope string_scope.
Local Open Scope list_scope.

Lemma key_ltb_Qlt x y : key_ltb (Some x) (Some y) = true <-> (x < y)%Q.
Proof.
  cbn [key_ltb]. rewrite andb_true_iff, negb_true_iff, Qle_bool_iff.
  split.
  - intros [Hle Hne]. apply Qle_lteq in Hle as [Hlt|Heq]; [exact Hlt|].
    apply Qeq_bool_iff in Heq. congruence.
  - intro Hlt. split; [apply Qlt_le_weak; exact Hlt|].
    destruct (Qeq_bool x y) eqn:E; [|reflexivity].
    apply Qeq_bool_iff in E. rewrite E in Hlt.
    destruct (Qlt_irrefl _ Hlt).
Qed.

Lemma key_ltb_trans a b c :
  key_ltb a b = true -> key_ltb b c = true -> key_ltb a c = true.
Proof.
  destruct a as [x|], b as [y|], c as [z|]; try discriminate; try reflexivity.
  rewrite !key_ltb_Qlt. apply Qlt_trans.
Qed.

Lemma key_ltb_asym a b : key_ltb a b = true -> key_ltb b a = false.
Proof.
  destruct a as [x|], b as [y|]; try discriminate; try reflexivity.
  intro H. destruct (key_ltb (Some y) (Some x)) eqn:E; [|reflexivity].
  apply key_ltb_Qlt in H, E.
  destruct (Qlt_irrefl _ (Qlt_trans _ _ _ H E)).
Qed.

Lemma same_key_sym a b : same_key a b = same_key b a.
Proof. unfold same_key. apply andb_comm. Qed.

Lemma insert_desc_ordered a b l :
  key_ltb (rating_key a) (rating_key b) = true ->
  insert_desc a (insert_desc b l) = insert_desc b (insert_desc a l).
Proof.
  intro Hab. pose proof (key_ltb_asym _ _ Hab) as Hba.
  induction l as [|h t IH]; cbn [insert_desc].
  - rewrite Hab, Hba. reflexivity.
  - destruct (key_ltb (rating_key b) (rating_key h)) eqn:Hbh.
    + rewrite (key_ltb_trans _ _ _ Hab Hbh). cbn [insert_desc].
      rewrite Hbh, (key_ltb_trans _ _ _ Hab Hbh), IH. reflexivity.
    + cbn [insert_desc]. rewrite Hab.
      destruct (key_ltb (rating_key a) (rating_key h)) eqn:Hah;
        cbn [insert_desc]; rewrite ?Hbh, ?Hba, ?Hah; reflexivity.
Qed.

Lemma insert_desc_comm a b l :
  same_key (rating_key a) (rating_key b) = false ->
  insert_desc a (insert_desc b l) = insert_desc b (insert_desc a l).
Proof.
  unfold same_key. intro H.
  destruct (key_ltb (rating_key a) (rating_key b)) eqn:Hab.
  - apply insert_desc_ordered. exact Hab.
  - destruct (key_ltb (rating_key b) (rating_key a)) eqn:Hba; [|discriminate H].
    symmetry. apply insert_desc_ordered. exact Hba.
Qed.

Lemma distinct_keys_perm l l' :
  Permutation l l' -> distinct_keys l = true -> distinct_keys l' = true.
Proof.
  induction 1 as [|k l l' P IH|a b l|l l' l'' P1 IH1 P2 IH2];
    cbn [distinct_keys]; intro H.
  - reflexivity.
  - apply andb_prop in H as [Hk Hl]. apply andb_true_intro. split.
    + rewrite forallb_forall in *. intros x Hx. apply Hk.
      apply (Permutation_in _ (Permutation_sym P)). exact Hx.
    + apply IH. exact Hl.
  - cbn [forallb] in *. rewrite (same_key_sym a b).
    destruct (negb (same_key b a)); [|discriminate H]. cbn [andb] in *.
    apply andb_prop in H as [Hb H]. apply andb_prop in H as [Ha Hl].
    rewrite Ha, Hb, Hl. reflexivity.
  - auto.
Qed.

Lemma sort_perm l l' :
  Permutation l l' ->
  distinct_keys (map rating_key l) = true ->
  sort_rating_desc l = sort_rating_desc l'.
Proof.
  induction 1 as [|d l l' P IH|a b l|l l' l'' P1 IH1 P2 IH2];
    cbn [map distinct_keys sort_rating_desc fold_right]; intro H.
  - reflexivity.
  - apply andb_prop in H as [_ Hl]. fold (sort_rating_desc l).
    fold (sort_rating_desc l'). rewrite (IH Hl). reflexivity.
  - cbn [forallb] in H. apply andb_prop in H as [H _].
    apply andb_prop in H as [H _]. apply negb_true_iff in H.
    rewrite same_key_sym in H. apply insert_desc_comm.
    rewrite same_key_sym. exact H.
  - rewrite (IH1 H). apply IH2.
    apply (distinct_keys_perm (map rating_key l)); [|exact H].
    apply Permutation_map. exact P1.
Qed.

Lemma forallb_filter {A} (p f : A -> bool) l :
  forallb p l = true -> forallb p (filter f l) = true.
Proof.
  rewrite !forallb_forall. intros H x Hx. apply H.
  apply filter_In in Hx as [Hx _]. exact Hx.
Qed.

Lemma distinct_keys_filter (f : doc -> bool) l :
  distinct_keys (map rating_key l) = true ->
  distinct_keys (map rating_key (filter f l)) = true.
Proof.
  induction l as [|d l IH]; cbn [map filter distinct_keys]; [reflexivity|].
  intro H. apply andb_prop in H as [Hd Hl].
  destruct (f d); cbn [map distinct_keys]; [|apply IH; exact Hl].
  apply andb_true_intro. split; [|apply IH; exact Hl].
  rewrite forallb_forall in *. intros k Hk. apply Hd.
  apply in_map_iff in Hk as (x & <- & Hx). apply in_map.
  apply filter_In in Hx as [Hx _]. exact Hx.
Qed.

Lemma Permutation_filter' {A} (f : A -> bool) l l' :
  Permutation l l' -> Permutation (filter f l) (filter f l').
Proof.
  induction 1 as [|x l l' P IH|a b l|l l' l'' P1 IH1 P2 IH2]; cbn [filter].
  - constructor.
  - destruct (f x); [apply perm_skip|]; exact IH.
  - destruct (f a), (f b); try apply Permutation_refl.
    apply perm_swap.
  - eapply Permutation_trans; eassumption.
Qed.

Lemma map_result_inr e l : forall out,
  map_result (set_caloriesValue e) l = inr out ->
  out = map (with_caloriesValue e) l.
Proof.
  induction l as [|d l IH]; cbn [map_result map]; intros out H.
  - injection H as <-. reflexivity.
  - unfold with_caloriesValue at 1.
    destruct (set_caloriesValue e d) as [f|d']; [discriminate H|].
    destruct (map_result (set_caloriesValue e) l) as [f|ds]; [discriminate H|].
    injection H as <-. rewrite (IH ds eq_refl). reflexivity.
Qed.

Lemma pipeline_reduced q c docs mid :
  run_pipeline (aggregationPipeline q c) docs = inr mid ->
  mid = reduced q c docs.
Proof.
  unfold aggregationPipeline, reduced. cbn [run_pipeline run_stage].
  destruct (map_result _ _) as [f|ds] eqn:E; [discriminate|].
  apply map_result_inr in E. subst ds. intros [= <-]. reflexivity.
Qed.

Lemma rating_key_with_caloriesValue e d :
  rating_key (with_caloriesValue e d) = rating_key d.
Proof.
  unfold with_caloriesValue, set_caloriesValue.
  destruct d as [r cv|n]; destruct (eval e _); reflexivity.
Qed.

Lemma rating_key_unset d : rating_key (unset_caloriesValue d) = rating_key d.
Proof. destruct d; reflexivity. Qed.

Lemma rating_key_plain r : rating_key (plain r) = rating r.
Proof. unfold rating_key. cbn. destruct (rating r); reflexivity. Qed.

Lemma keys_plain scan : map rating_key (map plain scan) = map rating scan.
Proof. rewrite map_map. apply map_ext. apply rating_key_plain. Qed.

Lemma selected_perm q c s s' :
  Permutation s s' -> Permutation (selected q c s) (selected q c s').
Proof.
  intro P. unfold selected, reduced. destruct (truthy c).
  - apply Permutation_map, Permutation_filter', Permutation_map,
      Permutation_filter', Permutation_map. exact P.
  - apply Permutation_filter', Permutation_map. exact P.
Qed.

Lemma selected_keys q c s :
  distinct_ratings s = true ->
  distinct_keys (map rating_key (selected q c s)) = true.
Proof.
  unfold distinct_ratings. rewrite <- keys_plain. intro H.
  unfold selected, reduced. destruct (truthy c).
  - rewrite map_map.
    rewrite (map_ext _ rating_key (fun d => rating_key_unset d)).
    apply distinct_keys_filter. rewrite map_map.
    rewrite (map_ext _ rating_key (fun d => rating_key_with_caloriesValue _ d)).
    apply distinct_keys_filter. exact H.
  - apply distinct_keys_filter. exact H.
Qed.

(** A successful search, read back: what each store operation was served
    from and how the body derives from it. *)
Lemma search_inv w req b :
  searchRecipes w req = Some (Ok200 b) ->
  exists q s0 s1 sk lim,
    let c := parseComparisonQuery (Req.calories req) in
    build_query req [] = (inr q, [])
    /\ w 0%nat = Served s0 /\ w 1%nat = Served s1
    /\ page_skip c (search_skip req) = inr sk
    /\ page_limit c (JS.parseInt_value (param_or (Req.limit req) 15)) = inr lim
    /\ b = {| count := List.length (take lim (skipn sk (sort_rating_desc (selected q c s1))));
              total := List.length (selected q c s0);
              page := JS.parseInt_value (param_or (Req.page req) 1);
              totalPages :=
                JS.ceil (JS.div (JS.of_nat (List.length (selected q c s0)))
                           (JS.to_number (param_or (Req.limit req) 15)));
              data := take lim (skipn sk (sort_rating_desc (selected q c s1))) |}.
Proof.
  destruct (build_query_pure req) as [[e|q] Hb]; specialize (Hb []).
  - unfold searchRecipes, respond, searchRecipes_try, bind. rewrite Hb.
    intro H. destruct (answer_fault_not_ok _ _ H).
  - search_cases Hb; cbn [fst]; intro H;
      try (destruct (answer_fault_not_ok _ _ H)); injection H as <-;
      apply serve_inr in E0 as (s0 & W0 & R0);
      apply serve_inr in E1 as (s1 & W1 & R1);
      exists q, s0, s1; unfold page_skip, page_limit, selected; cbv zeta;
      rewrite Et.
    + unfold aggregate in R0, R1. rewrite run_pipeline_app in R0, R1.
      destruct (run_pipeline _ (map plain s0)) as [f|mid0] eqn:M0; [discriminate R0|].
      destruct (run_pipeline _ (map plain s1)) as [f|mid1] eqn:M1; [discriminate R1|].
      apply pipeline_reduced in M0, M1. subst mid0 mid1.
      cbn [run_pipeline run_stage] in R0, R1. fold (search_skip req) in R1.
      destruct (skip_stage_arg (search_skip req)) as [f|sk]; [discriminate R1|].
      destruct (limit_stage_arg _) as [f|k]; [discriminate R1|].
      injection R1 as <-. injection R0 as <-.
      exists sk, (Some k). repeat split; try assumption.
      cbn [take]. 
      destruct (reduced q _ (map plain s0)); reflexivity.
    + unfold countDocuments in R0. unfold find_sorted in R1.
      destruct (cast_error q); [discriminate R0|]. injection R0 as <-.
      fold (search_skip req) in R1.
      destruct (find_skip_arg (search_skip req)) as [f|sk]; [discriminate R1|].
      destruct (find_limit_arg _) as [f|lim]; [discriminate R1|].
      injection R1 as <-.
      exists sk, lim. repeat split; assumption.
Qed.

Lemma listing_inv w req b :
  getRecipes w req = Some (Ok200 b) ->
  exists s0 s1 sk lim,
    w 0%nat = Served s0 /\ w 1%nat = Served s1
    /\ find_skip_arg
         (JS.mul (JS.sub (listing_page req) (JS.of_Z 1)) (listing_limit req))
       = inr sk
    /\ find_limit_arg (listing_limit req) = inr lim
    /\ b = {| count := List.length (take lim (skipn sk (sort_rating_desc (selected [] Null s0))));
              total := List.length (selected [] Null s1);
              page := listing_page req;
              totalPages :=
                JS.ceil (JS.div (JS.of_nat (List.length (selected [] Null s1)))
                           (listing_limit req));
              data := take lim (skipn sk (sort_rating_desc (selected [] Null s0))) |}.
Proof.
  listing_cases; cbn [fst]; intro H;
    try (destruct (answer_fault_not_ok _ _ H)); injection H as <-.
  apply serve_inr in E0 as (s0 & W0 & R0).
  apply serve_inr in E1 as (s1 & W1 & R1).
  unfold countDocuments in R1. cbn [cast_error] in R1. injection R1 as <-.
  unfold find_sorted in R0. cbn [cast_error] in R0.
  fold (listing_page req) in R0. fold (listing_limit req) in R0.
  destruct (find_skip_arg _) as [f|sk] eqn:Es; [discriminate R0|].
  destruct (find_limit_arg _) as [f|lim] eqn:El; [discriminate R0|].
  injection R0 as <-.
  exists s0, s1, sk, lim. repeat split; assumption.
Qed.

Lemma selected_same q c s s' docs :
  Permutation s docs -> Permutation s' docs ->
  List.length (selected q c s) = List.length (selected q c s')
  /\ (distinct_ratings docs = true ->
      sort_rating_desc (selected q c s) = sort_rating_desc (selected q c s')).
Proof.
  intros P P'.
  assert (PP : Permutation s s')
    by (apply (Permutation_trans P), Permutation_sym, P').
  split.
  - apply Permutation_length, selected_perm, PP.
  - intro D. apply sort_perm; [apply selected_perm, PP|].
    apply selected_keys. unfold distinct_ratings in *.
    apply (distinct_keys_perm (map rating docs)); [|exact D].
    apply Permutation_map, Permutation_sym, P.
Qed.

(** C8, amended.  Two executions of the same request against a store
    holding the same records, when both succeed, report the same total
    and paging metadata; they return the same data whenever no two
    records of the store have the same rating.  Records with equal
    ratings come in the order the store enumerates them: no secondary
    sort key is applied. *)
Theorem repeated_request (w1 w2 : world) (docs : list Recipe)
  (req : Req.query) (b1 b2 : body) :
  holding w1 docs -> holding w2 docs ->
  (searchRecipes w1 req = Some (Ok200 b1) ->
   searchRecipes w2 req = Some (Ok200 b2) ->
   total b1 = total b2 /\ page b1 = page b2 /\ totalPages b1 = totalPages b2
   /\ (distinct_ratings docs = true -> b1 = b2))
  /\ (getRecipes w1 req = Some (Ok200 b1) ->
      getRecipes w2 req = Some (Ok200 b2) ->
      total b1 = total b2 /\ page b1 = page b2 /\ totalPages b1 = totalPages b2
      /\ (distinct_ratings docs = true -> b1 = b2)).
Proof.
  intros H1 H2. split; intros R1 R2.
  - apply search_inv in R1 as (q & s0 & s1 & sk & lim & Hq & W0 & W1 & Hs & Hl & ->).
    apply search_inv in R2 as (q' & t0 & t1 & sk' & lim' & Hq' & V0 & V1 & Hs' & Hl' & ->).
    cbv zeta in *.
    rewrite Hq in Hq'. injection Hq' as <-.
    rewrite Hs in Hs'. injection Hs' as <-.
    rewrite Hl in Hl'. injection Hl' as <-.
    set (c := parseComparisonQuery (Req.calories req)).
    destruct (selected_same q c s0 t0 docs (H1 _ _ W0) (H2 _ _ V0)) as [L0 _].
    destruct (selected_same q c s1 t1 docs (H1 _ _ W1) (H2 _ _ V1)) as [_ S1].
    cbn [total page totalPages]. rewrite L0.
    repeat split. intro D. rewrite (S1 D). reflexivity.
  - apply listing_inv in R1 as (s0 & s1 & sk & lim & W0 & W1 & Hs & Hl & ->).
    apply listing_inv in R2 as (t0 & t1 & sk' & lim' & V0 & V1 & Hs' & Hl' & ->).
    rewrite Hs in Hs'. injection Hs' as <-.
    rewrite Hl in Hl'. injection Hl' as <-.
    destruct (selected_same [] Null s0 t0 docs (H1 _ _ W0) (H2 _ _ V0)) as [_ S0].
    destruct (selected_same [] Null s1 t1 docs (H1 _ _ W1) (H2 _ _ V1)) as [L1 _].
    cbn [total page totalPages]. rewrite L1.
    repeat split. intro D. rewrite (S0 D). reflexivity.
Qed.




Lemma holding_serving scan docs : Permutation scan docs -> holding (serving scan) docs.
Proof. intros P n s [= <-]. exact P. Qed.

(** C8, as stated, fails: two records share a rating, the store
    enumerates them in either order, and the first page of size one
    differs between two executions of the same request. *)
Lemma tie_order_counterexample :
  holding (serving [tie_X; tie_Y]) [tie_X; tie_Y]
  /\ holding (serving [tie_Y; tie_X]) [tie_X; tie_Y]
  /\ exists b1 b2,
       searchRecipes (serving [tie_X; tie_Y]) first_of_one = Some (Ok200 b1)
       /\ searchRecipes (serving [tie_Y; tie_X]) first_of_one = Some (Ok200 b2)
       /\ data b1 = [plain tie_X] /\ data b2 = [plain tie_Y]
       /\ data b1 <> data b2.
Proof.
  split; [|split].
  - apply holding_serving, Permutation_refl.
  - apply holding_serving, perm_swap.
  - eexists. eexists. split; [reflexivity|]. split; [reflexivity|].
    split; [reflexivity|]. split; [reflexivity|]. discriminate.
Qed.


Lemma repeated_request_witness :
  exists b1 b2,
    searchRecipes (serving [recipe_A; recipe_B; recipe_C]) combined_request
    = Some (Ok200 b1)
    /\ searchRecipes (serving [recipe_C; recipe_B; recipe_A]) combined_request
       = Some (Ok200 b2)
    /\ b1 = b2.
Proof.
  eexists. eexists. split; [reflexivity|]. split; [reflexivity|].
  match goal with |- ?b1 = ?b2 =>
    destruct (repeated_request (serving [recipe_A; recipe_B; recipe_C])
                (serving [recipe_C; recipe_B; recipe_A])
                [recipe_A; recipe_B; recipe_C] combined_request b1 b2)
      as [H _]
  end.
  - apply holding_serving, Permutation_refl.
  - apply holding_serving.
    apply (Permutation_trans (l' := [recipe_B; recipe_C; recipe_A])).
    + apply perm_swap.
    + apply (Permutation_trans (l' := [recipe_B; recipe_A; recipe_C])).
      * apply perm_skip, perm_swap.
      * apply perm_swap.
  - destruct (H eq_refl eq_refl) as (_ & _ & _ & D). apply D. reflexivity.
Defined.

End Ordering.

(* ================================================================== *)
(** ** Further properties: the order of the records returned *)
(* ================================================================== *)

Section Sorting.

Import Mongo Controller Props Terms.
Local Open Scope string_scope.
Local Open Scope list_scope.

Lemma key_ltb_cotrans a b c :
  key_ltb a c = true -> key_ltb a b = true \/ key_ltb b c = true.
Proof.
  destruct a as [x|], b as [y|], c as [z|]; cbn [key_ltb]; auto; try discriminate.
  - intro H. apply key_ltb_Qlt in H.
    destruct (Qlt_le_dec x y) as [Hxy|Hyx].
    + left. apply key_ltb_Qlt in Hxy. exact Hxy.
    + right. apply (key_ltb_Qlt y z). apply (Qle_lt_trans _ x); assumption.
Qed.

Lemma not_below_trans a b c : not_below a b -> not_below b c -> not_below a c.
Proof.
  unfold not_below. intros Hab Hbc.
  destruct (key_ltb (rating_key a) (rating_key c)) eqn:E; [|reflexivity].
  destruct (key_ltb_cotrans _ (rating_key b) _ E); congruence.
Qed.

Lemma insert_desc_In d x l : In x (insert_desc d l) <-> x = d \/ In x l.
Proof.
  induction l as [|h t IH]; cbn [insert_desc].
  - cbn. intuition.
  - destruct (key_ltb (rating_key d) (rating_key h)); cbn [In]; [rewrite IH|];
      intuition.
Qed.

Lemma insert_desc_sorted d l : sorted_desc l -> sorted_desc (insert_desc d l).
Proof.
  unfold sorted_desc. induction 1 as [|h t St IH Fh]; cbn [insert_desc].
  - constructor; constructor.
  - destruct (key_ltb (rating_key d) (rating_key h)) eqn:E.
    + constructor; [exact IH|].
      apply Forall_forall. intros x Hx. apply insert_desc_In in Hx as [->|Hx].
      * unfold not_below. apply key_ltb_asym. exact E.
      * rewrite Forall_forall in Fh. apply Fh. exact Hx.
    + constructor; [constructor; assumption|].
      constructor; [exact E|].
      apply Forall_forall. intros x Hx. rewrite Forall_forall in Fh.
      apply (not_below_trans d h x); [exact E|apply Fh; exact Hx].
Qed.

Lemma sort_sorted l : sorted_desc (sort_rating_desc l).
Proof.
  induction l as [|d l IH]; cbn [sort_rating_desc fold_right].
  - constructor.
  - apply insert_desc_sorted. exact IH.
Qed.

Lemma In_firstn {A} n (l : list A) x : In x (firstn n l) -> In x l.
Proof.
  intro H. rewrite <- (firstn_skipn n l). apply in_or_app. left. exact H.
Qed.



Lemma sorted_skipn n : forall l, sorted_desc l -> sorted_desc (skipn n l).
Proof.
  induction n as [|n IH]; intros l H; [exact H|].
  destruct l as [|h t]; [exact H|]. cbn [skipn]. apply IH.
  inversion H; assumption.
Qed.

Lemma sorted_firstn n : forall l, sorted_desc l -> sorted_desc (firstn n l).
Proof.
  induction n as [|n IH]; intros l H; [constructor|].
  destruct l as [|h t]; [constructor|]. cbn [firstn].
  inversion H as [|? ? St Fh]; subst. constructor; [apply IH; exact St|].
  apply Forall_forall. intros x Hx. rewrite Forall_forall in Fh. apply Fh.
  apply (In_firstn n). exact Hx.
Qed.

Lemma sorted_take lim l : sorted_desc l -> sorted_desc (take lim l).
Proof. destruct lim as [n|]; cbn [take]; [apply sorted_firstn|auto]. Qed.

Lemma sorted_missing_last l :
  sorted_desc l ->
  forall pre d post, l = pre ++ d :: post -> rating_key d = None ->
  Forall (fun d' => rating_key d' = None) post.
Proof.
  intros H pre. revert l H.
  induction pre as [|p pre IH]; intros l H d post -> Hd.
  - inversion H as [|? ? _ Fh]; subst.
    apply Forall_forall. intros x Hx. rewrite Forall_forall in Fh.
    specialize (Fh x Hx). unfold not_below in Fh. rewrite Hd in Fh.
    destruct (rating_key x); [discriminate Fh|reflexivity].
  - inversion H as [|? ? St _]; subst. apply (IH _ St d post eq_refl Hd).
Qed.

(** X1. The records of a successful answer, of the listing and of the
    search alike, are in descending order of rating: no record is
    followed by one with a higher rating, and a record without rating is
    followed only by records without rating. *)
Theorem data_sorted (w : world) (req : Req.query) (b : body) :
  searchRecipes w req = Some (Ok200 b) \/ getRecipes w req = Some (Ok200 b) ->
  sorted_desc (data b)
  /\ (forall pre d post,
        data b = pre ++ d :: post -> rating_key d = None ->
        Forall (fun d' => rating_key d' = None) post).
Proof.
  intro H.
  assert (S : sorted_desc (data b)).
  { destruct H as [H|H].
    - apply search_inv in H as (q & s0 & s1 & sk & lim & _ & _ & _ & _ & _ & ->).
      cbn [data]. apply sorted_take, sorted_skipn, sort_sorted.
    - apply listing_inv in H as (s0 & s1 & sk & lim & _ & _ & _ & _ & ->).
      cbn [data]. apply sorted_take, sorted_skipn, sort_sorted. }
  split; [exact S|]. apply sorted_missing_last. exact S.
Qed.

Lemma data_sorted_witness : sorted_desc (data listing_three).
Proof.
  apply (data_sorted (serving three) no_params listing_three).
  right. reflexivity.
Defined.

End Sorting.

(* ================================================================== *)
(** ** Further properties: what a search returns *)
(* ================================================================== *)

Section Selection.

Import Mongo Controller Props Terms.
Local Open Scope string_scope.
Local Open Scope list_scope.

Lemma selected_plain q c s :
  selected q c s = map plain (filter (qualifies q c) s).
Proof.
  unfold selected, qualifies. destruct (truthy c) eqn:Et.
  - unfold reduced. induction s as [|r s IH]; [reflexivity|].
    cbn [map filter]. destruct (matches q (plain r)) eqn:Em; cbn [andb map filter].
    + rewrite matches_single.
      unfold calories_ok, with_caloriesValue, set_caloriesValue, plain at 1 2 3.
      fold (plain r). destruct (eval caloriesValue_expr (plain r)) as [f|v].
      * cbn [get plain]. destruct c; try discriminate Et; cbn [as_cond holds];
          exact IH.
      * cbn [get]. destruct (holds (as_cond c) v); cbn [map unset_caloriesValue];
          [fold (plain r); f_equal|]; exact IH.
    + exact IH.
  - induction s as [|r s IH]; [reflexivity|].
    cbn [map filter]. rewrite andb_true_r.
    destruct (matches q (plain r)); cbn [map]; [f_equal|]; exact IH.
Qed.

Lemma insert_desc_length d l : List.length (insert_desc d l) = S (List.length l).
Proof.
  induction l as [|h t IH]; cbn [insert_desc]; [reflexivity|].
  destruct (key_ltb _ _); cbn [List.length]; [rewrite IH|]; reflexivity.
Qed.

Lemma sort_length l : List.length (sort_rating_desc l) = List.length l.
Proof.
  induction l as [|d l IH]; [reflexivity|].
  cbn [sort_rating_desc fold_right]. rewrite insert_desc_length.
  fold (sort_rating_desc l). rewrite IH. reflexivity.
Qed.





End Selection.

(* ================================================================== *)
(** ** Further properties: paging *)
(* ================================================================== *)

Section Paging.

Import Mongo Controller Props Terms.
Local Open Scope string_scope.
Local Open Scope list_scope.

Lemma Qred_inject_Z z : Qred (inject_Z z) = inject_Z z.
Proof.
  unfold inject_Z, Qred.
  pose proof (Z.ggcd_gcd z 1) as Hg.
  pose proof (Z.ggcd_correct_divisors z 1) as Hd.
  destruct (Z.ggcd z 1) as [g [a b]]. cbn [fst snd] in *.
  rewrite Z.gcd_1_r in Hg. subst g. destruct Hd as [Ha Hb].
  rewrite Z.mul_1_l in Ha, Hb. subst a b. reflexivity.
Qed.

Lemma fin_of_Z q z : (q == inject_Z z)%Q -> JS.fin q = JS.of_Z z.
Proof.
  intro H. unfold JS.fin, JS.of_Z. f_equal.
  rewrite (Qred_complete _ _ H). apply Qred_inject_Z.
Qed.

Lemma sub_of_Z a b : JS.sub (JS.of_Z a) (JS.of_Z b) = JS.of_Z (a - b).
Proof.
  cbn [JS.sub JS.of_Z]. apply fin_of_Z. unfold Qminus.
  rewrite <- inject_Z_opp, <- inject_Z_plus. reflexivity.
Qed.

Lemma mul_of_Z a b : JS.mul (JS.of_Z a) (JS.of_Z b) = JS.of_Z (a * b).
Proof.
  cbn [JS.mul JS.of_Z]. apply fin_of_Z. rewrite <- inject_Z_mult. reflexivity.
Qed.

Lemma is_zero_inject_Z z : JS.is_zero (inject_Z z) = (z =? 0)%Z.
Proof.
  unfold JS.is_zero. destruct (Qeq_bool (inject_Z z) 0) eqn:E.
  - apply Qeq_bool_iff in E. unfold Qeq in E. cbn in E.
    symmetry. apply Z.eqb_eq. lia.
  - symmetry. apply Z.eqb_neq. intros ->. discriminate E.
Qed.

Lemma is_integer_inject_Z z : is_integer (inject_Z z) = true.
Proof. unfold is_integer. rewrite Qfloor_Z. apply Qeq_bool_iff. reflexivity. Qed.

Lemma find_skip_arg_of_Z z :
  (0 <= z)%Z -> find_skip_arg (JS.of_Z z) = inr (Z.to_nat z).
Proof.
  intro H. unfold find_skip_arg, JS.of_Z. rewrite is_integer_inject_Z.
  assert (Qle_bool 0 (inject_Z z) = true) as ->.
  { apply Qle_bool_iff. unfold Qle. cbn. lia. }
  rewrite Qfloor_Z. reflexivity.
Qed.

Lemma find_skip_arg_negative z :
  (z < 0)%Z ->
  find_skip_arg (JS.of_Z z) = inl (Thrown "skip value must be non-negative").
Proof.
  intro H. unfold find_skip_arg, JS.of_Z. rewrite is_integer_inject_Z.
  destruct (Qle_bool 0 (inject_Z z)) eqn:E; [|reflexivity].
  apply Qle_bool_iff in E. unfold Qle in E. cbn in E. lia.
Qed.

Lemma find_limit_arg_of_Z z :
  (0 < z)%Z -> find_limit_arg (JS.of_Z z) = inr (Some (Z.to_nat z)).
Proof.
  intro H. unfold find_limit_arg, JS.of_Z. rewrite is_integer_inject_Z.
  rewrite is_zero_inject_Z. destruct (Z.eqb_spec z 0); [lia|].
  rewrite Qfloor_Z. do 2 f_equal. rewrite Zabs2Nat.abs_nat_nonneg by lia.
  reflexivity.
Qed.

Lemma or_default_of_Z z d : z <> 0%Z -> JS.or_default (JS.of_Z z) d = JS.of_Z z.
Proof.
  intro H. unfold JS.or_default, JS.of_Z, JS.truthy_number.
  rewrite is_zero_inject_Z. destruct (Z.eqb_spec z 0); [contradiction|reflexivity].
Qed.

Lemma ceil_div_of_Z n l :
  (0 < l)%Z ->
  JS.ceil (JS.div (JS.of_Z n) (JS.of_Z l)) = JS.of_Z ((n + l - 1) / l).
Proof.
  intro H. unfold JS.div, JS.of_Z. rewrite !is_zero_inject_Z.
  destruct (Z.eqb_spec l 0); [lia|].
  unfold JS.fin, JS.ceil, JS.of_Z. do 2 f_equal.
  rewrite (Qceiling_comp _ _ (Qred_correct _)).
  destruct l as [|p|p]; try lia.
  unfold Qceiling, Qfloor, Qdiv, Qmult, Qinv, Qopp, inject_Z. cbn [Qnum Qden].
  rewrite Z.mul_1_r, Pos.mul_1_l.
  apply Z.div_unique with (r := (Z.pos p - 1 - (- n) mod Z.pos p)%Z).
  - left. pose proof (Z.mod_pos_bound (- n) (Z.pos p) ltac:(lia)). lia.
  - pose proof (Z.div_mod (- n) (Z.pos p) ltac:(lia)). lia.
Qed.

Lemma firstn_add {A} (a b : nat) : forall l : list A,
  firstn (a + b) l = firstn a l ++ firstn b (skipn a l).
Proof.
  induction a as [|a IH]; intro l; [reflexivity|].
  destruct l as [|x l]; cbn [Nat.add firstn skipn app].
  - rewrite firstn_nil. reflexivity.
  - rewrite IH. reflexivity.
Qed.

Lemma chunks_firstn {A} (L k : nat) (l : list A) :
  flat_map (fun i => firstn L (skipn (i * L) l)) (seq 0 k) = firstn (k * L) l.
Proof.
  induction k as [|k IH]; [reflexivity|].
  rewrite seq_S, flat_map_app, IH. cbn [flat_map Nat.add].
  rewrite app_nil_r. rewrite <- firstn_add. f_equal. lia.
Qed.

Lemma sort_docs_perm s docs :
  Permutation s docs -> distinct_ratings docs = true ->
  sort_rating_desc (map plain s) = sort_rating_desc (map plain docs).
Proof.
  intros P D. apply sort_perm; [apply Permutation_map, P|].
  rewrite keys_plain. apply (distinct_keys_perm (map rating docs)); [|exact D].
  apply Permutation_map, Permutation_sym, P.
Qed.

Lemma listing_answer (w : world) (docs s0 s1 : list Recipe) (req : Req.query)
  (p L : Z) :
  w 0%nat = Served s0 -> w 1%nat = Served s1 ->
  Permutation s0 docs -> Permutation s1 docs ->
  distinct_ratings docs = true ->
  JS.parseInt_value (param (Req.page req)) = JS.of_Z p ->
  JS.parseInt_value (param (Req.limit req)) = JS.of_Z L ->
  (1 <= p)%Z -> (1 <= L)%Z ->
  let shown := firstn (Z.to_nat L)
                 (skipn (Z.to_nat (p - 1) * Z.to_nat L)
                    (sort_rating_desc (map plain docs))) in
  getRecipes w req
  = Some (Ok200 {| count := List.length shown;
                   total := List.length docs;
                   page := JS.of_Z p;
                   totalPages :=
                     JS.of_Z ((Z.of_nat (List.length docs) + L - 1) / L);
                   data := shown |}).
Proof.
  intros W0 W1 P0 P1 D Hp Hl Hp1 HL1 shown.
  unfold getRecipes, respond, getRecipes_try, bind, Recipe_find,
    Recipe_countDocuments, await.
  rewrite Hp, Hl. rewrite !or_default_of_Z by lia.
  rewrite sub_of_Z, mul_of_Z.
  cbn [List.length app]. rewrite W0, W1. cbn [serve].
  unfold find_sorted, countDocuments. cbn [cast_error].
  rewrite find_skip_arg_of_Z by nia. rewrite find_limit_arg_of_Z by lia.
  cbn [matches forallb filter]. 
  assert (F : forall l : list doc, filter (fun _ => true) l = l).
  { induction l as [|x l IH]; cbn; [|rewrite IH]; reflexivity. }
  rewrite !F. rewrite (sort_docs_perm _ _ P0 D).
  rewrite length_map, (Permutation_length P1).
  unfold ret. cbn [fst answer take].
  unfold JS.of_nat. rewrite ceil_div_of_Z by lia.
  replace (Z.to_nat ((p - 1) * L)) with (Z.to_nat (p - 1) * Z.to_nat L)%nat
    by (rewrite Z2Nat.inj_mul by lia; reflexivity).
  reflexivity.
Qed.

Lemma flat_map_ext_seq {B} (f g : nat -> list B) k :
  (forall i, (i < k)%nat -> f i = g i) ->
  flat_map f (seq 0 k) = flat_map g (seq 0 k).
Proof.
  intro H. induction k as [|k IH]; [reflexivity|].
  rewrite seq_S, !flat_map_app. cbn [flat_map Nat.add].
  rewrite IH by (intros; apply H; lia). rewrite (H k) by lia. reflexivity.
Qed.

(** X3. The pages of the listing fit together: against a store holding
    [docs] (with pairwise distinct ratings, so that the order is
    determined), the records of pages 1 to [k] of size [L], one after the
    other, are the first [k * L] records of the whole collection sorted by
    rating; no record is repeated or skipped, and once [k * L] reaches the
    size of the collection they are all of it. *)
Theorem listing_pagination (docs : list Recipe) (L : Z) (k : nat)
  (ws : nat -> world) (reqs : nat -> Req.query) :
  distinct_ratings docs = true ->
  (1 <= L)%Z ->
  (forall i, (i < k)%nat ->
     holding (ws i) docs
     /\ (exists s0 s1, ws i 0%nat = Served s0 /\ ws i 1%nat = Served s1)
     /\ JS.parseInt_value (param (Req.page (reqs i))) = JS.of_Z (Z.of_nat i + 1)
     /\ JS.parseInt_value (param (Req.limit (reqs i))) = JS.of_Z L) ->
  let all := sort_rating_desc (map plain docs) in
  let got := flat_map (fun i => page_data (getRecipes (ws i) (reqs i))) (seq 0 k) in
  got = firstn (k * Z.to_nat L) all
  /\ ((List.length docs <= k * Z.to_nat L)%nat -> got = all).
Proof.
  intros D HL H all got.
  assert (E : got = firstn (k * Z.to_nat L) all).
  { subst got. rewrite <- chunks_firstn. apply flat_map_ext_seq.
    intros i Hi. destruct (H i Hi) as (Hw & (s0 & s1 & W0 & W1) & Hp & Hl).
    rewrite (listing_answer (ws i) docs s0 s1 (reqs i) (Z.of_nat i + 1) L
               W0 W1 (Hw _ _ W0) (Hw _ _ W1) D Hp Hl) by lia.
    cbn [page_data data]. replace (Z.of_nat i + 1 - 1)%Z with (Z.of_nat i) by lia.
    rewrite Nat2Z.id. reflexivity. }
  split; [exact E|]. intro Hn. rewrite E. apply firstn_all2.
  subst all. rewrite sort_length, length_map. exact Hn.
Qed.

Lemma listing_pagination_witness :
  flat_map (fun i => page_data (getRecipes (serving three) (page_of_two i)))
           (seq 0 2)
  = sort_rating_desc (map plain three).
Proof.
  apply (listing_pagination three 2 2 (fun _ => serving three) page_of_two
           eq_refl ltac:(lia)); [|cbn; lia].
  intros i Hi. split; [apply holding_serving, Permutation_refl|].
  split; [exists three, three; split; reflexivity|].
  destruct i as [|[|i]]; [split; reflexivity | split; reflexivity | lia].
Defined.

Lemma skip_stage_arg_of_Z z :
  (0 <= z)%Z -> skip_stage_arg (JS.of_Z z) = inr (Z.to_nat z).
Proof.
  intro H. unfold skip_stage_arg, JS.of_Z. rewrite is_integer_inject_Z.
  assert (Qle_bool 0 (inject_Z z) = true) as ->.
  { apply Qle_bool_iff. unfold Qle. cbn. lia. }
  rewrite Qfloor_Z. reflexivity.
Qed.

Lemma skip_stage_arg_negative z :
  (z < 0)%Z -> exists e, skip_stage_arg (JS.of_Z z) = inl (Thrown e).
Proof.
  intro H. unfold skip_stage_arg, JS.of_Z. rewrite is_integer_inject_Z.
  destruct (Qle_bool 0 (inject_Z z)) eqn:E; [|eexists; reflexivity].
  apply Qle_bool_iff in E. unfold Qle in E. cbn in E. lia.
Qed.

Lemma limit_stage_arg_of_Z z :
  (0 < z)%Z -> limit_stage_arg (JS.of_Z z) = inr (Z.to_nat z).
Proof.
  intro H. unfold limit_stage_arg, JS.of_Z. rewrite is_integer_inject_Z.
  assert (JS.sign_pos (inject_Z z) = true) as ->.
  { unfold JS.sign_pos. rewrite is_zero_inject_Z.
    destruct (Z.eqb_spec z 0); [lia|]. rewrite andb_true_r.
    apply Qle_bool_iff. unfold Qle. cbn. lia. }
  rewrite Qfloor_Z. reflexivity.
Qed.

Lemma page_skip_of_Z c z :
  (0 <= z)%Z -> page_skip c (JS.of_Z z) = inr (Z.to_nat z).
Proof.
  intro H. unfold page_skip.
  destruct (truthy c); [apply skip_stage_arg_of_Z|apply find_skip_arg_of_Z]; exact H.
Qed.

Lemma page_limit_of_Z c z :
  (0 < z)%Z -> page_limit c (JS.of_Z z) = inr (Some (Z.to_nat z)).
Proof.
  intro H. unfold page_limit. destruct (truthy c).
  - rewrite limit_stage_arg_of_Z by exact H. reflexivity.
  - apply find_limit_arg_of_Z. exact H.
Qed.

Lemma search_skip_of_Z req p L :
  JS.to_number (param_or (Req.page req) 1) = JS.of_Z p ->
  JS.to_number (param_or (Req.limit req) 15) = JS.of_Z L ->
  search_skip req = JS.of_Z ((p - 1) * L).
Proof.
  intros Hp Hl. unfold search_skip. rewrite Hp, Hl, sub_of_Z, mul_of_Z.
  reflexivity.
Qed.

Lemma sort_selected_perm q c s docs :
  Permutation s docs -> distinct_ratings docs = true ->
  sort_rating_desc (selected q c s)
  = sort_rating_desc (map plain (filter (qualifies q c) docs)).
Proof.
  intros P D. rewrite <- selected_plain.
  apply (selected_same q c s docs docs P (Permutation_refl _)). exact D.
Qed.

Lemma search_page (w : world) (docs : list Recipe) (req : Req.query)
  (q : query) (b : body) (p L : Z) :
  holding w docs ->
  distinct_ratings docs = true ->
  build_query req [] = (inr q, []) ->
  JS.to_number (param_or (Req.page req) 1) = JS.of_Z p ->
  JS.to_number (param_or (Req.limit req) 15) = JS.of_Z L ->
  JS.parseInt_value (param_or (Req.limit req) 15) = JS.of_Z L ->
  (1 <= p)%Z -> (1 <= L)%Z ->
  searchRecipes w req = Some (Ok200 b) ->
  let c := parseComparisonQuery (Req.calories req) in
  let found := filter (qualifies q c) docs in
  data b = firstn (Z.to_nat L)
             (skipn (Z.to_nat (p - 1) * Z.to_nat L)
                (sort_rating_desc (map plain found)))
  /\ total b = List.length found
  /\ totalPages b = JS.of_Z ((Z.of_nat (List.length found) + L - 1) / L).
Proof.
  intros Hw D Hq Hp Hl Hl' Hp1 HL1 H c found.
  apply search_inv in H
    as (q' & s0 & s1 & sk & lim & Hq' & W0 & W1 & Hs & Hlim & ->).
  cbv zeta in *. rewrite Hq in Hq'. injection Hq' as <-. fold c in Hs, Hlim |- *.
  rewrite (search_skip_of_Z req p L Hp Hl) in Hs.
  rewrite page_skip_of_Z in Hs by nia. injection Hs as <-.
  rewrite Hl' in Hlim. rewrite page_limit_of_Z in Hlim by lia.
  injection Hlim as <-.
  cbn [data total totalPages take].
  rewrite (sort_selected_perm q c s1 docs (Hw _ _ W1) D).
  assert (L0 : List.length (selected q c s0) = List.length found).
  { rewrite selected_plain, length_map.
    apply Permutation_length, Permutation_filter', (Hw _ _ W0). }
  rewrite L0, Hl. unfold JS.of_nat. rewrite ceil_div_of_Z by lia.
  rewrite Z2Nat.inj_mul by lia. auto.
Qed.

(** X4. The pages of a search fit together in the same way: when each
    of the requests for pages 1 to [k] of size [L], with the same filters,
    succeeds, their records one after the other are the first [k * L] of
    the qualifying records sorted by rating, and all of them once [k * L]
    reaches their number. *)
Theorem search_pagination (docs : list Recipe) (q : query) (c : comparison)
  (L : Z) (k : nat) (ws : nat -> world) (reqs : nat -> Req.query) :
  distinct_ratings docs = true ->
  (1 <= L)%Z ->
  (forall i, (i < k)%nat ->
     holding (ws i) docs
     /\ build_query (reqs i) [] = (inr q, [])
     /\ parseComparisonQuery (Req.calories (reqs i)) = c
     /\ JS.to_number (param_or (Req.page (reqs i)) 1) = JS.of_Z (Z.of_nat i + 1)
     /\ JS.to_number (param_or (Req.limit (reqs i)) 15) = JS.of_Z L
     /\ JS.parseInt_value (param_or (Req.limit (reqs i)) 15) = JS.of_Z L
     /\ exists b, searchRecipes (ws i) (reqs i) = Some (Ok200 b)) ->
  let all := sort_rating_desc (map plain (filter (qualifies q c) docs)) in
  let got := flat_map (fun i => page_data (searchRecipes (ws i) (reqs i))) (seq 0 k) in
  got = firstn (k * Z.to_nat L) all
  /\ ((List.length (filter (qualifies q c) docs) <= k * Z.to_nat L)%nat ->
      got = all).
Proof.
  intros D HL H all got.
  assert (E : got = firstn (k * Z.to_nat L) all).
  { subst got. rewrite <- chunks_firstn. apply flat_map_ext_seq.
    intros i Hi.
    destruct (H i Hi) as (Hw & Hq & Hc & Hp & Hl & Hl' & b & Hb).
    destruct (search_page (ws i) docs (reqs i) q b (Z.of_nat i + 1) L
                Hw D Hq Hp Hl Hl' ltac:(lia) HL Hb) as (Hd & _).
    rewrite Hb. cbn [page_data]. rewrite Hd, Hc.
    replace (Z.of_nat i + 1 - 1)%Z with (Z.of_nat i) by lia.
    rewrite Nat2Z.id. reflexivity. }
  split; [exact E|]. intro Hn. rewrite E. apply firstn_all2.
  subst all. rewrite sort_length, length_map. exact Hn.
Qed.

Lemma search_pagination_witness :
  flat_map (fun i => page_data (searchRecipes (serving three) (page_of_two i)))
           (seq 0 2)
  = sort_rating_desc (map plain three).
Proof.
  apply (search_pagination three [] Null 2 2 (fun _ => serving three)
           page_of_two eq_refl ltac:(lia)); [|cbn; lia].
  intros i Hi. split; [apply holding_serving, Permutation_refl|].
  destruct i as [|[|i]]; [| |lia].
  - repeat (split; [reflexivity|]). eexists. reflexivity.
  - repeat (split; [reflexivity|]). eexists. reflexivity.
Defined.

(** X5. A page number below one: a search for page 0 or a negative page
    never succeeds (the offset passed to the store is negative), the
    listing for a negative page never succeeds either, and the listing
    for page 0 answers as page 1. *)
Theorem page_below_one (w : world) (req : Req.query) (p L : Z) :
  (1 <= L)%Z ->
  (JS.to_number (param_or (Req.page req) 1) = JS.of_Z p ->
   JS.to_number (param_or (Req.limit req) 15) = JS.of_Z L ->
   (p <= 0)%Z ->
   forall b, searchRecipes w req <> Some (Ok200 b))
  /\ (JS.parseInt_value (param (Req.page req)) = JS.of_Z p ->
      listing_limit req = JS.of_Z L ->
      (p < 0)%Z ->
      forall b, getRecipes w req <> Some (Ok200 b))
  /\ (JS.parseInt_value (param (Req.page req)) = JS.of_Z 0 ->
      forall b, getRecipes w req = Some (Ok200 b) -> page b = JS.of_Z 1).
Proof.
  intro HL. split; [|split].
  - intros Hp Hl Hp0 b H.
    apply search_inv in H as (q & s0 & s1 & sk & lim & _ & _ & _ & Hs & _).
    cbv zeta in Hs. rewrite (search_skip_of_Z req p L Hp Hl) in Hs.
    unfold page_skip in Hs. destruct (truthy _).
    + destruct (skip_stage_arg_negative ((p - 1) * L)) as [e He]; [nia|].
      rewrite He in Hs. discriminate Hs.
    + rewrite find_skip_arg_negative in Hs by nia. discriminate Hs.
  - intros Hp Hl Hp0 b H.
    apply listing_inv in H as (s0 & s1 & sk & lim & _ & _ & Hs & _).
    unfold listing_page in Hs. rewrite Hp, Hl in Hs.
    rewrite or_default_of_Z in Hs by lia.
    rewrite sub_of_Z, mul_of_Z in Hs.
    rewrite find_skip_arg_negative in Hs by nia. discriminate Hs.
  - intros Hp b H.
    apply listing_inv in H as (s0 & s1 & sk & lim & _ & _ & _ & _ & ->).
    cbn [page]. unfold listing_page. rewrite Hp. reflexivity.
Qed.

Lemma page_below_one_witness :
  searchRecipes (serving three) (with_page_limit (Some "0") (Some "5"))
  <> Some (Ok200 listing_three).
Proof.
  destruct (page_below_one (serving three)
              (with_page_limit (Some "0") (Some "5")) 0 5 ltac:(lia))
    as [H _].
  apply H; [reflexivity | reflexivity | lia].
Defined.

(** X6. A page past the end of the listing is not an error: for a page
    and a limit within the range of exact integers, whose offset
    [(page - 1) * limit] is within it too, the answer is a success with
    no record, [count] 0, and [total] and [totalPages] as on every other
    page. *)
Theorem listing_page_past_end (w : world) (docs s0 s1 : list Recipe)
  (req : Req.query) (p L : Z) :
  w 0%nat = Served s0 -> w 1%nat = Served s1 ->
  Permutation s0 docs -> Permutation s1 docs ->
  JS.parseInt_value (param (Req.page req)) = JS.of_Z p ->
  JS.parseInt_value (param (Req.limit req)) = JS.of_Z L ->
  (1 <= p <= MAX_SAFE_INTEGER)%Z -> (1 <= L <= MAX_SAFE_INTEGER)%Z ->
  ((p - 1) * L <= MAX_SAFE_INTEGER)%Z ->
  (Z.of_nat (List.length docs) <= (p - 1) * L)%Z ->
  getRecipes w req
  = Some (Ok200 {| count := 0;
                   total := List.length docs;
                   page := JS.of_Z p;
                   totalPages :=
                     JS.of_Z ((Z.of_nat (List.length docs) + L - 1) / L);
                   data := [] |}).
Proof.
  intros W0 W1 P0 P1 Hp Hl [Hp1 _] [HL1 _] _ Hn.
  unfold getRecipes, respond, getRecipes_try, bind, Recipe_find,
    Recipe_countDocuments, await.
  rewrite Hp, Hl. rewrite !or_default_of_Z by lia.
  rewrite sub_of_Z, mul_of_Z.
  cbn [List.length app]. rewrite W0, W1. cbn [serve].
  unfold find_sorted, countDocuments. cbn [cast_error].
  rewrite find_skip_arg_of_Z by nia. rewrite find_limit_arg_of_Z by lia.
  cbn [matches forallb filter].
  assert (F : forall l : list doc, filter (fun _ => true) l = l).
  { induction l as [|x l IH]; cbn; [|rewrite IH]; reflexivity. }
  rewrite !F. rewrite length_map, (Permutation_length P1).
  rewrite skipn_all2.
  2:{ rewrite sort_length, length_map, (Permutation_length P0). lia. }
  unfold ret. cbn [fst answer take firstn List.length].
  rewrite firstn_nil. cbn [List.length].
  unfold JS.of_nat. rewrite ceil_div_of_Z by lia. reflexivity.
Qed.

Lemma listing_page_past_end_witness :
  getRecipes (serving three) (with_page_limit (Some "3") (Some "2"))
  = Some (Ok200 past_the_end).
Proof.
  apply (listing_page_past_end (serving three) three three three
           (with_page_limit (Some "3") (Some "2")) 3 2);
    try reflexivity; try apply Permutation_refl;
    unfold MAX_SAFE_INTEGER; cbn; lia.
Defined.

End Paging.

(* ================================================================== *)
(** ** Further properties: numerals and white space *)
(* ================================================================== *)

Section Numerals.

Import Mongo Controller Props Terms.
Local Open Scope string_scope.
Local Open Scope list_scope.

Lemma digit_in_10 c : is_digit c = true -> JS.digit_in 10 c = Some (JS.code c - 48)%Z.
Proof.
  unfold is_digit, JS.digit_in. intro H. rewrite H.
  apply andb_prop in H as [H1 H2]. apply Z.leb_le in H1, H2.
  destruct (Z.ltb_spec (JS.code c - 48) 10); [reflexivity|lia].
Qed.

Lemma digits_all ds : forall acc cnt,
  forallb is_digit ds = true ->
  JS.digits 10 acc cnt ds
  = (fold_left (fun a c => (10 * a + (JS.code c - 48))%Z) ds acc,
     (cnt + List.length ds)%nat, []).
Proof.
  induction ds as [|c ds IH]; intros acc cnt H; cbn [JS.digits fold_left List.length].
  - rewrite Nat.add_0_r. reflexivity.
  - cbn [forallb] in H. apply andb_prop in H as [Hc Hds].
    rewrite (digit_in_10 c Hc), IH by exact Hds. f_equal. f_equal. lia.
Qed.

Lemma digit_cases c : is_digit c = true ->
  c = "0"%char \/ c = "1"%char \/ c = "2"%char \/ c = "3"%char \/ c = "4"%char
  \/ c = "5"%char \/ c = "6"%char \/ c = "7"%char \/ c = "8"%char \/ c = "9"%char.
Proof.
  destruct c as [[] [] [] [] [] [] [] []]; cbv; intro H; try discriminate H; tauto.
Qed.

Local Ltac each_digit c H :=
  destruct (digit_cases c H) as [->|[->|[->|[->|[->|[->|[->|[->|[->| ->]]]]]]]]].

Lemma signed_literal_digits c ds :
  forallb is_digit (c :: ds) = true ->
  JS.signed_literal (c :: ds) = Some (JS.Fin (inject_Z (numeral (c :: ds))), []).
Proof.
  intro H. pose proof H as H'. cbn [forallb] in H'. apply andb_prop in H' as [Hc _].
  assert (E : JS.signed_literal (c :: ds) = JS.unsigned_literal (c :: ds))
    by (each_digit c Hc; reflexivity).
  rewrite E. unfold JS.unsigned_literal.
  assert (JS.starts_with (chars "Infinity") (c :: ds) = None) as ->
    by (each_digit c Hc; reflexivity).
  rewrite (digits_all (c :: ds) 0 0 H). cbn [List.length Nat.add JS.exponent].
  unfold JS.scale10.
  change (0 - Z.of_nat 0)%Z with 0%Z. change (0 <=? 0)%Z with true.
  change (10 ^ 0)%Z with 1%Z. cbv iota.
  rewrite Z.mul_1_r, Qred_inject_Z. reflexivity.
Qed.

Lemma to_double_digits c ds :
  forallb is_digit (c :: ds) = true ->
  to_double (text (c :: ds)) = inr (inject_Z (numeral (c :: ds))).
Proof.
  intro H. pose proof H as H'. cbn [forallb] in H'. apply andb_prop in H' as [Hc Hds].
  unfold to_double, chars, text. rewrite list_ascii_of_string_of_list_ascii.
  rewrite (signed_literal_digits c ds H).
  assert (G : (match c :: ds with
               | "-"%char :: r | "+"%char :: r => r
               | _ => c :: ds
               end) = c :: ds) by (each_digit c Hc; reflexivity).
  rewrite G.
  assert (F : starts_ci (list_ascii_of_string "inf") (c :: ds)
              || starts_ci (list_ascii_of_string "nan") (c :: ds)
              || starts_ci (list_ascii_of_string "0x") (c :: ds)
              || JS.is_ws c = false).
  { destruct ds as [|d ds'].
    - each_digit c Hc; reflexivity.
    - cbn [forallb] in Hds. apply andb_prop in Hds as [Hd _].
      each_digit c Hc; try reflexivity.
      each_digit d Hd; reflexivity. }
  rewrite F. reflexivity.
Qed.

Lemma digit_not_space c : is_digit c = true ->
  Ascii.eqb " " c = false /\ trim_char c = false.
Proof. intro H. each_digit c H; split; reflexivity. Qed.

Lemma replace_kcal_digits ds :
  forallb is_digit ds = true ->
  replace_from (chars " kcal") [] 0 (ds ++ chars " kcal") = ds.
Proof.
  induction ds as [|c ds IH]; intro H; [reflexivity|].
  cbn [forallb] in H. apply andb_prop in H as [Hc Hds].
  destruct (digit_not_space c Hc) as [Hs _].
  cbn [app replace_from]. 
  change (chars " kcal") with (" "%char :: chars "kcal") at 1.
  cbn [JS.starts_with]. rewrite Hs. f_equal. apply IH. exact Hds.
Qed.

Lemma drop_trim_digits ds :
  forallb is_digit ds = true -> drop_while trim_char ds = ds.
Proof.
  destruct ds as [|c ds]; [reflexivity|]. cbn [forallb drop_while].
  intro H. apply andb_prop in H as [Hc _].
  destruct (digit_not_space c Hc) as [_ ->]. reflexivity.
Qed.

Lemma forallb_rev {A} (p : A -> bool) l : forallb p (rev l) = forallb p l.
Proof.
  destruct (forallb p l) eqn:E.
  - rewrite forallb_forall in *. intros x Hx. apply E, in_rev, Hx.
  - destruct (forallb p (rev l)) eqn:E'; [|reflexivity].
    rewrite forallb_forall in E'. rewrite <- E. symmetry. apply forallb_forall.
    intros x Hx. apply E'. apply in_rev in Hx. exact Hx.
Qed.

Lemma trim_digits ds :
  forallb is_digit ds = true -> trim (text ds) = text ds.
Proof.
  intro H. unfold trim, chars, text. rewrite list_ascii_of_string_of_list_ascii.
  rewrite (drop_trim_digits ds H).
  rewrite drop_trim_digits by (rewrite forallb_rev; exact H).
  rewrite rev_involutive. reflexivity.
Qed.

(** X7. The calorie value derived from an entry made of decimal digits
    followed by [" kcal"] is the number the digits denote, for every
    such number within the range of exact integers (leading zeros
    included). *)
Theorem caloriesValue_of_numeral (d : doc) (c : ascii) (ds : list ascii) :
  forallb is_digit (c :: ds) = true ->
  (numeral (c :: ds) <= MAX_SAFE_INTEGER)%Z ->
  nutrient "calories" d = Str (text ((c :: ds) ++ chars " kcal")) ->
  eval caloriesValue_expr d = inr (Num (inject_Z (numeral (c :: ds)))).
Proof.
  intros H _ Hn. unfold caloriesValue_expr. cbn [eval]. rewrite Hn. cbv iota beta.
  assert (R : replace_all (text ((c :: ds) ++ chars " kcal")) " kcal" ""
              = text (c :: ds)).
  { unfold replace_all. cbv iota. unfold chars at 1 2 3, text at 1.
    rewrite list_ascii_of_string_of_list_ascii.
    fold (chars " kcal"). change (list_ascii_of_string "") with (@nil ascii).
    rewrite (replace_kcal_digits (c :: ds) H). reflexivity. }
  rewrite R, (trim_digits (c :: ds) H), (to_double_digits c ds H). reflexivity.
Qed.

Lemma caloriesValue_of_numeral_witness :
  eval caloriesValue_expr (plain recipe_A) = inr (Num (inject_Z 380)).
Proof.
  apply (caloriesValue_of_numeral (plain recipe_A) "3"%char ["8"; "0"]%char);
    [reflexivity | vm_compute; discriminate | reflexivity].
Defined.

End Numerals.

Section Whitespace.

Import Mongo Controller Props Terms.
Local Open Scope string_scope.

Lemma ws_cases c : JS.is_ws c = true ->
  c = "009"%char \/ c = "010"%char \/ c = "011"%char \/ c = "012"%char
  \/ c = "013"%char \/ c = " "%char.
Proof.
  destruct c as [[] [] [] [] [] [] [] []]; cbv; intro H; try discriminate H; tauto.
Qed.

Lemma chars_append a b : chars (a ++ b) = (chars a ++ chars b)%list.
Proof. induction a as [|c a IH]; cbn; [|rewrite <- IH]; reflexivity. Qed.

Lemma skip_ws_blank ws s :
  blank ws = true -> JS.skip_ws (chars (ws ++ s)) = JS.skip_ws (chars s).
Proof.
  induction ws as [|c ws IH]; intro H; [reflexivity|].
  cbn [blank] in H. apply andb_prop in H as [Hc Hws].
  cbn [append]. change (chars (String c (ws ++ s))) with (c :: chars (ws ++ s)).
  cbn [JS.skip_ws]. rewrite Hc. apply IH. exact Hws.
Qed.

Lemma parseFloat_blank ws s :
  blank ws = true -> JS.parseFloat (ws ++ s) = JS.parseFloat s.
Proof. intro H. unfold JS.parseFloat. rewrite skip_ws_blank by exact H. reflexivity. Qed.

Lemma parseFloat_operator s :
  JS.parseFloat (String ">" s) = JS.NaN /\ JS.parseFloat (String "<" s) = JS.NaN
  /\ JS.parseFloat (String "=" s) = JS.NaN.
Proof. repeat split. Qed.

Lemma parse_leading_blank c ws s :
  JS.is_ws c = true ->
  parseComparisonQuery (Some (String c (ws ++ s)))
  = Number (JS.parseFloat (String c (ws ++ s))).
Proof.
  intro H. destruct (ws_cases c H) as [->|[->|[->|[->|[->| ->]]]]]; reflexivity.
Qed.

(** X8. White space around the operator of a comparison: between a
    two-character operator and its number it is ignored, but in front of
    an operator it hides the operator, the value reads as no number, and
    the filter is dropped without an error. *)
Theorem operator_whitespace (ws s : string) (f : field) (q : query) :
  blank ws = true ->
  (parseComparisonQuery (Some (">=" ++ ws ++ s))
   = parseComparisonQuery (Some (">=" ++ s))
   /\ parseComparisonQuery (Some ("<=" ++ ws ++ s))
      = parseComparisonQuery (Some ("<=" ++ s))
   /\ parseComparisonQuery (Some ("==" ++ ws ++ s))
      = parseComparisonQuery (Some ("==" ++ s)))
  /\ (ws <> "" ->
      comparison_filter f (Some (ws ++ ">" ++ s)) q = q
      /\ comparison_filter f (Some (ws ++ "<" ++ s)) q = q
      /\ comparison_filter f (Some (ws ++ "=" ++ s)) q = q).
Proof.
  intro H. split.
  - cbn [append]. unfold parseComparisonQuery.
    cbn [JS.truthy_string negb startsWith Ascii.eqb Bool.eqb andb substring].
    rewrite (parseFloat_blank ws s H). repeat split.
  - intro Hne. destruct ws as [|c ws]; [contradiction|].
    cbn [blank] in H. apply andb_prop in H as [Hc Hws].
    assert (B : blank (String c ws) = true)
      by (cbn [blank]; rewrite Hc, Hws; reflexivity).
    destruct (parseFloat_operator s) as (Hgt & Hlt & Heq).
    unfold comparison_filter. cbn [append JS.truthy_param JS.truthy_string].
    rewrite !(parse_leading_blank c ws _ Hc).
    rewrite !(parseFloat_blank (String c ws) _ B : JS.parseFloat (String c (ws ++ _)) = _).
    rewrite Hgt, Hlt, Heq. repeat split.
Qed.

Lemma operator_whitespace_witness :
  parseComparisonQuery (Some ">= 4.5") = parseComparisonQuery (Some ">=4.5")
  /\ comparison_filter Frating (Some " >4.5") [] = [].
Proof.
  destruct (operator_whitespace " " "4.5" Frating [] eq_refl) as [(H & _) G].
  split; [exact H|].
  destruct (G ltac:(discriminate)) as (G1 & _). exact G1.
Defined.

End Whitespace.

(* ================================================================== *)
(** ** Further properties: the search next to the listing *)
(* ================================================================== *)

Section Unfiltered.

Import Mongo Controller Props Terms.
Local Open Scope string_scope.
Local Open Scope list_scope.

Lemma chars_text (l : list ascii) : chars (text l) = l.
Proof. apply list_ascii_of_string_of_list_ascii. Qed.

Lemma digit_not_ws c : is_digit c = true -> JS.is_ws c = false.
Proof.
  intro H.
  destruct (digit_cases c H) as [->|[->|[->|[->|[->|[->|[->|[->|[->| ->]]]]]]]]];
    reflexivity.
Qed.

Lemma numeral_nonneg ds : forallb is_digit ds = true -> (0 <= numeral ds)%Z.
Proof.
  unfold numeral.
  assert (G : forall acc, (0 <= acc)%Z -> forallb is_digit ds = true ->
    (0 <= fold_left (fun acc c => (10 * acc + (JS.code c - 48))%Z) ds acc)%Z).
  { induction ds as [|c ds IH]; intros acc Ha H; cbn [fold_left]; [exact Ha|].
    cbn [forallb] in H. apply andb_prop in H as [Hc Hds].
    apply IH; [|exact Hds]. unfold is_digit in Hc.
    apply andb_prop in Hc as [H1 H2]. apply Z.leb_le in H1, H2. lia. }
  apply G. lia.
Qed.

Lemma parseInt_digits c ds :
  forallb is_digit (c :: ds) = true ->
  JS.parseInt (text (c :: ds)) = JS.of_Z (numeral (c :: ds)).
Proof.
  intro H. pose proof H as H'. cbn [forallb] in H'.
  apply andb_prop in H' as [Hc Hds].
  unfold JS.parseInt. rewrite chars_text.
  cbn [JS.skip_ws]. rewrite (digit_not_ws c Hc).
  assert (E : (let '(sign, s1) :=
                 match c :: ds with
                 | "-"%char :: r => ((-1)%Z, r)
                 | "+"%char :: r => (1%Z, r)
                 | _ => (1%Z, c :: ds)
                 end in
               let '(radix, s2) :=
                 match s1 with
                 | "0"%char :: "x"%char :: r => (16%Z, r)
                 | "0"%char :: "X"%char :: r => (16%Z, r)
                 | _ => (10%Z, s1)
                 end in
               match JS.digits radix 0 0 s2 with
               | (_, O, _) => JS.NaN
               | (v, _, _) => JS.of_Z (sign * v)
               end)
              = match JS.digits 10 0 0 (c :: ds) with
                | (_, O, _) => JS.NaN
                | (v, _, _) => JS.of_Z (1 * v)
                end).
  { destruct ds as [|d ds'].
    - destruct (digit_cases c Hc) as [->|[->|[->|[->|[->|[->|[->|[->|[->| ->]]]]]]]]];
        reflexivity.
    - cbn [forallb] in Hds. apply andb_prop in Hds as [Hd _].
      destruct (digit_cases c Hc) as [->|[->|[->|[->|[->|[->|[->|[->|[->| ->]]]]]]]]];
        try reflexivity.
      destruct (digit_cases d Hd) as [->|[->|[->|[->|[->|[->|[->|[->|[->| ->]]]]]]]]];
        reflexivity. }
  rewrite E, (digits_all (c :: ds) 0 0 H). cbn [List.length Nat.add].
  fold (numeral (c :: ds)). now rewrite Z.mul_1_l.
Qed.

Lemma trim_ws_digits ds : forallb is_digit ds = true -> JS.trim_ws ds = ds.
Proof.
  intro H.
  assert (G : forall l, forallb is_digit l = true -> JS.skip_ws l = l).
  { intros [|x l] Hl; [reflexivity|]. cbn [forallb] in Hl.
    apply andb_prop in Hl as [Hx _]. cbn [JS.skip_ws].
    now rewrite (digit_not_ws x Hx). }
  unfold JS.trim_ws. rewrite (G ds H), G by (rewrite forallb_rev; exact H).
  apply rev_involutive.
Qed.

Lemma string_to_number_digits c ds :
  forallb is_digit (c :: ds) = true ->
  JS.string_to_number (text (c :: ds)) = JS.of_Z (numeral (c :: ds)).
Proof.
  intro H. pose proof H as H'. cbn [forallb] in H'.
  apply andb_prop in H' as [Hc Hds].
  unfold JS.string_to_number. rewrite chars_text, (trim_ws_digits _ H).
  pose proof (signed_literal_digits c ds H) as Hs.
  destruct ds as [|d ds'].
  - destruct (digit_cases c Hc) as [->|[->|[->|[->|[->|[->|[->|[->|[->| ->]]]]]]]]];
      reflexivity.
  - pose proof Hds as Hds'. cbn [forallb] in Hds'.
    apply andb_prop in Hds' as [Hd _].
    destruct (digit_cases c Hc) as [->|[->|[->|[->|[->|[->|[->|[->|[->| ->]]]]]]]]];
      try (rewrite Hs; reflexivity).
    destruct (digit_cases d Hd) as [->|[->|[->|[->|[->|[->|[->|[->|[->| ->]]]]]]]]];
      rewrite Hs; reflexivity.
Qed.

Lemma filter_all {A} (l : list A) : filter (fun _ => true) l = l.
Proof. induction l as [|x l IH]; cbn; [|rewrite IH]; reflexivity. Qed.

(** X9. A search without any filter is the listing: for a page and a
    limit written as decimal digits, at least 1 and within the range of
    exact integers together with the offset [(page - 1) * limit], against
    a store that holds [docs] (with pairwise distinct ratings) and serves
    both operations, [searchRecipes] and [getRecipes] give the same
    successful answer, although they read the two parameters differently
    and query the store in the opposite order. *)
Theorem search_without_filters (w : world) (docs s0 s1 : list Recipe)
    (cp cl : ascii) (dp dl : list ascii) :
  w 0%nat = Served s0 -> w 1%nat = Served s1 ->
  Permutation s0 docs -> Permutation s1 docs ->
  distinct_ratings docs = true ->
  forallb is_digit (cp :: dp) = true -> forallb is_digit (cl :: dl) = true ->
  (1 <= numeral (cp :: dp) <= MAX_SAFE_INTEGER)%Z ->
  (1 <= numeral (cl :: dl) <= MAX_SAFE_INTEGER)%Z ->
  ((numeral (cp :: dp) - 1) * numeral (cl :: dl) <= MAX_SAFE_INTEGER)%Z ->
  let req := with_page_limit (Some (text (cp :: dp))) (Some (text (cl :: dl))) in
  searchRecipes w req = getRecipes w req
  /\ exists b, getRecipes w req = Some (Ok200 b).
Proof.
  intros W0 W1 P0 P1 D Hp Hl [Hp1 _] [Hl1 _] _ req.
  pose proof (listing_answer w docs s0 s1 req (numeral (cp :: dp))
                (numeral (cl :: dl)) W0 W1 P0 P1 D
                (parseInt_digits cp dp Hp) (parseInt_digits cl dl Hl) Hp1 Hl1)
    as Hg.
  cbv zeta in Hg. rewrite Hg. split; [|eexists; reflexivity].
  unfold searchRecipes, respond, searchRecipes_try, bind, Recipe_find,
    Recipe_countDocuments, await, build_query, text_filter, comparison_filter,
    bind, ret.
  cbn [req with_page_limit Req.calories Req.title Req.cuisine Req.total_time
       Req.rating Req.page Req.limit JS.truthy_param andb param_or
       JS.to_number JS.parseInt_value].
  rewrite (string_to_number_digits cp dp Hp), (string_to_number_digits cl dl Hl),
    (parseInt_digits cp dp Hp), (parseInt_digits cl dl Hl).
  rewrite sub_of_Z, mul_of_Z.
  cbn [List.length app]. rewrite W0, W1. cbn [serve].
  unfold find_sorted, countDocuments. cbn [cast_error].
  rewrite find_skip_arg_of_Z by nia. rewrite find_limit_arg_of_Z by lia.
  cbn [matches forallb]. rewrite !filter_all.
  rewrite (sort_docs_perm _ _ P1 D).
  rewrite length_map, (Permutation_length P0).
  cbn [fst answer take].
  unfold JS.of_nat. rewrite ceil_div_of_Z by lia.
  replace (Z.to_nat ((numeral (cp :: dp) - 1) * numeral (cl :: dl)))
    with (Z.to_nat (numeral (cp :: dp) - 1) * Z.to_nat (numeral (cl :: dl)))%nat
    by (rewrite Z2Nat.inj_mul by lia; reflexivity).
  reflexivity.
Qed.

Lemma search_without_filters_witness :
  searchRecipes (serving three) (with_page_limit (Some "1") (Some "2"))
  = getRecipes (serving three) (with_page_limit (Some "1") (Some "2")).
Proof.
  destruct (search_without_filters (serving three) three three three
              "1"%char "2"%char [] [] eq_refl eq_refl
              (Permutation_refl _) (Permutation_refl _) eq_refl eq_refl eq_refl
              ltac:(vm_compute; split; discriminate)
              ltac:(vm_compute; split; discriminate)
              ltac:(vm_compute; discriminate))
    as [H _].
  exact H.
Defined.

End Unfiltered.

(* ================================================================== *)
(** ** Further properties: an operator without a number *)
(* ================================================================== *)

Section Numberless.

Import Mongo Controller Props Terms.
Local Open Scope string_scope.
Local Open Scope list_scope.

Lemma build_query_shape req q :
  build_query req [] = (inr q, []) ->
  exists q1,
    q = comparison_filter Frating (Req.rating req)
          (comparison_filter Ftotal_time (Req.total_time req) q1).
Proof.
  unfold build_query, bind.
  destruct (text_filter_pure Fcuisine (Req.cuisine req) []) as [[e|q0] H0];
    rewrite H0; [discriminate|].
  destruct (text_filter_pure Ftitle (Req.title req) q0) as [[e|q1] H1];
    rewrite H1; [discriminate|].
  unfold ret. intros [= <-]. exists q1. reflexivity.
Qed.

Lemma cast_error_app q1 q2 :
  cast_error (q1 ++ q2)
  = match cast_error q1 with Some e => Some e | None => cast_error q2 end.
Proof.
  induction q1 as [|[f c] q1 IH]; cbn [app cast_error]; [reflexivity|].
  destruct (cast_cond f c); [reflexivity | exact IH].
Qed.

Lemma cast_error_thrown q e :
  cast_error q = Some e -> exists msg, e = Thrown msg.
Proof.
  induction q as [|[f c] q IH]; cbn [cast_error]; [discriminate|].
  destruct (cast_cond f c) as [e'|] eqn:E; [|exact IH].
  intros [= <-]. unfold cast_cond in E.
  destruct f, c as [r|o [| | |x]|[| | |x]|]; try discriminate E;
    injection E as <-; eexists; reflexivity.
Qed.

Lemma holds_NaN op v : holds (Op op JS.NaN) v = false.
Proof.
  destruct v as [|s|x]; cbn [holds]; try reflexivity.
  destruct op; cbn; reflexivity.
Qed.

Lemma numberless_cond f p q0 op :
  f = Frating \/ f = Ftotal_time ->
  parseComparisonQuery p = Object op JS.NaN ->
  (exists e, cast_error (comparison_filter f p q0) = Some e)
  /\ forall d, matches (comparison_filter f p q0) d = false.
Proof.
  intros Hf H.
  assert (T : JS.truthy_param p = true).
  { destruct p as [s|]; [|discriminate]. destruct s; [discriminate | reflexivity]. }
  unfold comparison_filter. rewrite T, H. cbn [truthy as_cond]. split.
  - rewrite cast_error_app.
    destruct (cast_error q0); [eexists; reflexivity|].
    destruct Hf as [-> | ->]; eexists; reflexivity.
  - intro d. rewrite matches_app. unfold matches at 2.
    cbn [forallb fst snd]. rewrite holds_NaN. apply andb_false_r.
Qed.

Lemma numberless_kept f p q0 :
  (exists e, cast_error q0 = Some e) /\ (forall d, matches q0 d = false) ->
  (exists e, cast_error (comparison_filter f p q0) = Some e)
  /\ forall d, matches (comparison_filter f p q0) d = false.
Proof.
  intros [[e He] Hm]. unfold comparison_filter.
  destruct (JS.truthy_param p); [|eauto].
  cbv zeta. destruct (truthy (parseComparisonQuery p)); [|eauto].
  split; [rewrite cast_error_app, He; eauto|].
  intro d. rewrite matches_app, Hm. reflexivity.
Qed.

(** The filter of a request whose rating or total time is an operator
    without a number. *)
Lemma numberless_filter req q op :
  build_query req [] = (inr q, []) ->
  parseComparisonQuery (Req.rating req) = Object op JS.NaN
  \/ parseComparisonQuery (Req.total_time req) = Object op JS.NaN ->
  (exists e, cast_error q = Some e) /\ forall d, matches q d = false.
Proof.
  intros Hq H. apply build_query_shape in Hq as [q1 ->].
  destruct H as [H|H].
  - apply (numberless_cond _ _ _ op); auto.
  - apply numberless_kept, (numberless_cond _ _ _ op); auto.
Qed.

Lemma filter_none {A} (p : A -> bool) l :
  (forall x, p x = false) -> filter p l = [].
Proof.
  intro H. induction l as [|x l IH]; cbn [filter]; [|rewrite H]; auto.
Qed.

(** X10. A rating or total time made of an operator and no number (as
    in [rating=>=abc]) is not dropped like a value without operator: the
    filter carries the operator with NaN.  On the direct path the request
    then always answers 500, since the store layer rejects the filter;
    on the aggregation path, where the filter is not checked, a
    successful answer has no record and total 0. *)
Theorem operator_without_number (w : world) (req : Req.query) (q : query)
    (op : cmp) :
  build_query req [] = (inr q, []) ->
  parseComparisonQuery (Req.rating req) = Object op JS.NaN
  \/ parseComparisonQuery (Req.total_time req) = Object op JS.NaN ->
  let c := parseComparisonQuery (Req.calories req) in
  (JS.truthy_param (Req.calories req) && truthy c = false ->
   exists msg, searchRecipes w req = Some (Err500 "Server Error" msg))
  /\ (JS.truthy_param (Req.calories req) && truthy c = true ->
      forall b, searchRecipes w req = Some (Ok200 b) ->
                data b = [] /\ count b = 0%nat /\ total b = 0%nat).
Proof.
  intros Hq H c.
  destruct (numberless_filter req q op Hq H) as [[e He] Hm].
  destruct (cast_error_thrown _ _ He) as [msg ->].
  split.
  - intro Hp.
    unfold searchRecipes, respond, searchRecipes_try, bind.
    rewrite Hq. fold c. rewrite Hp.
    unfold Recipe_countDocuments, await. cbn [List.length].
    destruct (w 0%nat) as [scan|down]; cbn [serve].
    + unfold countDocuments. rewrite He. cbn. eexists. reflexivity.
    + cbn. eexists. reflexivity.
  - intros Hp b Hb.
    apply andb_prop in Hp as [_ Ht].
    apply search_inv in Hb as (q' & s0 & s1 & sk & lim & Hq' & _ & _ & _ & _ & ->).
    cbv zeta in Hq'. rewrite Hq in Hq'. injection Hq' as <-. fold c.
    cbn [data count total]. unfold selected. rewrite Ht. unfold reduced.
    rewrite !(filter_none (matches q)) by exact Hm.
    cbn [map filter sort_rating_desc fold_right List.length].
    rewrite skipn_nil. destruct lim as [n|]; cbn [take];
      rewrite ?firstn_nil; auto.
Qed.

Lemma operator_without_number_witness :
  (exists msg, searchRecipes (serving three) (with_rating ">=abc")
               = Some (Err500 "Server Error" msg))
  /\ data empty_answer = [].
Proof.
  split.
  - destruct (operator_without_number (serving three) (with_rating ">=abc")
                _ Gte eq_refl (or_introl eq_refl)) as [H _].
    apply H. reflexivity.
  - destruct (operator_without_number (serving three) numberless_request
                _ Gte eq_refl (or_introl eq_refl)) as [_ H].
    apply (H eq_refl empty_answer eq_refl).
Defined.

End Numberless.
(* ================================================================== *)
(** ** Further properties: the bulk loader *)
(* ================================================================== *)

Section ImporterProps.

Import Importer Terms.
Local Open Scope string_scope.
Local Open Scope list_scope.

Lemma isNaNValue_safe (v : json) : isNaNValue v = true -> throws v = false.
Proof. destruct v; cbn; try discriminate; reflexivity. Qed.

Lemma sanitize_cases (v : json) :
  (sanitizeNumericField v = None /\ throws v = true)
  \/ (sanitizeNumericField v = Some JNull /\ throws v = false)
  \/ exists n, sanitizeNumericField v = Some (JNum n)
               /\ isNaN n = false /\ throws v = false.
Proof.
  unfold sanitizeNumericField, Number.
  destruct (isNaNValue v) eqn:En.
  - right. left. split; [reflexivity | now apply isNaNValue_safe].
  - destruct (throws v); [now left|]. right.
    destruct (isNaN (ToNumber v)) eqn:E; [now left|].
    right. now exists (ToNumber v).
Qed.

Lemma sanitize_clean (v : json) :
  clean_number v = true -> sanitizeNumericField v = Some v.
Proof.
  destruct v as [| | |n| | |]; cbn; try discriminate; [reflexivity|].
  unfold sanitizeNumericField, Number. cbn.
  destruct n; cbn; try discriminate; reflexivity.
Qed.

Lemma skip_ws_all (l : list ascii) :
  forallb JS.is_ws l = true -> JS.skip_ws l = [].
Proof.
  induction l as [|c l IH]; cbn; [reflexivity|].
  intros H. apply andb_prop in H as [Hc Hl]. rewrite Hc. auto.
Qed.

Lemma trim_ws_all (l : list ascii) :
  forallb JS.is_ws l = true -> JS.trim_ws l = [].
Proof.
  intros H. unfold JS.trim_ws. now rewrite (skip_ws_all _ H).
Qed.

Lemma batchSize_pos : (0 < batchSize)%nat.
Proof. unfold batchSize. lia. Qed.

Lemma batches_from_concat {A : Type} (l : list A) (fuel i : nat) :
  (List.length l - i <= fuel)%nat ->
  List.concat (batches_from fuel i l) = skipn i l.
Proof.
  revert i. induction fuel as [|fuel IH]; intros i H; cbn [batches_from].
  - cbn. symmetry. apply skipn_all2. lia.
  - destruct (Nat.ltb_spec i (List.length l)) as [Hi|Hi].
    + pose proof batchSize_pos.
      cbn [List.concat]. rewrite IH by lia.
      rewrite (Nat.add_comm i batchSize), <- skipn_skipn.
      apply firstn_skipn.
    + cbn. symmetry. apply skipn_all2. lia.
Qed.

Lemma batches_from_sizes {A : Type} (l : list A) (fuel i : nat) :
  Forall (fun b => 1 <= List.length b <= batchSize)%nat (batches_from fuel i l).
Proof.
  revert i. induction fuel as [|fuel IH]; intros i; cbn [batches_from];
    [constructor|].
  destruct (Nat.ltb_spec i (List.length l)) as [Hi|Hi]; [|constructor].
  constructor; [|apply IH].
  rewrite length_firstn, length_skipn. unfold batchSize. lia.
Qed.

Lemma batches_from_nth {A : Type} (l : list A) (fuel i k : nat) :
  (List.length l - i <= fuel)%nat ->
  (i + batchSize * k < List.length l)%nat ->
  nth_error (batches_from fuel i l) k
  = Some (firstn batchSize (skipn (i + batchSize * k) l)).
Proof.
  revert i k. induction fuel as [|fuel IH]; intros i k H Hk.
  - lia.
  - cbn [batches_from].
    destruct (Nat.ltb_spec i (List.length l)) as [Hi|Hi]; [|lia].
    pose proof batchSize_pos.
    destruct k as [|k].
    + cbn [nth_error]. now rewrite Nat.mul_0_r, Nat.add_0_r.
    + cbn [nth_error]. rewrite IH by lia.
      replace (i + batchSize + batchSize * k)%nat
        with (i + batchSize * S k)%nat by lia.
      reflexivity.
Qed.

Lemma batches_from_count {A : Type} (l : list A) (fuel i : nat) :
  (List.length l - i <= fuel)%nat ->
  (batchSize * List.length (batches_from fuel i l) < List.length l - i + batchSize
   /\ List.length l - i <= batchSize * List.length (batches_from fuel i l))%nat.
Proof.
  revert i. induction fuel as [|fuel IH]; intros i H; cbn [batches_from].
  - cbn [List.length]. unfold batchSize. lia.
  - destruct (Nat.ltb_spec i (List.length l)) as [Hi|Hi].
    + cbn [List.length]. specialize (IH (i + batchSize)%nat).
      unfold batchSize in *. lia.
    + cbn [List.length]. unfold batchSize. lia.
Qed.

Lemma map_option_In {A B : Type} (f : A -> option B) (l : list A) (bs : list B) :
  map_option f l = Some bs ->
  forall b, In b bs -> exists a, In a l /\ f a = Some b.
Proof.
  revert bs. induction l as [|a l IH]; cbn; intros bs H b Hb.
  - injection H as <-. destruct Hb.
  - destruct (f a) as [b0|] eqn:Ea; [|discriminate].
    destruct (map_option f l) as [bs0|]; [|discriminate].
    injection H as <-. destruct Hb as [<- | Hb].
    + exists a. auto.
    + destruct (IH _ eq_refl _ Hb) as (a' & Ha' & Hf). exists a'. auto.
Qed.

Lemma map_option_None {A B : Type} (f : A -> option B) (l : list A) :
  map_option f l = None <-> exists a, In a l /\ f a = None.
Proof.
  induction l as [|a l IH]; cbn.
  - split; [discriminate | intros (a & [] & _)].
  - destruct (f a) as [b|] eqn:Ea.
    + destruct (map_option f l) as [bs|].
      * split; [discriminate|].
        intros (a' & [<- | Ha'] & Hf); [congruence|].
        assert (Hn : Some bs = None) by (apply IH; eauto).
        discriminate Hn.
      * split; [|reflexivity]. intros _.
        destruct (proj1 IH eq_refl) as (a' & Ha' & Hf). eauto.
    + split; [|reflexivity]. intros _. exists a. auto.
Qed.

Lemma or_null_cases (v : json) :
  or_null v = JNull \/ (or_null v = v /\ truthy v = true).
Proof. unfold or_null. destruct (truthy v); auto. Qed.

Lemma blank_forallb (s : string) : blank s = forallb JS.is_ws (chars s).
Proof. induction s as [|c s IH]; cbn; [|rewrite IH]; reflexivity. Qed.

Lemma is_null_or_null (v : json) : is_null (or_null v) = negb (truthy v).
Proof. unfold or_null. destruct v as [| |[]|n|[]| |]; cbn; try reflexivity.
  destruct (JS.truthy_number n); reflexivity. Qed.

(** The numeric fields of an entry, as [processRecipeData] reads them. *)
Lemma processed_inv (e : json) (r : processed) :
  processRecipeData e = Some r ->
  exists get : string -> json,
    (forall name, get name = match prop e name with
                             | Some v => v
                             | None => JUndefined
                             end)
    /\ sanitizeNumericField (get "rating") = Some (rating r)
    /\ sanitizeNumericField (get "total_time") = Some (total_time r)
    /\ sanitizeNumericField (get "prep_time") = Some (prep_time r)
    /\ sanitizeNumericField (get "cook_time") = Some (cook_time r)
    /\ title r = or_null (get "title")
    /\ ingredients r = (if isArray (get "ingredients")
                        then get "ingredients" else JArr [])
    /\ instructions r = (if isArray (get "instructions")
                         then get "instructions" else JArr []).
Proof.
  intro H.
  exists (fun name => match prop e name with
                      | Some v => v
                      | None => JUndefined
                      end).
  split; [reflexivity|].
  set (get := fun name => match prop e name with
                          | Some v => v
                          | None => JUndefined
                          end).
  assert (H' :
    match sanitizeNumericField (get "rating"),
          sanitizeNumericField (get "total_time"),
          sanitizeNumericField (get "prep_time"),
          sanitizeNumericField (get "cook_time") with
    | Some a, Some b, Some c, Some d =>
        title r = or_null (get "title")
        /\ rating r = a /\ total_time r = b /\ prep_time r = c
        /\ cook_time r = d
        /\ ingredients r = (if isArray (get "ingredients")
                            then get "ingredients" else JArr [])
        /\ instructions r = (if isArray (get "instructions")
                             then get "instructions" else JArr [])
    | _, _, _, _ => False
    end).
  { unfold processRecipeData in H. subst get.
    destruct e; try discriminate H; cbv zeta in H;
      repeat (destruct (sanitizeNumericField _); try discriminate H);
      injection H as <-; repeat split. }
  destruct (sanitizeNumericField (get "rating")) eqn:E1; [|destruct H'].
  destruct (sanitizeNumericField (get "total_time")) eqn:E2; [|destruct H'].
  destruct (sanitizeNumericField (get "prep_time")) eqn:E3; [|destruct H'].
  destruct (sanitizeNumericField (get "cook_time")) eqn:E4; [|destruct H'].
  destruct H' as (Ht & <- & <- & <- & <- & Hi & Hn).
  split; [exact E1|]. split; [exact E2|]. split; [exact E3|].
  split; [exact E4|]. split; [exact Ht|]. split; [exact Hi | exact Hn].
Qed.

Lemma processed_title (e : json) (r : processed) :
  processRecipeData e = Some r ->
  negb (is_null (title r)) = has_title e
  /\ (has_title e = true -> truthy (title r) = true).
Proof.
  intro H. destruct (processed_inv e r H) as (get & Hg & _ & _ & _ & _ & Ht & _).
  rewrite Ht, is_null_or_null, Bool.negb_involutive, Hg.
  destruct e; cbn; try (split; [reflexivity | discriminate]);
    try discriminate H.
  split; [reflexivity|]. intro T. unfold or_null. now rewrite T.
Qed.

Lemma processed_fields (e : json) (r : processed) :
  processRecipeData e = Some r ->
  clean_number (rating r) = true /\ clean_number (total_time r) = true
  /\ clean_number (prep_time r) = true /\ clean_number (cook_time r) = true
  /\ isArray (ingredients r) = true /\ isArray (instructions r) = true.
Proof.
  assert (Hc : forall v x, sanitizeNumericField v = Some x ->
                           clean_number x = true).
  { intros v x Hx.
    destruct (sanitize_cases v) as [[E _] | [[E _] | (n & E & Hn & _)]];
      rewrite E in Hx; try discriminate Hx; injection Hx as <-;
      cbn; [reflexivity | now rewrite Hn]. }
  assert (Ha : forall v, isArray (if isArray v then v else JArr []) = true).
  { intros v. destruct (isArray v) eqn:E; [exact E | reflexivity]. }
  intro H.
  destruct (processed_inv e r H) as (get & _ & H1 & H2 & H3 & H4 & _ & H5 & H6).
  rewrite H5, H6, !Ha.
  repeat split; eauto.
Qed.

(** When [processRecipeData] throws. *)
Lemma processed_none (e : json) :
  processRecipeData e = None <->
  e = JNull \/ e = JUndefined
  \/ exists members name,
       e = JObj members /\ In name numeric_fields
       /\ throws (lookup name members) = true.
Proof.
  assert (Hs : forall v, sanitizeNumericField v = None <-> throws v = true).
  { intro v.
    destruct (sanitize_cases v) as [[E T] | [[E T] | (n & E & _ & T)]];
      rewrite E, T; split; (reflexivity || discriminate). }
  destruct e as [| |b|n|t|items|members]; cbn [processRecipeData prop].
  - split; [auto | reflexivity].
  - split; [auto | reflexivity].
  - split; [discriminate|].
    intros [E | [E | (m & n' & E & _)]]; discriminate E.
  - split; [discriminate|].
    intros [E | [E | (m & n' & E & _)]]; discriminate E.
  - split; [discriminate|].
    intros [E | [E | (m & n' & E & _)]]; discriminate E.
  - split; [discriminate|].
    intros [E | [E | (m & n' & E & _)]]; discriminate E.
  - cbv zeta. split.
    + intro H. right. right. exists members.
      destruct (sanitizeNumericField (lookup "rating" members)) eqn:E1;
        [|exists "rating"; split; [reflexivity|];
          split; [cbn; auto | now apply Hs]].
      destruct (sanitizeNumericField (lookup "total_time" members)) eqn:E2;
        [|exists "total_time"; split; [reflexivity|];
          split; [cbn; auto | now apply Hs]].
      destruct (sanitizeNumericField (lookup "prep_time" members)) eqn:E3;
        [|exists "prep_time"; split; [reflexivity|];
          split; [cbn; auto | now apply Hs]].
      destruct (sanitizeNumericField (lookup "cook_time" members)) eqn:E4;
        [discriminate H|].
      exists "cook_time". split; [reflexivity|].
      split; [cbn; auto | now apply Hs].
    + intros [E | [E | (m & name & E & Hn & T)]]; try discriminate E.
      injection E as <-. apply Hs in T.
      destruct Hn as [<- | [<- | [<- | [<- | []]]]]; rewrite T;
        repeat (destruct (sanitizeNumericField _)); reflexivity.
Qed.

Lemma valid_selection (entries : list json) (recipes : list processed) :
  map_option processRecipeData entries = Some recipes ->
  map_option processRecipeData (filter has_title entries)
  = Some (filter (fun recipe => negb (is_null (title recipe))) recipes).
Proof.
  revert recipes. induction entries as [|e entries IH]; cbn [map_option];
    intros recipes H.
  - injection H as <-. reflexivity.
  - destruct (processRecipeData e) as [r|] eqn:Er; [|discriminate].
    destruct (map_option processRecipeData entries) as [rs|]; [|discriminate].
    injection H as <-. cbn [filter].
    destruct (processed_title _ _ Er) as [-> _].
    destruct (has_title e); [|now apply IH].
    cbn [map_option]. now rewrite Er, (IH _ eq_refl).
Qed.

(** *** The order of the entries *)

Lemma insert_key_perm (key : string) (keys : list string) :
  Permutation (insert_key key keys) (key :: keys).
Proof.
  induction keys as [|k keys IH]; cbn [insert_key]; [reflexivity|].
  destruct (index key <? index k)%Z; [reflexivity|].
  rewrite IH. apply perm_swap.
Qed.

Lemma sort_keys_perm (keys : list string) :
  Permutation (fold_right insert_key [] keys) keys.
Proof.
  induction keys as [|k keys IH]; cbn [fold_right]; [reflexivity|].
  rewrite insert_key_perm. now constructor.
Qed.

Lemma insert_key_sorted (key : string) (keys : list string) :
  StronglySorted le_index keys -> StronglySorted le_index (insert_key key keys).
Proof.
  induction 1 as [|k keys St IH Fk]; cbn [insert_key].
  - constructor; constructor.
  - destruct (Z.ltb_spec (index key) (index k)) as [Hlt|Hge].
    + constructor; [constructor; assumption|].
      constructor; [unfold le_index; lia|].
      eapply Forall_impl; [|exact Fk]. unfold le_index. intros a Ha. lia.
    + constructor; [exact IH|].
      apply Forall_forall. intros x Hx.
      apply (Permutation_in _ (insert_key_perm key keys)) in Hx.
      destruct Hx as [<- | Hx]; [exact Hge|].
      rewrite Forall_forall in Fk. now apply Fk.
Qed.

Lemma sort_keys_sorted (keys : list string) :
  StronglySorted le_index (fold_right insert_key [] keys).
Proof.
  induction keys as [|k keys IH]; cbn [fold_right]; [constructor|].
  now apply insert_key_sorted.
Qed.

Lemma sort_keys_none (keys : list string) :
  filter is_index keys = [] ->
  filter (fun key => negb (is_index key)) keys = keys.
Proof.
  induction keys as [|k keys IH]; cbn [filter]; [reflexivity|].
  destruct (is_index k); [discriminate|]. cbn [negb]. intro H.
  now rewrite IH.
Qed.

Lemma lookup_In (members : list (string * json)) (key : string) (v : json) :
  NoDup (map fst members) -> In (key, v) members -> lookup key members = v.
Proof.
  induction members as [|[k x] members IH]; intros Hn Hin; [destruct Hin|].
  cbn [lookup]. cbn [map fst] in Hn. inversion Hn as [|? ? Hk Hn']; subst.
  destruct Hin as [[= -> ->] | Hin].
  - now rewrite String.eqb_refl.
  - destruct (String.eqb_spec key k) as [-> | _]; [|now apply IH].
    elim Hk. apply in_map_iff. now exists (k, v).
Qed.

Lemma lookup_keys (members l : list (string * json)) :
  NoDup (map fst members) -> incl l members ->
  map (fun key => lookup key members) (map fst l) = map snd l.
Proof.
  intros Hn Hl. rewrite map_map. apply map_ext_in.
  intros [k v] Hin. cbn [fst snd]. apply lookup_In; auto.
Qed.

Lemma filter_keys (p : string -> bool) (members : list (string * json)) :
  filter p (map fst members) = map fst (filter (fun kv => p (fst kv)) members).
Proof.
  induction members as [|[k v] members IH]; cbn [map filter fst]; [reflexivity|].
  destruct (p k); cbn [map fst]; now rewrite IH.
Qed.

Lemma Object_keys_perm (members : list (string * json)) :
  Permutation (Object_keys members) (map fst members).
Proof.
  unfold Object_keys.
  eapply Permutation_trans;
    [apply Permutation_app_tail, sort_keys_perm|].
  induction (map fst members) as [|k keys IH]; cbn [filter]; [reflexivity|].
  destruct (is_index k); cbn [negb app].
  - now constructor.
  - eapply Permutation_trans;
      [apply Permutation_sym, Permutation_middle|].
    now constructor.
Qed.

(** X11. Sanitising a numeric field throws exactly when the conversion
    to a number does: on an object with a property [toString], or on an
    array that holds one.  Otherwise it gives [null] or a number other
    than NaN, leaves such a value as it is (so sanitising twice changes
    nothing), and turns a string of white space only, the empty string
    included, into [0] rather than [null]. *)
Theorem sanitizeNumericField_spec (v : json) :
  (sanitizeNumericField v = None <-> throws v = true)
  /\ (forall members, v = JObj members ->
        (throws v = true <-> In "toString" (map fst members)))
  /\ (forall r, sanitizeNumericField v = Some r ->
        clean_number r = true /\ sanitizeNumericField r = Some r)
  /\ (clean_number v = true -> sanitizeNumericField v = Some v)
  /\ (forall s, v = JStr s -> blank s = true ->
        sanitizeNumericField v = Some (JNum (JS.of_Z 0))).
Proof.
  split; [|split; [|split; [|split]]].
  - destruct (sanitize_cases v) as [[E T] | [[E T] | (n & E & _ & T)]];
      rewrite E, T; split; (reflexivity || discriminate).
  - intros members ->. cbn [throws]. rewrite existsb_exists. split.
    + intros ([k x] & Hin & Hk). cbn [fst] in Hk.
      apply String.eqb_eq in Hk. subst k.
      apply in_map_iff. now exists ("toString", x).
    + intros Hin. apply in_map_iff in Hin as ([k x] & Hk & Hin).
      cbn [fst] in Hk. subst k. exists ("toString", x).
      split; [exact Hin | reflexivity].
  - intros r Hr.
    assert (Hc : clean_number r = true).
    { destruct (sanitize_cases v) as [[E _] | [[E _] | (n & E & Hn & _)]];
        rewrite E in Hr; try discriminate Hr; injection Hr as <-;
        cbn; [reflexivity | now rewrite Hn]. }
    split; [exact Hc | now apply sanitize_clean].
  - apply sanitize_clean.
  - intros s -> Hs. unfold sanitizeNumericField, Number.
    assert (Hn : ToNumber (JStr s) = JS.of_Z 0).
    { cbn [ToNumber]. unfold JS.string_to_number.
      rewrite blank_forallb in Hs.
      now rewrite (trim_ws_all _ Hs). }
    cbn [throws]. rewrite Hn.
    assert (Hs' : isNaNValue (JStr s) = false).
    { cbn. destruct (String.eqb_spec s "NaN") as [->|];
        [discriminate Hs | reflexivity]. }
    now rewrite Hs'.
Qed.

Lemma sanitizeNumericField_spec_witness :
  sanitizeNumericField (JStr "  ") = Some (JNum (JS.of_Z 0))
  /\ sanitizeNumericField (JNum (JS.Fin (9 # 2))) = Some (JNum (JS.Fin (9 # 2)))
  /\ throws (JObj [("toString", JNum (JS.of_Z 0))]) = true.
Proof.
  split; [|split].
  - apply (sanitizeNumericField_spec (JStr "  ")) with (s := "  "); reflexivity.
  - apply (sanitizeNumericField_spec (JNum (JS.Fin (9 # 2)))). reflexivity.
  - destruct (sanitizeNumericField_spec (JObj [("toString", JNum (JS.of_Z 0))]))
      as (_ & H & _).
    apply (H _ eq_refl). left. reflexivity.
Defined.

(** X12. Every record handed to [insertMany] comes from an entry of the file
    with a truthy title, has that title, has [null] or a proper number in
    each numeric field, and arrays as ingredients and instructions. *)
Theorem inserted_records (entries : list json) (bs : list (list processed))
    (b : list processed) (r : processed) :
  inserted entries = Some bs -> In b bs -> In r b ->
  (exists e, In e entries /\ processRecipeData e = Some r /\ has_title e = true)
  /\ truthy (title r) = true
  /\ clean_number (rating r) = true /\ clean_number (total_time r) = true
  /\ clean_number (prep_time r) = true /\ clean_number (cook_time r) = true
  /\ isArray (ingredients r) = true /\ isArray (instructions r) = true.
Proof.
  unfold inserted, validRecipes.
  destruct (map_option processRecipeData entries) as [recipes|] eqn:Em;
    [|discriminate].
  intros H Hb Hr. injection H as <-.
  assert (Hin : In r (filter (fun recipe => negb (is_null (title recipe))) recipes)).
  { unfold batches in Hb.
    pose proof (batches_from_concat
      (filter (fun recipe => negb (is_null (title recipe))) recipes)
      (List.length (filter (fun recipe => negb (is_null (title recipe))) recipes))
      0 ltac:(lia)) as Hc.
    cbn [skipn] in Hc. rewrite <- Hc.
    apply in_concat. eauto. }
  apply filter_In in Hin as [Hin Ht].
  destruct (map_option_In _ _ _ Em _ Hin) as (e & He & Hp).
  destruct (processed_title _ _ Hp) as [E1 E2]. rewrite Ht in E1.
  split; [exists e; auto|].
  split; [auto|]. exact (processed_fields _ _ Hp).
Qed.

(** X13. Nothing is lost or duplicated by filtering and batching: what
    is inserted, batch after batch, is the processed form of the entries
    with a truthy title, in the order [Object.keys] gives them.  For an
    array that is the order of the file.  For an object (with one
    property per key) the entries are its values, those under array
    indices first, by ascending index, then the others in the order of
    the file; so an object without index keys is read in the order of
    the file. *)
Theorem inserted_selection (recipesData : json) (entries : list json)
    (bs : list (list processed)) :
  entries_of recipesData = Some entries ->
  importData recipesData = Some bs ->
  map_option processRecipeData (filter has_title entries)
  = Some (List.concat bs)
  /\ (forall items, recipesData = JArr items -> entries = items)
  /\ (forall members, recipesData = JObj members ->
        NoDup (map fst members) ->
        Permutation entries (map snd members)
        /\ (filter is_index (map fst members) = [] ->
            entries = map snd members)
        /\ exists ikeys,
             Permutation ikeys (filter is_index (map fst members))
             /\ StronglySorted le_index ikeys
             /\ entries
                = map (fun key => lookup key members) ikeys
                  ++ map snd (filter (fun kv => negb (is_index (fst kv)))
                                     members)).
Proof.
  intros He Hi. unfold importData in Hi. rewrite He in Hi.
  split; [|split].
  - unfold inserted, validRecipes in Hi.
    destruct (map_option processRecipeData entries) as [recipes|] eqn:Em;
      [|discriminate].
    injection Hi as <-. unfold batches.
    rewrite batches_from_concat by lia. cbn [skipn].
    now apply valid_selection.
  - intros items ->. cbn in He. now injection He.
  - intros members -> Hn. cbn [entries_of] in He. injection He as <-.
    assert (Hk : map (fun key => lookup key members) (map fst members)
                 = map snd members).
    { apply lookup_keys; [exact Hn | apply incl_refl]. }
    split; [|split].
    + rewrite <- Hk. apply Permutation_map, Object_keys_perm.
    + intro Hnone. unfold Object_keys. rewrite Hnone.
      cbn [fold_right app]. now rewrite sort_keys_none.
    + exists (fold_right insert_key [] (filter is_index (map fst members))).
      split; [apply sort_keys_perm|]. split; [apply sort_keys_sorted|].
      unfold Object_keys. rewrite map_app. f_equal.
      rewrite filter_keys. apply lookup_keys; [exact Hn|].
      intros kv Hkv. now apply filter_In in Hkv as [Hkv _].
Qed.

(** X14. The run is aborted by an exception before the first batch
    exactly when the file is [null], or some entry is [null], or some
    entry is an object one of whose numeric fields cannot be converted
    to a number (it is an object with a property [toString], or an array
    that holds one).  Entries of any other kind never abort it. *)
Theorem import_aborts (recipesData : json) :
  importData recipesData = None <->
  recipesData = JNull \/ recipesData = JUndefined
  \/ exists entries e,
       entries_of recipesData = Some entries /\ In e entries
       /\ (e = JNull \/ e = JUndefined
           \/ exists members name,
                e = JObj members /\ In name numeric_fields
                /\ throws (lookup name members) = true).
Proof.
  unfold importData.
  destruct (entries_of recipesData) as [entries|] eqn:He.
  - unfold inserted, validRecipes. split.
    + destruct (map_option processRecipeData entries) eqn:Em; [discriminate|].
      intros _. apply map_option_None in Em as (e & Hin & Hp).
      right. right. exists entries, e. split; [reflexivity|].
      split; [exact Hin|]. now apply processed_none.
    + intros [-> | [-> | (entries' & e & [= <-] & Hin & Hp)]];
        try discriminate He.
      assert (Em : map_option processRecipeData entries = None).
      { apply map_option_None. exists e. split; [exact Hin|].
        now apply processed_none. }
      now rewrite Em.
  - split; [|reflexivity]. intros _.
    destruct recipesData; try discriminate He; auto.
Qed.

(** X15. The batches partition the list: joined in order they give it back,
    each holds between 1 and 100 records, all but the last hold 100, and
    there are as many as the length divided by 100, rounded up. *)
Theorem batches_partition {A : Type} (l : list A) :
  List.concat (batches l) = l
  /\ Forall (fun b => 1 <= List.length b <= 100)%nat (batches l)
  /\ List.length (batches l) = ((List.length l + 99) / 100)%nat
  /\ forall k b, nth_error (batches l) k = Some b ->
       b = firstn 100 (skipn (100 * k) l)
       /\ (S k < List.length (batches l) -> List.length b = 100)%nat.
Proof.
  unfold batches.
  pose proof (batches_from_count l (List.length l) 0 ltac:(lia)) as [Hc1 Hc2].
  unfold batchSize in Hc1, Hc2. rewrite Nat.sub_0_r in *.
  split; [|split; [|split]].
  - rewrite batches_from_concat by lia. reflexivity.
  - apply batches_from_sizes.
  - apply Nat.div_unique with
      (r := (List.length l + 99 - 100 * List.length (batches_from (List.length l) 0 l))%nat); lia.
  - intros k b Hk.
    assert (Hlt : (k < List.length (batches_from (List.length l) 0 l))%nat).
    { apply nth_error_Some. congruence. }
    assert (Hk' : (0 + batchSize * k < List.length l)%nat).
    { unfold batchSize. lia. }
    rewrite (batches_from_nth l _ 0 k) in Hk by (lia || exact Hk').
    assert (Hb : b = firstn batchSize (skipn (batchSize * k) l)).
    { change (0 + batchSize * k)%nat with (batchSize * k)%nat in Hk.
      congruence. }
    split; [exact Hb|].
    intros HS. rewrite Hb, length_firstn, length_skipn. unfold batchSize. lia.
Qed.


Lemma inserted_records_witness :
  truthy (title pie_record) = true /\ clean_number (rating pie_record) = true.
Proof.
  destruct (inserted_records [pie_entry; gallery_entry] [[pie_record]]
              [pie_record] pie_record eq_refl
              (or_introl eq_refl) (or_introl eq_refl))
    as (_ & Ht & Hr & _).
  split; [exact Ht | exact Hr].
Defined.

Lemma inserted_selection_witness :
  importData swapped_file = Some [[pie_record; cake_record]].
Proof.
  destruct (inserted_selection swapped_file [pie_entry; cake_entry]
              [[pie_record; cake_record]] eq_refl eq_refl) as (_ & _ & H).
  destruct (H _ eq_refl) as (_ & _ & ikeys & _ & _ & _).
  - repeat constructor; cbn; intuition discriminate.
  - reflexivity.
Defined.

Lemma batches_partition_witness :
  List.length (firstn 100 (skipn (100 * 0) (repeat pie_record 150))) = 100%nat.
Proof.
  destruct (batches_partition (repeat pie_record 150)) as (_ & _ & _ & H).
  destruct (H 0%nat (firstn 100 (repeat pie_record 150)) eq_refl) as [_ Hl].
  apply Hl. vm_compute. lia.
Defined.

End ImporterProps.
(* ================================================================== *)
(** ** Further properties: the user interface *)
(* ================================================================== *)

Section PaginationProps.

Import Pagination Terms.
Local Open Scope Z_scope.

Lemma window_closed (cur total : Z) :
  window cur total
  = (Z.max 1 (Z.min (cur - 2) (total - 4)),
     Z.min total (Z.max 1 (Z.min (cur - 2) (total - 4)) + 4)).
Proof.
  unfold window, maxVisiblePages.
  change (5 / 2) with 2.
  destruct (Z.ltb_spec (Z.min total (Z.max 1 (cur - 2) + 5 - 1)
                        - Z.max 1 (cur - 2) + 1) 5);
    f_equal; lia.
Qed.

Lemma count_up_run (fuel : nat) (i e : Z) :
  e - i + 1 <= Z.of_nat fuel ->
  count_up fuel i e = run i (Z.to_nat (e - i + 1)).
Proof.
  revert i. induction fuel as [|fuel IH]; intros i H; cbn [count_up].
  - replace (Z.to_nat (e - i + 1)) with 0%nat by lia. reflexivity.
  - destruct (Z.leb_spec i e) as [Hi|Hi].
    + rewrite IH by lia.
      replace (Z.to_nat (e - i + 1)) with (S (Z.to_nat (e - (i + 1) + 1))) by lia.
      unfold run. cbn [seq map]. f_equal; [lia|].
      rewrite <- seq_shift, map_map. apply map_ext. intros k. lia.
    + replace (Z.to_nat (e - i + 1)) with 0%nat by lia. reflexivity.
Qed.

Lemma In_run (s : Z) (n : nat) (p : Z) :
  In p (run s n) <-> s <= p < s + Z.of_nat n.
Proof.
  unfold run. rewrite in_map_iff. split.
  - intros (k & <- & Hk). apply in_seq in Hk. lia.
  - intros H. exists (Z.to_nat (p - s)). split; [lia|]. apply in_seq. lia.
Qed.

Lemma pages_run (cur total : Z) :
  pages cur total
  = run (Z.max 1 (Z.min (cur - 2) (total - 4)))
        (Z.to_nat (Z.min total (Z.max 1 (Z.min (cur - 2) (total - 4)) + 4)
                   - Z.max 1 (Z.min (cur - 2) (total - 4)) + 1)).
Proof.
  unfold pages. rewrite window_closed. apply count_up_run. lia.
Qed.


(** X16. The page buttons show a run of consecutive pages that lies within
    [1 .. totalPages], has [min (5, totalPages)] pages, contains the
    current page, and is centred on it wherever two pages exist on each
    side. *)
Theorem pagination_window (currentPage totalPages : Z) :
  (1 <= totalPages)%Z ->
  exists startPage endPage,
    window currentPage totalPages = (startPage, endPage)
    /\ pages currentPage totalPages
       = run startPage (Z.to_nat (Z.min 5 totalPages))
    /\ (1 <= startPage /\ endPage <= totalPages
        /\ endPage - startPage + 1 = Z.min 5 totalPages)%Z
    /\ ((1 <= currentPage <= totalPages)%Z ->
        In currentPage (pages currentPage totalPages))
    /\ ((3 <= currentPage <= totalPages - 2)%Z ->
        startPage = (currentPage - 2)%Z /\ endPage = (currentPage + 2)%Z).
Proof.
  intros Ht.
  exists (Z.max 1 (Z.min (currentPage - 2) (totalPages - 4))),
         (Z.min totalPages (Z.max 1 (Z.min (currentPage - 2) (totalPages - 4)) + 4)).
  split; [apply window_closed|].
  split; [rewrite pages_run; f_equal; lia|].
  split; [lia|].
  split; [|lia].
  intros Hc. rewrite pages_run. apply In_run. lia.
Qed.

Lemma pagination_window_witness :
  pages 7 10 = [5; 6; 7; 8; 9]%Z /\ pages 10 10 = [6; 7; 8; 9; 10]%Z.
Proof.
  split.
  - destruct (pagination_window 7 10 ltac:(lia)) as (s & e & Hw & Hp & _ & _ & Hc).
    destruct (Hc ltac:(lia)) as [-> _]. exact Hp.
  - destruct (pagination_window 10 10 ltac:(lia)) as (s & e & Hw & Hp & _).
    injection Hw as <- <-. exact Hp.
Defined.

(** X17. With the current page within [1 .. totalPages] and more than one
    page, every click passes a page within that range to the handler;
    the first page, the last page and the neighbours of the current page
    can each be reached by one click; the current page has a button,
    and a button is marked as current only for that page. *)
Theorem pagination_clicks (currentPage totalPages : Z) (controls : list control) :
  (1 <= currentPage <= totalPages)%Z ->
  render currentPage totalPages = Some controls ->
  (forall c p, In c controls -> click currentPage totalPages c = Some p ->
     (1 <= p <= totalPages)%Z)
  /\ (forall p, (1 <= p <= totalPages)%Z ->
        (p = 1 \/ p = totalPages \/ currentPage - 2 <= p <= currentPage + 2)%Z ->
        exists c, In c controls /\ click currentPage totalPages c = Some p)
  /\ (forall p b, In (PageButton p b) controls ->
        (b = true <-> p = currentPage))
  /\ In (PageButton currentPage true) controls.
Proof.
  intros Hc. unfold render. rewrite window_closed, pages_run.
  set (s := Z.max 1 (Z.min (currentPage - 2) (totalPages - 4))).
  set (e := Z.min totalPages (s + 4)).
  destruct (Z.leb_spec totalPages 1) as [Ht|Ht]; [discriminate|].
  intros H. injection H as <-.
  assert (Hp : forall p, In p (run s (Z.to_nat (e - s + 1))) <-> (s <= p <= e)%Z).
  { intros p. rewrite In_run. lia. }
  assert (Hcur : (s <= currentPage <= e)%Z) by lia.
  split; [|split; [|split]].
  - intros c p Hin Hk.
    destruct Hin as [Hin|Hin]; [|repeat (apply in_app_or in Hin as [Hin|Hin])].
    + subst c. cbn in Hk.
      destruct (Z.ltb_spec 1 currentPage); [|discriminate].
      injection Hk as <-. lia.
    + destruct (Z.ltb_spec 1 s); [|destruct Hin].
      destruct Hin as [<-|Hin].
      * cbn in Hk. injection Hk as <-. lia.
      * destruct (2 <? s)%Z; [destruct Hin as [<-|[]]; discriminate | destruct Hin].
    + apply in_map_iff in Hin as (q & <- & Hq). apply Hp in Hq.
      cbn in Hk. injection Hk as <-. lia.
    + destruct (Z.ltb_spec e totalPages); [|destruct Hin].
      apply in_app_or in Hin as [Hin|Hin].
      * destruct (e <? totalPages - 1)%Z; [destruct Hin as [<-|[]]; discriminate | destruct Hin].
      * destruct Hin as [<-|[]]. cbn in Hk. injection Hk as <-. lia.
    + destruct Hin as [<-|[]]. cbn in Hk.
      destruct (Z.ltb_spec currentPage totalPages); [|discriminate].
      injection Hk as <-. lia.
  - intros p Hr Hcase.
    destruct (Z_le_gt_dec s p) as [Hsp|Hsp]; [destruct (Z_le_gt_dec p e) as [Hpe|Hpe]|].
    + exists (PageButton p (p =? currentPage)%Z). split; [|reflexivity].
      right. apply in_or_app. right. apply in_or_app. left.
      apply in_map_iff. exists p. split; [reflexivity|]. apply Hp. lia.
    + assert (p = totalPages) by lia. subst p.
      exists (PageButton totalPages false). split; [|reflexivity].
      right. apply in_or_app. right. apply in_or_app. right.
      apply in_or_app. left.
      destruct (Z.ltb_spec e totalPages); [|lia].
      apply in_or_app. right. now left.
    + assert (p = 1%Z) by lia. subst p.
      exists (PageButton 1 false). split; [|reflexivity].
      right. apply in_or_app. left.
      destruct (Z.ltb_spec 1 s); [|lia]. now left.
  - intros p b Hin.
    destruct Hin as [Hin|Hin]; [|repeat (apply in_app_or in Hin as [Hin|Hin])].
    + discriminate.
    + destruct (Z.ltb_spec 1 s); [|destruct Hin].
      destruct Hin as [Hin|Hin].
      * injection Hin as <- <-. split; [discriminate | lia].
      * destruct (2 <? s)%Z; [destruct Hin as [Hin|[]]; discriminate | destruct Hin].
    + apply in_map_iff in Hin as (q & Hq & _). injection Hq as -> <-.
      split; [apply Z.eqb_eq | intros ->; apply Z.eqb_refl].
    + destruct (Z.ltb_spec e totalPages); [|destruct Hin].
      apply in_app_or in Hin as [Hin|Hin].
      * destruct (e <? totalPages - 1)%Z; [destruct Hin as [Hin|[]]; discriminate | destruct Hin].
      * destruct Hin as [Hin|[]]. injection Hin as <- <-.
        split; [discriminate | lia].
    + destruct Hin as [Hin|[]]. discriminate.
  - right. apply in_or_app. right. apply in_or_app. left.
    apply in_map_iff. exists currentPage. split; [|apply Hp; lia].
    now rewrite Z.eqb_refl.
Qed.

Lemma pagination_clicks_witness :
  exists c, In c [Previous false; PageButton 1 false; Ellipsis;
                  PageButton 3 false; PageButton 4 false; PageButton 5 true;
                  PageButton 6 false; PageButton 7 false; Ellipsis;
                  PageButton 10 false; Next false]
            /\ click 5 10 c = Some 10%Z.
Proof.
  destruct (pagination_clicks 5 10 _ ltac:(lia) eq_refl) as (_ & H & _).
  apply (H 10%Z); lia.
Defined.

End PaginationProps.

Section FormProps.

Import SearchFilters Terms.
Local Open Scope string_scope.
Local Open Scope list_scope.


Lemma skip_ws_nil_inv (l : list ascii) :
  JS.skip_ws l = [] -> forallb JS.is_ws l = true.
Proof.
  induction l as [|c l IH]; cbn; [reflexivity|].
  destruct (JS.is_ws c); [exact IH | discriminate].
Qed.

Lemma skip_ws_blank_all (l : list ascii) :
  forallb JS.is_ws l = true -> JS.skip_ws l = [].
Proof.
  induction l as [|c l IH]; cbn; [reflexivity|].
  intros H. apply andb_prop in H as [Hc Hl]. rewrite Hc. auto.
Qed.

Lemma skip_ws_head (l : list ascii) :
  match JS.skip_ws l with
  | [] => True
  | c :: _ => JS.is_ws c = false
  end.
Proof.
  induction l as [|c l IH]; cbn; [exact I|].
  destruct (JS.is_ws c) eqn:E; [exact IH | exact E].
Qed.

Lemma skip_ws_snoc (l : list ascii) (x : ascii) :
  JS.is_ws x = false -> JS.skip_ws (l ++ [x]) = JS.skip_ws l ++ [x].
Proof.
  intros Hx. induction l as [|c l IH]; cbn.
  - now rewrite Hx.
  - destruct (JS.is_ws c); [exact IH | reflexivity].
Qed.

(** The shape of a trimmed text: empty, or from a first to a last
    character that are not white space. *)
Lemma trim_ws_shape (l : list ascii) :
  JS.trim_ws l = []
  \/ exists x m, JS.trim_ws l = x :: m
       /\ JS.is_ws x = false /\ JS.skip_ws (rev (x :: m)) = rev (x :: m).
Proof.
  unfold JS.trim_ws.
  pose proof (skip_ws_head l) as Hh.
  destruct (JS.skip_ws l) as [|x a]; [now left|].
  right. cbn [rev]. rewrite (skip_ws_snoc _ _ Hh), rev_app_distr. cbn [rev app].
  exists x, (rev (JS.skip_ws (rev a))). split; [reflexivity|]. split; [exact Hh|].
  cbn [rev]. rewrite rev_involutive, (skip_ws_snoc _ _ Hh).
  f_equal.
  pose proof (skip_ws_head (rev a)) as Hr.
  destruct (JS.skip_ws (rev a)) as [|y u]; [reflexivity|].
  cbn. now rewrite Hr.
Qed.

Lemma trim_ws_idem (l : list ascii) : JS.trim_ws (JS.trim_ws l) = JS.trim_ws l.
Proof.
  destruct (trim_ws_shape l) as [-> | (x & m & -> & Hx & Hr)]; [reflexivity|].
  unfold JS.trim_ws at 1. cbn [JS.skip_ws]. rewrite Hx, Hr.
  apply rev_involutive.
Qed.

Lemma trim_ws_nil (l : list ascii) :
  JS.trim_ws l = [] <-> forallb JS.is_ws l = true.
Proof.
  split.
  - unfold JS.trim_ws. intros H.
    assert (H1 : JS.skip_ws (rev (JS.skip_ws l)) = []).
    { rewrite <- (rev_involutive (JS.skip_ws _)), H. reflexivity. }
    apply skip_ws_nil_inv in H1.
    pose proof (skip_ws_head l) as Hh.
    destruct (JS.skip_ws l) as [|x a] eqn:E; [now apply skip_ws_nil_inv|].
    rewrite forallb_forall in H1.
    rewrite (H1 x) in Hh; [discriminate|].
    apply in_rev. rewrite rev_involutive. now left.
  - intros H. unfold JS.trim_ws. now rewrite (skip_ws_blank_all _ H).
Qed.

Lemma text_nil (l : list ascii) : text l = EmptyString <-> l = [].
Proof.
  destruct l; cbn; split; intros H; try reflexivity; discriminate.
Qed.




Lemma blank_chars (s : string) : blank s = forallb JS.is_ws (chars s).
Proof. induction s as [|c s IH]; cbn; [|rewrite IH]; reflexivity. Qed.

Lemma trim_empty (value : string) :
  String.eqb (trim value) "" = blank value.
Proof.
  rewrite blank_chars. unfold trim.
  destruct (String.eqb_spec (text (JS.trim_ws (chars value))) "") as [E|E].
  - symmetry. apply trim_ws_nil. now apply text_nil.
  - destruct (forallb JS.is_ws (chars value)) eqn:Hb; [|reflexivity].
    apply trim_ws_nil in Hb. rewrite Hb in E. now elim E.
Qed.

Lemma trim_idem (value : string) : trim (trim value) = trim value.
Proof. unfold trim. now rewrite chars_text, trim_ws_idem. Qed.

Lemma reduce_filter_map {A B : Type} (step : list B -> A -> list B)
    (p : A -> bool) (g : A -> B) (l : list A) (acc : list B) :
  (forall acc x, step acc x = if p x then acc ++ [g x] else acc)%list ->
  fold_left step l acc = (acc ++ map g (filter p l))%list.
Proof.
  intros Hs. revert acc.
  induction l as [|a l IH]; intros acc; cbn [fold_left filter].
  - cbn. now rewrite app_nil_r.
  - rewrite IH, Hs. destruct (p a); [|reflexivity].
    cbn [map]. now rewrite <- app_assoc.
Qed.

Lemma handleSubmit_filter (f : filters) :
  handleSubmit f
  = map (fun kv => (fst kv, trim (snd kv)))
        (filter (fun kv => negb (blank (snd kv))) (entries f)).
Proof.
  unfold handleSubmit.
  rewrite (reduce_filter_map _ (fun kv => negb (blank (snd kv)))
             (fun kv => (fst kv, trim (snd kv)))).
  - reflexivity.
  - intros acc [k v]. cbn [fst snd]. now rewrite trim_empty.
Qed.


(** X18. The filters submitted are those of the form that are not blank, each
    once and in the order of the form, with the white space around the
    text removed; none is empty, so each is truthy for the controller;
    and the form reports active filters exactly when it submits some. *)
Theorem handleSubmit_spec (f : filters) :
  (forall key v, In (key, v) (handleSubmit f) <->
     exists value, In (key, value) (entries f)
                   /\ blank value = false /\ v = trim value)
  /\ (forall key v, In (key, v) (handleSubmit f) ->
        v <> EmptyString /\ trim v = v /\ JS.truthy_param (Some v) = true)
  /\ (exists keep, map fst (handleSubmit f)
                   = filter keep (map fst (entries f))
                   /\ NoDup (map fst (handleSubmit f)))
  /\ (hasActiveFilters f = true <-> handleSubmit f <> []).
Proof.
  assert (H1 : forall key v, In (key, v) (handleSubmit f) <->
     exists value, In (key, value) (entries f)
                   /\ blank value = false /\ v = trim value).
  { intros key v. rewrite handleSubmit_filter, in_map_iff. split.
    - intros ([k value] & E & Hin). cbn [fst snd] in E. injection E as <- <-.
      apply filter_In in Hin as [Hin Hb]. cbn [snd] in Hb.
      exists value. split; [exact Hin|]. split; [|reflexivity].
      now destruct (blank value).
    - intros (value & Hin & Hb & ->). exists (key, value).
      split; [reflexivity|]. apply filter_In. split; [exact Hin|].
      cbn [snd]. now rewrite Hb. }
  split; [exact H1|]. split; [|split].
  - intros key v Hin. apply H1 in Hin as (value & _ & Hb & ->).
    assert (Hne : trim value <> EmptyString).
    { intros E. rewrite <- trim_empty in Hb. rewrite E in Hb. discriminate Hb. }
    split; [exact Hne|]. split; [apply trim_idem|].
    cbn. destruct (trim value); [now elim Hne | reflexivity].
  - rewrite handleSubmit_filter. unfold entries.
    exists (fun key =>
              existsb (fun kv => String.eqb key (fst kv) && negb (blank (snd kv)))
                      (entries f)).
    unfold entries. cbn [filter map fst snd existsb].
    destruct (blank (title f)), (blank (cuisine f)), (blank (rating f)),
      (blank (total_time f)), (blank (calories f));
      cbn; (split; [reflexivity|]);
      repeat constructor; cbn; intuition discriminate.
  - unfold hasActiveFilters. rewrite handleSubmit_filter. unfold entries.
    cbn [map snd existsb filter]. rewrite !trim_empty.
    destruct (blank (title f)), (blank (cuisine f)), (blank (rating f)),
      (blank (total_time f)), (blank (calories f));
      cbn; split; intros H; try reflexivity; try discriminate; try (now elim H).
Qed.


Lemma handleSubmit_spec_witness :
  In ("title", "pie")%string (handleSubmit pie_form)
  /\ trim "pie" = "pie"%string.
Proof.
  destruct (handleSubmit_spec pie_form) as (H1 & H2 & _).
  assert (Hin : In ("title", "pie")%string (handleSubmit pie_form)).
  { apply H1. exists "  pie "%string.
    split; [left; reflexivity|]. split; reflexivity. }
  split; [exact Hin|]. apply (H2 _ _ Hin).
Defined.

End FormProps.

Section StarProps.

Import StarRating Terms.
Local Open Scope list_scope.

Lemma trunc_floor (q : Q) : (0 <= Qfloor q)%Z -> JS.trunc q = Qfloor q.
Proof.
  intros H. unfold JS.trunc.
  assert (Hq : 0 <= q).
  { apply Qle_trans with (inject_Z (Qfloor q)); [|apply Qfloor_le].
    change 0 with (inject_Z 0). now rewrite <- Zle_Qle. }
  apply Qle_bool_iff in Hq. now rewrite Hq.
Qed.

(** The row for a known whole part: both cases of the half star. *)
Local Ltac star_row h :=
  destruct h; cbn; repeat split; try reflexivity; try lia;
  try tauto; try discriminate.


(** X19. A rating of zero shows no stars, like a missing one.  Any other
    rating shows five: first the full stars, as many as the whole part of
    the rating and between none and five, then a half star when the
    rating is below five and its fractional part is at least one half,
    then hollow stars. *)
Theorem stars_shape (rating : Q) :
  (stars (Some rating) = None <-> rating == 0)
  /\ forall row, stars (Some rating) = Some row ->
     exists (full : nat) (half : bool),
       row = (repeat Full full ++ (if half then [Half] else [])
              ++ repeat Hollow (5 - full - (if half then 1 else 0)))%list
       /\ List.length row = 5%nat
       /\ Z.of_nat full = Z.max 0 (Z.min 5 (Qfloor rating))
       /\ (half = true <->
           (0 <= Qfloor rating < 5)%Z
           /\ (1 # 2) <= rating - inject_Z (Qfloor rating)).
Proof.
  unfold stars, JS.is_zero.
  destruct (Qeq_bool rating 0) eqn:Ez.
  - split; [|discriminate]. apply Qeq_bool_iff in Ez. tauto.
  - split.
    { split; [discriminate|]. intros H. apply Qeq_bool_iff in H. congruence. }
    intros row H.
    apply (f_equal (fun o => match o with Some x => x | None => [] end)) in H.
    cbv beta iota in H. subst row.
    assert (Hh : (0 <= Qfloor rating)%Z ->
                 Qle_bool (1 # 2) (mod1 rating) = true
                 <-> (1 # 2) <= rating - inject_Z (Qfloor rating)).
    { intros Hf. unfold mod1. rewrite (trunc_floor _ Hf). apply Qle_bool_iff. }
    remember (Qfloor rating) as f eqn:Ef.
    remember (Qle_bool (1 # 2) (mod1 rating)) as h eqn:Eh.
    clear Ef Eh Ez.
    assert (Hc : (f < 0 \/ f = 0 \/ f = 1 \/ f = 2 \/ f = 3 \/ f = 4 \/ 5 <= f)%Z)
      by lia.
    destruct Hc as [Hc|[Hc|[Hc|[Hc|[Hc|[Hc|Hc]]]]]].
    + exists 0%nat, false. cbn [map].
      assert (Hl : forall i, (0 <= i)%Z -> (i <? f)%Z = false)
        by (intros; apply Z.ltb_ge; lia).
      assert (He : forall i, (0 <= i)%Z -> (i =? f)%Z = false)
        by (intros; apply Z.eqb_neq; lia).
      rewrite !Hl, !He by lia.
      cbn. repeat split; try reflexivity; try lia; try discriminate.
    + subst f. exists 0%nat, h. specialize (Hh ltac:(lia)). star_row h.
    + subst f. exists 1%nat, h. specialize (Hh ltac:(lia)). star_row h.
    + subst f. exists 2%nat, h. specialize (Hh ltac:(lia)). star_row h.
    + subst f. exists 3%nat, h. specialize (Hh ltac:(lia)). star_row h.
    + subst f. exists 4%nat, h. specialize (Hh ltac:(lia)). star_row h.
    + exists 5%nat, false. cbn [map].
      assert (Hl : forall i, (i < 5)%Z -> (i <? f)%Z = true)
        by (intros; apply Z.ltb_lt; lia).
      rewrite !Hl by lia.
      cbn. repeat split; try reflexivity; try lia; try discriminate.
Qed.

Lemma stars_shape_witness :
  stars (Some (9 # 2)) = Some [Full; Full; Full; Full; Half]
  /\ List.length [Full; Full; Full; Full; Half] = 5%nat.
Proof.
  split; [reflexivity|].
  destruct (stars_shape (9 # 2)) as [_ H].
  destruct (H _ eq_refl) as (full & half & _ & Hl & _). exact Hl.
Defined.

End StarProps.
